(** * Synapse Protocol: the hybrid stake + reputation consensus engine

    A shallow embedding of [src/blockchain/ConsensusEngine.ts] and the
    properties its specification states about proposer selection, block
    assembly, the epoch update of weight and reputation, pruning and the
    health metrics.

    Numbers.  A JavaScript [number] is modelled twice.  In [number] below
    it is an exact rational, or one of the three special values NaN,
    +Infinity, -Infinity, with the IEEE-754 rules for the special values
    written out; finite arithmetic is exact there.  This model carries the
    properties that do not depend on rounding (NaN propagation, control
    flow, what the epoch does to the registry).  In [Binary64] it is an
    IEEE-754 double ([SpecFloat] of the Standard Library): [Number(bigint)]
    rounds and overflows, and every operation rounds to nearest even.  This
    model carries the order of the computed priorities and the drift of one
    epoch, which rounding decides.  A [bigint] is a [Z].

    The participant map.  [Map<string, ConsensusNode>] iterates in insertion
    order and its keys are unique; it is modelled as an association list in
    insertion order ([NodeMap]) together with the well-formedness predicate
    [Map_wf] (no key occurs twice). *)

From Stdlib Require Import ZArith QArith Qabs Lqa Lia List String Bool.
From Stdlib Require Import Permutation Sorted Qpower.
From Stdlib Require SpecFloat.
Import ListNotations.

Local Open Scope Z_scope.

(* ================================================================== *)
(** * Part I: definitions                                               *)
(* ================================================================== *)

(** ** JavaScript numbers *)

Inductive number : Type :=
| NaN
| NegInfinity
| Finite (q : Q)
| PosInfinity.

Declare Scope number_scope.
Delimit Scope number_scope with num.
Bind Scope number_scope with number.

Module JSNumber.

(** [Number(b)] for a bigint [b]. *)
Definition Number (b : Z) : number := Finite (inject_Z b).

Definition of_nat (n : nat) : number := Finite (inject_Z (Z.of_nat n)).

Definition neg (a : number) : number :=
  match a with
  | NaN => NaN
  | NegInfinity => PosInfinity
  | Finite q => Finite (- q)
  | PosInfinity => NegInfinity
  end.

Definition add (a b : number) : number :=
  match a, b with
  | NaN, _ | _, NaN => NaN
  | PosInfinity, NegInfinity | NegInfinity, PosInfinity => NaN
  | PosInfinity, _ | _, PosInfinity => PosInfinity
  | NegInfinity, _ | _, NegInfinity => NegInfinity
  | Finite x, Finite y => Finite (x + y)
  end.

Definition sub (a b : number) : number := add a (neg b).

(** The infinity with the sign of the comparison of a factor with 0;
    NaN when the factor is 0 (0 * Infinity). *)
Definition signed_infinity (c : comparison) : number :=
  match c with
  | Gt => PosInfinity
  | Lt => NegInfinity
  | Eq => NaN
  end.

Definition mul (a b : number) : number :=
  match a, b with
  | NaN, _ | _, NaN => NaN
  | Finite x, Finite y => Finite (x * y)
  | PosInfinity, PosInfinity | NegInfinity, NegInfinity => PosInfinity
  | PosInfinity, NegInfinity | NegInfinity, PosInfinity => NegInfinity
  | PosInfinity, Finite x | Finite x, PosInfinity => signed_infinity (x ?= 0)%Q
  | NegInfinity, Finite x | Finite x, NegInfinity => signed_infinity (0 ?= x)%Q
  end.

(** Division.  A finite value divided by zero is an infinity with the sign
    of the dividend, and 0 / 0 is NaN; no division raises.  Every divisor
    in the engine is [Number] of a bigint, so a zero divisor is +0. *)
Definition div (a b : number) : number :=
  match a, b with
  | NaN, _ | _, NaN => NaN
  | PosInfinity, PosInfinity | PosInfinity, NegInfinity
  | NegInfinity, PosInfinity | NegInfinity, NegInfinity => NaN
  | Finite _, PosInfinity | Finite _, NegInfinity => Finite 0
  | PosInfinity, Finite y =>
      match (y ?= 0)%Q with Lt => NegInfinity | _ => PosInfinity end
  | NegInfinity, Finite y =>
      match (y ?= 0)%Q with Lt => PosInfinity | _ => NegInfinity end
  | Finite x, Finite y =>
      if Qeq_bool y 0 then signed_infinity (x ?= 0)%Q else Finite (x / y)
  end.

(** [a < b]; false as soon as one side is NaN. *)
Definition ltb (a b : number) : bool :=
  match a, b with
  | NaN, _ | _, NaN => false
  | _, NegInfinity => false
  | NegInfinity, _ => true
  | PosInfinity, _ => false
  | Finite _, PosInfinity => true
  | Finite x, Finite y => negb (Qle_bool y x)
  end.

Definition gtb (a b : number) : bool := ltb b a.

(** [a <= b]; false as soon as one side is NaN. *)
Definition leb (a b : number) : bool :=
  match a, b with
  | NaN, _ | _, NaN => false
  | NegInfinity, _ => true
  | _, PosInfinity => true
  | _, NegInfinity => false
  | PosInfinity, _ => false
  | Finite x, Finite y => Qle_bool x y
  end.

Definition lt (a b : number) : Prop := ltb a b = true.
Definition gt (a b : number) : Prop := gtb a b = true.
Definition le (a b : number) : Prop := leb a b = true.

(** The same number: NaN only with NaN, finite values as rationals. *)
Definition same (a b : number) : Prop :=
  match a, b with
  | NaN, NaN | PosInfinity, PosInfinity | NegInfinity, NegInfinity => True
  | Finite x, Finite y => (x == y)%Q
  | _, _ => False
  end.

Definition sameb (a b : number) : bool :=
  match a, b with
  | NaN, NaN | PosInfinity, PosInfinity | NegInfinity, NegInfinity => true
  | Finite x, Finite y => Qeq_bool x y
  | _, _ => false
  end.

(** The rational a finite number stands for. *)
Definition value (a : number) : Q :=
  match a with Finite q => q | _ => 0%Q end.

Definition isNaN (a : number) : bool :=
  match a with NaN => true | _ => false end.

Definition isFinite (a : number) : bool :=
  match a with Finite _ => true | _ => false end.

(** [Math.max] and [Math.min] of two arguments: NaN if either is NaN. *)
Definition Math_max (a b : number) : number :=
  match a, b with
  | NaN, _ | _, NaN => NaN
  | _, _ => if ltb a b then b else a
  end.

Definition Math_min (a b : number) : number :=
  match a, b with
  | NaN, _ | _, NaN => NaN
  | _, _ => if ltb b a then b else a
  end.

Definition Math_abs (a : number) : number :=
  match a with
  | NaN => NaN
  | NegInfinity | PosInfinity => PosInfinity
  | Finite q => Finite (Qabs q)
  end.

(** A number in the closed interval [0,1] (so neither NaN nor infinite). *)
Definition in_unit_interval (a : number) : Prop :=
  le (Finite 0) a /\ le a (Finite 1).

End JSNumber.

Infix "+" := JSNumber.add : number_scope.
Infix "-" := JSNumber.sub : number_scope.
Infix "*" := JSNumber.mul : number_scope.
Infix "/" := JSNumber.div : number_scope.
Infix "<?" := JSNumber.ltb : number_scope.
Infix ">?" := JSNumber.gtb : number_scope.

(** ** JavaScript arrays and maps *)

Module JSArray.
Section Sort.
Context {A : Type}.
(** The compare function of [Array.prototype.sort]: a negative result
    puts the first argument first, a positive one the second. *)
Variable comparefn : A -> A -> number.

(** [SortCompare]: a NaN result of the compare function counts as +0. *)
Definition sorts_after (x y : A) : bool :=
  JSNumber.gtb (comparefn x y) (Finite 0).

(** Inserting [x], which stood before every element of the already
    sorted [l]: it passes exactly the elements that sort strictly before
    it, so elements that compare equal keep their order. *)
Fixpoint insert (x : A) (l : list A) : list A :=
  match l with
  | [] => [x]
  | y :: l' => if sorts_after x y then y :: insert x l' else x :: l
  end.

(** [Array.prototype.sort(comparefn)], which is stable.  For a compare
    function that is consistent on the array (as every use below is) the
    result of a stable sort does not depend on the algorithm. *)
Fixpoint sort (l : list A) : list A :=
  match l with
  | [] => []
  | x :: l' => insert x (sort l')
  end.
End Sort.

(** [a[i]] for an index computed as a number: [None] stands for the index
    NaN, and an index that is negative or past the end reads [undefined]. *)
Definition get {A : Type} (a : list A) (i : option Z) : option A :=
  match i with
  | Some z => if z <? 0 then None else nth_error a (Z.to_nat z)
  | None => None
  end.
End JSArray.

Module JSMap.
Section Map.
Context {V : Type}.
Definition t := list (string * V).

Definition size (m : t) : nat := List.length m.
Definition values (m : t) : list V := map snd m.
Definition keys (m : t) : list string := map fst m.
Definition entries (m : t) : list (string * V) := m.

Fixpoint get (k : string) (m : t) : option V :=
  match m with
  | [] => None
  | (k', v) :: m' => if String.eqb k k' then Some v else get k m'
  end.

Definition delete (k : string) (m : t) : t :=
  filter (fun e => negb (String.eqb k (fst e))) m.

(** Keys of a map are unique. *)
Definition wf (m : t) : Prop := NoDup (keys m).
End Map.
Arguments t : clear implicits.
End JSMap.

(** ** The data model of [ConsensusEngine.ts] *)

Record ConsensusNode : Type := {
  id : string;
  weight : number;
  stake : Z;
  reputation : number;
  lastProposal : number;
  neuralSignature : string
}.

Inductive TransactionType : Type :=
| MODEL_UPDATE | KNOWLEDGE_SYNC | REPUTATION_UPDATE | STAKE_CHANGE.

Record Transaction : Type := {
  tx_id : string;
  tx_type : TransactionType;
  tx_data : string;
  tx_signature : string
}.

Record ConsensusBlock : Type := {
  height : number;
  timestamp : Z;
  previousHash : string;
  transactions : list Transaction;
  neuralStateRoot : string;
  proposer : string;
  signatures : JSMap.t string
}.

Definition NodeMap := JSMap.t ConsensusNode.
Definition Map_wf (m : NodeMap) : Prop := JSMap.wf m.

(** The fields of the engine the modelled methods read or write. *)
Record ConsensusEngine : Type := {
  nodes : NodeMap;
  currentBlock : option ConsensusBlock;
  blockHeight : number
}.

(** The state [new ConsensusEngine(...)] starts in. *)
Definition initialEngine : ConsensusEngine :=
  {| nodes := []; currentBlock := None; blockHeight := Finite 0 |}.

Definition set_weight (n : ConsensusNode) (w : number) : ConsensusNode :=
  {| id := id n; weight := w; stake := stake n; reputation := reputation n;
     lastProposal := lastProposal n; neuralSignature := neuralSignature n |}.

Definition set_reputation (n : ConsensusNode) (r : number) : ConsensusNode :=
  {| id := id n; weight := weight n; stake := stake n; reputation := r;
     lastProposal := lastProposal n; neuralSignature := neuralSignature n |}.


(** ** Outcomes of calls that may throw or reject *)

Inductive outcome (A : Type) : Type :=
| Returns (a : A)
| Throws (e : string).
Arguments Returns {A} a.
Arguments Throws {A} e.

(** The collaborator behind [this.mesh]; none of its methods is defined in
    the repository, so the engine is modelled over any implementation. *)
Record NeuralMesh : Type := {
  getNodeId : string;
  computeStateRoot : outcome string;
  computeConsensus : outcome string
}.

(** The two evaluation methods of the engine.  Their bodies in the source
    are placeholders that return [0.0]; the update loops are modelled over
    any body, which may reject. *)
Record Evaluators : Type := {
  evaluateNodePerformance : ConsensusNode -> outcome number;
  calculateNeuralAlignment : ConsensusNode -> string -> outcome number
}.

Definition sourceEvaluators : Evaluators :=
  {| evaluateNodePerformance := fun _ => Returns (Finite 0);
     calculateNeuralAlignment := fun _ _ => Returns (Finite 0) |}.

Inductive Event : Type :=
| nodePruned (id : string).

Inductive LogEntry : Type :=
| log_error (message : string) (error : string).

(** ** Proposer selection *)

Open Scope string_scope.
Open Scope list_scope.

(** [getTotalStake]: the bigint sum of the stakes, from [0n]. *)
Definition getTotalStake (m : NodeMap) : Z :=
  fold_left (fun total node => total + stake node) (JSMap.values m) 0.

Definition calculatePriority (m : NodeMap) (node : ConsensusNode) : number :=
  let stakeWeight := Finite 0.6 in
  let reputationWeight := Finite 0.4 in
  let normalizedStake :=
    (JSNumber.Number (stake node) / JSNumber.Number (getTotalStake m))%num in
  ((normalizedStake * stakeWeight) + (reputation node * reputationWeight))%num.

(** [Math.floor(now / 1000) % this.nodes.size] for the integral time value
    [now]: the floor of the quotient is [now / 1000] on [Z], [%] is the
    remainder that takes the sign of the dividend, and [x % 0] is NaN
    ([None]). *)
Definition slot_of (now : Z) (size : nat) : option Z :=
  match size with
  | O => None
  | _ => Some (Z.rem (now / 1000) (Z.of_nat size))
  end.

(** [sortedNodes] of [isProposer]. *)
Definition sortedNodes (m : NodeMap) : list ConsensusNode :=
  JSArray.sort
    (fun a b => (calculatePriority m b - calculatePriority m a)%num)
    (JSMap.values m).

(** [sortedNodes[slot]] of [isProposer]: the participant selected for the
    slot of time [now], or [undefined]. *)
Definition slotProposer (m : NodeMap) (now : Z) : option ConsensusNode :=
  JSArray.get (sortedNodes m) (slot_of now (JSMap.size m)).

(** [isProposer]: [sortedNodes[slot]?.id === this.mesh.getNodeId()]; the
    comparison of [undefined] with a string is false.  The method has no
    [throw]: every path returns. *)
Definition isProposer (e : ConsensusEngine) (mesh : NeuralMesh) (now : Z)
  : outcome bool :=
  Returns
    match slotProposer (nodes e) now with
    | Some node => String.eqb (id node) (getNodeId mesh)
    | None => false
    end.

(** ** Block assembly *)

Definition collectPendingTransactions : list Transaction := [].

(** [s || ''] for [s] a string or [undefined]. *)
Definition or_empty (s : option string) : string :=
  match s with
  | Some s' => if String.eqb s' "" then "" else s'
  | None => ""
  end.

(** [proposeBlock]: the block handed to [broadcastBlock], or the rejection
    of [computeStateRoot]. *)
Definition proposeBlock (e : ConsensusEngine) (mesh : NeuralMesh) (now : Z)
  : outcome ConsensusBlock :=
  let transactions := collectPendingTransactions in
  match computeStateRoot mesh with
  | Throws err => Throws err
  | Returns neuralStateRoot =>
      Returns
        {| height := (blockHeight e + Finite 1)%num;
           timestamp := now;
           previousHash := or_empty (option_map previousHash (currentBlock e));
           transactions := transactions;
           neuralStateRoot := neuralStateRoot;
           proposer := getNodeId mesh;
           signatures := [] |}
  end.

(** ** The epoch transition *)

Definition calculateNewWeight (node : ConsensusNode) (performance : number)
  : number :=
  let baseWeight := weight node in
  let performanceImpact := (performance - Finite 0.5)%num in
  let maxAdjustment := Finite 0.1 in
  JSNumber.Math_max (Finite 0)
    (JSNumber.Math_min (Finite 1)
       (baseWeight + (performanceImpact * maxAdjustment))%num).

Definition updateReputation (node : ConsensusNode) (alignment : number)
  : number :=
  let currentRep := reputation node in
  let maxChange := Finite 0.1 in
  let change := ((alignment - Finite 0.5) * maxChange)%num in
  JSNumber.Math_max (Finite 0)
    (JSNumber.Math_min (Finite 1) (currentRep + change)%num).

Section Epoch.
Variable ev : Evaluators.

(** The loop of [updateNodeWeights] over the entries still to visit: each
    node object is updated in place, and a rejected evaluation leaves the
    loop with the entries not yet visited untouched. *)
Fixpoint updateNodeWeights (m : NodeMap) : NodeMap * outcome unit :=
  match m with
  | [] => ([], Returns tt)
  | (k, node) :: rest =>
      match evaluateNodePerformance ev node with
      | Throws err => (m, Throws err)
      | Returns performance =>
          let node' := set_weight node (calculateNewWeight node performance) in
          let (rest', r) := updateNodeWeights rest in
          ((k, node') :: rest', r)
      end
  end.

(** The loop of [recalculateReputations], for the consensus view obtained
    before it. *)
Fixpoint recalculateReputations_loop (neuralConsensus : string) (m : NodeMap)
  : NodeMap * outcome unit :=
  match m with
  | [] => ([], Returns tt)
  | (k, node) :: rest =>
      match calculateNeuralAlignment ev node neuralConsensus with
      | Throws err => (m, Throws err)
      | Returns neuralAlignment =>
          let node' :=
            set_reputation node (updateReputation node neuralAlignment) in
          let (rest', r) := recalculateReputations_loop neuralConsensus rest in
          ((k, node') :: rest', r)
      end
  end.

Definition recalculateReputations (mesh : NeuralMesh) (m : NodeMap)
  : NodeMap * outcome unit :=
  match computeConsensus mesh with
  | Throws err => (m, Throws err)
  | Returns neuralConsensus => recalculateReputations_loop neuralConsensus m
  end.
End Epoch.

Definition maxInactivity : number := Finite (inject_Z (1000 * 60 * 60)).

(** The test of [pruneInactiveNodes]:
    [now - node.lastProposal > maxInactivity]. *)
Definition inactive (now : Z) (node : ConsensusNode) : bool :=
  ((JSNumber.Number now - lastProposal node) >? maxInactivity)%num.

(** [pruneInactiveNodes]: the loop over the entries of the map, deleting the
    entry being visited (which a Map iterator allows) and emitting
    [nodePruned] for it. *)
Definition pruneInactiveNodes (m : NodeMap) (now : Z) : NodeMap * list Event :=
  fold_left
    (fun (st : NodeMap * list Event) (entry : string * ConsensusNode) =>
       let (k, node) := entry in
       if inactive now node
       then (JSMap.delete k (fst st), (snd st ++ [nodePruned k])%list)
       else st)
    (JSMap.entries m) (m, []).

Record EpochResult : Type := {
  epoch_nodes : NodeMap;
  epoch_events : list Event;
  epoch_log : list LogEntry
}.

(** The body of the timer of [startEpochTransition], run at time [now]: the
    three steps in order inside one [try], whose [catch] logs the error. *)
Definition epochTransition (ev : Evaluators) (mesh : NeuralMesh)
  (m : NodeMap) (now : Z) : EpochResult :=
  let caught (m' : NodeMap) (err : string) :=
    {| epoch_nodes := m'; epoch_events := [];
       epoch_log := [log_error "Error in epoch transition" err] |} in
  match updateNodeWeights ev m with
  | (m1, Throws err) => caught m1 err
  | (m1, Returns _) =>
      match recalculateReputations ev mesh m1 with
      | (m2, Throws err) => caught m2 err
      | (m2, Returns _) =>
          let (m3, events) := pruneInactiveNodes m2 now in
          {| epoch_nodes := m3; epoch_events := events; epoch_log := [] |}
      end
  end.

(** ** Metrics *)

Definition calculateAverageReputation (m : NodeMap) : number :=
  let nodes := JSMap.values m in
  match nodes with
  | [] => Finite 0
  | _ =>
      (fold_left (fun sum node => sum + reputation node) nodes (Finite 0)
       / JSNumber.of_nat (List.length nodes))%num
  end.

Definition calculateConsensusHealth (m : NodeMap) : number :=
  let activeStake :=
    fold_left (fun sum node => sum + stake node)
      (filter (fun node => (reputation node >? Finite 0.5)%num)
         (JSMap.values m)) 0 in
  (JSNumber.Number activeStake / JSNumber.Number (getTotalStake m))%num.

Record Metrics : Type := {
  m_blockHeight : number;
  m_activeNodes : nat;
  m_averageReputation : number;
  m_consensusHealth : number
}.

Definition getMetrics (e : ConsensusEngine) : Metrics :=
  {| m_blockHeight := blockHeight e;
     m_activeNodes := JSMap.size (nodes e);
     m_averageReputation := calculateAverageReputation (nodes e);
     m_consensusHealth := calculateConsensusHealth (nodes e) |}.

(** ** The specification's side *)

(** The invariant of a participant record (data model of the
    specification): a non-negative stake, weight and reputation in [0,1]. *)
Definition Participant_inv (node : ConsensusNode) : Prop :=
  0 <= stake node /\
  JSNumber.in_unit_interval (weight node) /\
  JSNumber.in_unit_interval (reputation node).

(** The order the specification describes for proposer selection:
    descending priority, and among equal priorities ascending [id]. *)
Definition spec_precedes (m : NodeMap) (a b : ConsensusNode) : bool :=
  (calculatePriority m b <? calculatePriority m a)%num
  || (negb (calculatePriority m a <? calculatePriority m b)%num
      && String.ltb (id a) (id b)).

Definition spec_comparefn (m : NodeMap) (a b : ConsensusNode) : number :=
  if spec_precedes m a b then Finite (-1)
  else if spec_precedes m b a then Finite 1
  else Finite 0.

Definition spec_sortedNodes (m : NodeMap) : list ConsensusNode :=
  JSArray.sort (spec_comparefn m) (JSMap.values m).

Definition spec_slotProposer (m : NodeMap) (now : Z) : option ConsensusNode :=
  JSArray.get (spec_sortedNodes m) (slot_of now (JSMap.size m)).

(** An entry after the weight update of its node, and after the reputation
    update of its node for the consensus view [c]. *)
Definition weight_updated (ev : Evaluators)
  (old new : string * ConsensusNode) : Prop :=
  fst new = fst old /\
  exists performance,
    evaluateNodePerformance ev (snd old) = Returns performance /\
    snd new = set_weight (snd old) (calculateNewWeight (snd old) performance).

Definition reputation_updated (ev : Evaluators) (c : string)
  (old new : string * ConsensusNode) : Prop :=
  fst new = fst old /\
  exists alignment,
    calculateNeuralAlignment ev (snd old) c = Returns alignment /\
    snd new =
    set_reputation (snd old) (updateReputation (snd old) alignment).

(** ** Sample data *)

Definition sample_node (i : string) (s : Z) (w r last : number)
  : ConsensusNode :=
  {| id := i; weight := w; stake := s; reputation := r;
     lastProposal := last; neuralSignature := "" |}.

(** A participant in the middle of the range. *)
Definition node_mid : ConsensusNode :=
  sample_node "mid" 100 (Finite 0.5) (Finite 0.5) (Finite 0).

(** Two participants at time 4000000 ms: [node_recent] proposed 400 s ago,
    [node_stale] 4000 s ago. *)
Definition node_recent : ConsensusNode :=
  sample_node "recent" 10 (Finite 1) (Finite 1) (Finite 3600000).

Definition node_stale : ConsensusNode :=
  sample_node "stale" 10 (Finite 1) (Finite 1) (Finite 0).

Definition registry_recent_stale : NodeMap :=
  [("recent", node_recent); ("stale", node_stale)].

(** A mesh whose calls succeed. *)
Definition mesh_ok : NeuralMesh :=
  {| getNodeId := "self";
     computeStateRoot := Returns "root";
     computeConsensus := Returns "consensus" |}.

(** A freshly registered participant without stake. *)
Definition node_fresh : ConsensusNode :=
  sample_node "fresh" 0 (Finite 1) (Finite 1) (Finite 0).

Definition registry_fresh : NodeMap := [("fresh", node_fresh)].

(** Three participants without stake, registered in the order Z1, Z2, Z3;
    the one registered last has the highest reputation. *)
Definition node_z1 : ConsensusNode :=
  sample_node "Z1" 0 (Finite 1) (Finite 0.2) (Finite 0).

Definition node_z2 : ConsensusNode :=
  sample_node "Z2" 0 (Finite 1) (Finite 0.5) (Finite 0).

Definition node_z3 : ConsensusNode :=
  sample_node "Z3" 0 (Finite 1) (Finite 0.9) (Finite 0).

Definition registry_zero : NodeMap :=
  [("Z1", node_z1); ("Z2", node_z2); ("Z3", node_z3)].

(** The first block of a chain, and an engine whose last accepted block it
    is. *)
Definition block_one : ConsensusBlock :=
  {| height := Finite 1; timestamp := 1000; previousHash := "";
     transactions := []; neuralStateRoot := "root1"; proposer := "self";
     signatures := [("self", "sig")] |}.

Definition engine_after_block_one : ConsensusEngine :=
  {| nodes := []; currentBlock := Some block_one; blockHeight := Finite 1 |}.

(** Another first block, by another proposer over another state root. *)
Definition block_one_other : ConsensusBlock :=
  {| height := Finite 1; timestamp := 1000; previousHash := "";
     transactions := []; neuralStateRoot := "root2"; proposer := "other";
     signatures := [("other", "sig")] |}.

Definition engine_after_block_one_other : ConsensusEngine :=
  {| nodes := []; currentBlock := Some block_one_other;
     blockHeight := Finite 1 |}.

(** Evaluation methods that reject the performance evaluation of the
    participant [badPerformance] and the alignment evaluation of the
    participant [badAlignment], and give the score 1 otherwise. *)
Definition evaluators_failing_on (badPerformance badAlignment : string)
  : Evaluators :=
  {| evaluateNodePerformance := fun node =>
       if String.eqb (id node) badPerformance
       then Throws "EvaluationUnavailable"
       else Returns (Finite 1);
     calculateNeuralAlignment := fun node _ =>
       if String.eqb (id node) badAlignment
       then Throws "EvaluationUnavailable"
       else Returns (Finite 1) |}.

Definition node_a : ConsensusNode :=
  sample_node "a" 100 (Finite 0.5) (Finite 0.5) (Finite 0).

Definition node_b : ConsensusNode :=
  sample_node "b" 100 (Finite 0.5) (Finite 0.5) (Finite 0).

Definition registry_ab : NodeMap := [("a", node_a); ("b", node_b)].
Definition registry_ba : NodeMap := [("b", node_b); ("a", node_a)].

(** Three participants with stakes 100, 200, 300 and reputation 1. *)
Definition node_p1 : ConsensusNode :=
  sample_node "P1" 100 (Finite 1) (Finite 1) (Finite 0).

Definition node_p2 : ConsensusNode :=
  sample_node "P2" 200 (Finite 1) (Finite 1) (Finite 0).

Definition node_p3 : ConsensusNode :=
  sample_node "P3" 300 (Finite 1) (Finite 1) (Finite 0).

Definition registry_123 : NodeMap :=
  [("P1", node_p1); ("P2", node_p2); ("P3", node_p3)].

Definition registry_321 : NodeMap :=
  [("P3", node_p3); ("P2", node_p2); ("P1", node_p1)].

(** ** The constructor and repeated epochs *)

(** The two optional settings of the constructor's [options]. *)
Record EngineOptions : Type := {
  opt_minConsensusThreshold : option number;
  opt_epochDuration : option number
}.

Record EngineSettings : Type := {
  minConsensusThreshold : number;
  epochDuration : number
}.

(** [ToBoolean] of a number: false for NaN and for zero. *)
Definition truthy (a : number) : bool :=
  match a with
  | NaN => false
  | Finite q => negb (Qeq_bool q 0)
  | _ => true
  end.

(** [given || default] for an optional number. *)
Definition or_default (given : option number) (default : number) : number :=
  match given with
  | Some a => if truthy a then a else default
  | None => default
  end.

(** The constructor: the empty engine and its two settings. *)
Definition constructor (options : EngineOptions)
  : ConsensusEngine * EngineSettings :=
  (initialEngine,
   {| minConsensusThreshold :=
        or_default (opt_minConsensusThreshold options) (Finite 0.67);
      epochDuration :=
        or_default (opt_epochDuration options)
          (Finite (inject_Z (1000 * 60 * 5))) |}).

(** The registry after the epoch timer has fired at the times [nows], one
    after the other. *)
Definition run_epochs (ev : Evaluators) (mesh : NeuralMesh) (nows : list Z)
  (m : NodeMap) : NodeMap :=
  fold_left (fun m' now => epoch_nodes (epochTransition ev mesh m' now))
    nows m.

(** Two records of the same participant: everything but weight and
    reputation agrees. *)
Definition same_participant (old new : ConsensusNode) : Prop :=
  id new = id old /\ stake new = stake old /\
  lastProposal new = lastProposal old /\
  neuralSignature new = neuralSignature old.

(** An entry after both updates of a completed epoch, for the consensus
    view [c]. *)
Definition epoch_updated (ev : Evaluators) (c : string)
  (old new : string * ConsensusNode) : Prop :=
  fst new = fst old /\
  exists performance alignment,
    evaluateNodePerformance ev (snd old) = Returns performance /\
    calculateNeuralAlignment ev
      (set_weight (snd old) (calculateNewWeight (snd old) performance)) c
    = Returns alignment /\
    snd new =
    set_reputation
      (set_weight (snd old) (calculateNewWeight (snd old) performance))
      (updateReputation (snd old) alignment).

(** What one completed epoch does to a participant under the placeholder
    evaluation methods of the source, whose score is always [0.0]. *)
Definition placeholder_update (node : ConsensusNode) : ConsensusNode :=
  set_reputation
    (set_weight node (calculateNewWeight node (Finite 0)))
    (updateReputation node (Finite 0)).

(** Weight and reputation are finite and between 0 and [bound]. *)
Definition scores_at_most (bound : Q) (node : ConsensusNode) : Prop :=
  exists w r : Q,
    weight node = Finite w /\ reputation node = Finite r /\
    (0 <= w <= bound)%Q /\ (0 <= r <= bound)%Q.

(** Weight and reputation are in [0,1]. *)
Definition scores_in_unit_interval (node : ConsensusNode) : Prop :=
  JSNumber.in_unit_interval (weight node) /\
  JSNumber.in_unit_interval (reputation node).

(** ** The consensus tick *)

Record TickResult : Type := {
  tick_broadcast : list ConsensusBlock;
  tick_log : list LogEntry
}.

(** The body of the timer of [startConsensusLoop], run at time [now]: the
    proposer check, the proposal and the (empty) validation of pending
    blocks inside one [try], whose [catch] logs the error.
    [broadcastBlock], which [proposeBlock] awaits last, is not defined in
    the repository and is taken as a parameter; [tick_broadcast] lists the
    blocks handed to it. *)
Definition consensusTick (e : ConsensusEngine) (mesh : NeuralMesh)
  (broadcastBlock : ConsensusBlock -> outcome unit) (now : Z) : TickResult :=
  let caught (blocks : list ConsensusBlock) (err : string) :=
    {| tick_broadcast := blocks;
       tick_log := [log_error "Error in consensus loop" err] |} in
  match isProposer e mesh now with
  | Throws err => caught [] err
  | Returns false => {| tick_broadcast := []; tick_log := [] |}
  | Returns true =>
      match proposeBlock e mesh now with
      | Throws err => caught [] err
      | Returns block =>
          match broadcastBlock block with
          | Throws err => caught [block] err
          | Returns _ => {| tick_broadcast := [block]; tick_log := [] |}
          end
      end
  end.

(** ** The logger of [src/utils/Logger.ts] *)

Module Logger.

Inductive LogLevel : Type := L_debug | L_info | L_warn | L_error.

Definition LOG_LEVELS (l : LogLevel) : Z :=
  match l with
  | L_debug => 0
  | L_info => 1
  | L_warn => 2
  | L_error => 3
  end.

Definition esc : string := String (Ascii.ascii_of_nat 27) "".
Definition newline : string := String (Ascii.ascii_of_nat 10) "".

Definition COLORS (l : LogLevel) : string :=
  match l with
  | L_debug => (esc ++ "[36m")%string
  | L_info => (esc ++ "[32m")%string
  | L_warn => (esc ++ "[33m")%string
  | L_error => (esc ++ "[31m")%string
  end.

Definition COLORS_reset : string := (esc ++ "[0m")%string.

Definition toUpperCase (l : LogLevel) : string :=
  match l with
  | L_debug => "DEBUG"
  | L_info => "INFO"
  | L_warn => "WARN"
  | L_error => "ERROR"
  end.

Record t : Type := { level : LogLevel; context : string }.

(** [new Logger(level = 'info', context = 'Synapse')]. *)
Definition new (l : option LogLevel) (c : option string) : t :=
  {| level := match l with Some l' => l' | None => L_info end;
     context := match c with Some c' => c' | None => "Synapse" end |}.

Definition forModule (module : string) (l : option LogLevel) : t :=
  new (Some match l with Some l' => l' | None => L_info end) (Some module).

Definition shouldLog (lg : t) (l : LogLevel) : bool :=
  LOG_LEVELS l >=? LOG_LEVELS (level lg).

(** The text that [formatMessage] builds; [timestamp] is
    [new Date().toISOString()], and [meta] is the text
    [JSON.stringify(meta, null, 2)] of a truthy meta, [None] for a meta that
    is absent or falsy.  The serialisation itself, which can throw, is
    [serialise] below; [formatMessage_of] is the two together. *)
Definition formatMessage (lg : t) (timestamp : string) (l : LogLevel)
  (message : string) (meta : option string) : string :=
  let formattedMessage :=
    (COLORS l ++ "[" ++ timestamp ++ "] [" ++ context lg ++ "] ["
     ++ toUpperCase l ++ "] " ++ message ++ COLORS_reset)%string in
  match meta with
  | Some json => (formattedMessage ++ newline ++ json)%string
  | None => formattedMessage
  end.

Definition setLevel (lg : t) (l : LogLevel) : t :=
  {| level := l; context := context lg |}.

Definition setContext (lg : t) (c : string) : t :=
  {| level := level lg; context := c |}.

Definition createChild (lg : t) (c : string) : t :=
  new (Some (level lg)) (Some (context lg ++ ":" ++ c)%string).

(** The calls a logger makes on the console. *)
Inductive ConsoleCall : Type :=
| console_debug (text : string)
| console_info (text : string)
| console_warn (text : string)
| console_error (text : string)
| console_group (text : string)
| console_groupEnd
| console_time (label : string)
| console_timeEnd (label : string).

Record ErrorObject : Type := {
  err_name : string; err_message : string; err_stack : string
}.

Section WithMeta.
(** The values passed as [meta] ([any] in the source); [None] is
    [undefined]. *)
Variable Meta : Type.
(** [if (meta)]: whether a value is truthy. *)
Variable truthy_meta : Meta -> bool.
(** [JSON.stringify(meta, null, 2)] as it is appended to the message.  It
    throws a TypeError for a bigint and for a cyclic structure, and passes
    on what a [toJSON] method or a getter throws. *)
Variable JSON_stringify : Meta -> outcome string.
(** [{...meta, error: {name, message, stack}}]; reading the properties of
    [meta] can throw. *)
Variable spread_error : option Meta -> ErrorObject -> outcome Meta.

(** The meta as [formatMessage] appends it: nothing for a meta that is
    absent or falsy, the JSON text otherwise. *)
Definition serialise (meta : option Meta) : outcome (option string) :=
  match meta with
  | None => Returns None
  | Some v =>
      if truthy_meta v
      then match JSON_stringify v with
           | Returns json => Returns (Some json)
           | Throws e => Throws e
           end
      else Returns None
  end.

(** [formatMessage(level, message, meta)]. *)
Definition formatMessage_of (lg : t) (timestamp : string) (l : LogLevel)
  (message : string) (meta : option Meta) : outcome string :=
  match serialise meta with
  | Returns json => Returns (formatMessage lg timestamp l message json)
  | Throws e => Throws e
  end.

(** Each log method returns the console calls it made, and whether it
    returned or threw. *)
Definition debug (lg : t) (timestamp message : string) (meta : option Meta)
  : list ConsoleCall * outcome unit :=
  if shouldLog lg L_debug
  then
    match formatMessage_of lg timestamp L_debug message meta with
    | Returns text => ([console_debug text], Returns tt)
    | Throws e => ([], Throws e)
    end
  else ([], Returns tt).

Definition info (lg : t) (timestamp message : string) (meta : option Meta)
  : list ConsoleCall * outcome unit :=
  if shouldLog lg L_info
  then
    match formatMessage_of lg timestamp L_info message meta with
    | Returns text => ([console_info text], Returns tt)
    | Throws e => ([], Throws e)
    end
  else ([], Returns tt).

Definition warn (lg : t) (timestamp message : string) (meta : option Meta)
  : list ConsoleCall * outcome unit :=
  if shouldLog lg L_warn
  then
    match formatMessage_of lg timestamp L_warn message meta with
    | Returns text => ([console_warn text], Returns tt)
    | Throws e => ([], Throws e)
    end
  else ([], Returns tt).

(** [error ? {...meta, error: {...}} : meta]. *)
Definition errorMeta_of (err : option ErrorObject) (meta : option Meta)
  : outcome (option Meta) :=
  match err with
  | Some e =>
      match spread_error meta e with
      | Returns v => Returns (Some v)
      | Throws x => Throws x
      end
  | None => Returns meta
  end.

Definition error (lg : t) (timestamp message : string)
  (err : option ErrorObject) (meta : option Meta)
  : list ConsoleCall * outcome unit :=
  if shouldLog lg L_error
  then
    match errorMeta_of err meta with
    | Returns errorMeta =>
        match formatMessage_of lg timestamp L_error message errorMeta with
        | Returns text => ([console_error text], Returns tt)
        | Throws x => ([], Throws x)
        end
    | Throws x => ([], Throws x)
    end
  else ([], Returns tt).

(** One call of [debug], [info], [warn] or [error] (without error object),
    chosen by its level. *)
Definition log (lg : t) (l : LogLevel) (timestamp message : string)
  (meta : option Meta) : list ConsoleCall * outcome unit :=
  match l with
  | L_debug => debug lg timestamp message meta
  | L_info => info lg timestamp message meta
  | L_warn => warn lg timestamp message meta
  | L_error => error lg timestamp message None meta
  end.

(** A sequence of such calls, one statement after the other: a call that
    throws ends the sequence. *)
Fixpoint log_all (lg : t)
  (calls : list (LogLevel * string * string * option Meta))
  : list ConsoleCall * outcome unit :=
  match calls with
  | [] => ([], Returns tt)
  | (l, timestamp, message, meta) :: rest =>
      match log lg l timestamp message meta with
      | (out, Returns _) =>
          let (out', r) := log_all lg rest in (out ++ out', r)
      | (out, Throws e) => (out, Throws e)
      end
  end.
End WithMeta.

(** Metas to try the logger on: an object given by its JSON text, and a
    bigint, which [JSON.stringify] rejects; [0n] is falsy. *)
Inductive SampleMeta : Type :=
| meta_object (json : string)
| meta_bigint (n : Z).

Definition sample_truthy (v : SampleMeta) : bool :=
  match v with
  | meta_object _ => true
  | meta_bigint n => negb (n =? 0)%Z
  end.

Definition sample_stringify (v : SampleMeta) : outcome string :=
  match v with
  | meta_object json => Returns json
  | meta_bigint _ => Throws "TypeError: Do not know how to serialize a BigInt"
  end.

(** The spread of a sample meta keeps only the error (a bigint has no
    properties to copy). *)
Definition sample_spread (meta : option SampleMeta) (e : ErrorObject)
  : outcome SampleMeta :=
  Returns (meta_object (err_name e ++ ": " ++ err_message e)%string).

(** The level of the console method a call goes to. *)
Definition channel (c : ConsoleCall) : option LogLevel :=
  match c with
  | console_debug _ => Some L_debug
  | console_info _ => Some L_info
  | console_warn _ => Some L_warn
  | console_error _ => Some L_error
  | _ => None
  end.

(** The threshold test of level [l] on a console call of the four log
    methods. *)
Definition passes (l : LogLevel) (c : ConsoleCall) : bool :=
  match channel c with
  | Some l' => LOG_LEVELS l' >=? LOG_LEVELS l
  | None => false
  end.

Section Callbacks.
Context {W T : Type}.

(** [group(label, fn)]: the callback acts on the state [W] of the caller
    and may throw. *)
Definition group (lg : t) (timestamp label : string)
  (fn : W -> W * outcome unit) (w : W)
  : W * list ConsoleCall * outcome unit :=
  if shouldLog lg L_debug
  then
    let opened :=
      console_group (formatMessage lg timestamp L_debug label None) in
    match fn w with
    | (w', Returns _) => (w', [opened; console_groupEnd], Returns tt)
    | (w', Throws e) => (w', [opened], Throws e)
    end
  else (w, [], Returns tt).

(** [time(label, fn)]. *)
Definition time (lg : t) (label : string)
  (fn : W -> W * outcome T) (w : W) : W * list ConsoleCall * outcome T :=
  if negb (shouldLog lg L_debug)
  then let (w', r) := fn w in (w', [], r)
  else
    match fn w with
    | (w', Returns result) =>
        (w', [console_time label; console_timeEnd label], Returns result)
    | (w', Throws e) =>
        (w', [console_time label; console_timeEnd label], Throws e)
    end.
End Callbacks.

End Logger.

(** ** The arithmetic of the engine in binary64

    The definitions above compute with exact rationals.  Where a property
    depends on the rounding of the doubles the engine really computes with
    (the order of priorities, a bound as tight as the adjustment itself),
    the same functions are given here over IEEE-754 binary64, with the
    operations of the specification of floating-point arithmetic of the
    standard library (round to nearest, ties to even). *)

Module Binary64.
Import SpecFloat.

Definition prec : Z := 53.
Definition emax : Z := 1024.

Definition float : Type := spec_float.

Definition add : float -> float -> float := SFadd prec emax.
Definition sub : float -> float -> float := SFsub prec emax.
Definition mul : float -> float -> float := SFmul prec emax.
Definition div : float -> float -> float := SFdiv prec emax.

(** [a < b] and [a > b]; false as soon as one side is NaN. *)
Definition ltb : float -> float -> bool := SFltb.
Definition gtb (a b : float) : bool := SFltb b a.

(** [Number(b)] for a bigint [b]: the nearest double, Infinity from
    [2^1024 - 2^970] on. *)
Definition Number (b : Z) : float := binary_normalize prec emax b 0 false.

(** The literals of the engine. *)
Definition lit_0 : float := S754_zero false.
Definition lit_1 : float := S754_finite false 4503599627370496 (-52).
Definition lit_0_5 : float := S754_finite false 4503599627370496 (-53).
Definition lit_0_6 : float := S754_finite false 5404319552844595 (-53).
Definition lit_0_4 : float := S754_finite false 7205759403792794 (-54).
Definition lit_0_1 : float := S754_finite false 7205759403792794 (-56).

(** The rational a finite double stands for: [(-1)^s * m * 2^e]. *)
Definition value (x : float) : Q :=
  match x with
  | S754_finite s m e =>
      ((if s then - inject_Z (Zpos m) else inject_Z (Zpos m)) * 2 ^ e)%Q
  | _ => 0%Q
  end.

Definition is_finite (x : float) : bool :=
  match x with
  | S754_zero _ | S754_finite _ _ _ => true
  | _ => false
  end.

Definition is_nan (x : float) : bool :=
  match x with S754_nan => true | _ => false end.

(** A double as a number of the exact model (no rounding: every double is
    a rational, NaN or an infinity). *)
Definition to_number (x : float) : number :=
  match x with
  | S754_nan => NaN
  | S754_infinity s => if s then NegInfinity else PosInfinity
  | _ => Finite (value x)
  end.

(** A representation the format allows (53 bits at most, exponent in
    range): every JavaScript number is one. *)
Definition valid (x : float) : bool := valid_binary prec emax x.

(** The exponent of a finite representation is at least the least exponent
    of the format, -1074; every result of an operation has this. *)
Definition exponent_ok (x : float) : Prop :=
  match x with
  | S754_finite _ _ e => -1074 <= e
  | _ => True
  end.

(** The mantissa of a finite representation has at most 53 bits, and
    exactly 53 unless the exponent is the least one (a subnormal): with
    [exponent_ok], what [valid] asks of the mantissa. *)
Definition canonical (x : float) : Prop :=
  match x with
  | S754_finite _ m e => Zpos m < 2 ^ 53 /\ (-1074 < e -> 2 ^ 52 <= Zpos m)
  | _ => True
  end.

(** [Math.max] and [Math.min] of two arguments: NaN if either is NaN, and
    +0 counts as larger than -0. *)
Definition Math_max (a b : float) : float :=
  match a, b with
  | S754_nan, _ | _, S754_nan => S754_nan
  | S754_zero sa, S754_zero sb => S754_zero (sa && sb)
  | _, _ => if ltb a b then b else a
  end.

Definition Math_min (a b : float) : float :=
  match a, b with
  | S754_nan, _ | _, S754_nan => S754_nan
  | S754_zero sa, S754_zero sb => S754_zero (sa || sb)
  | _, _ => if ltb b a then b else a
  end.

Record ConsensusNode : Type := {
  id : string;
  weight : float;
  stake : Z;
  reputation : float;
  lastProposal : float;
  neuralSignature : string
}.

Definition NodeMap := JSMap.t ConsensusNode.

Definition getTotalStake (m : NodeMap) : Z :=
  fold_left (fun total node => total + stake node) (JSMap.values m) 0.

Definition calculatePriority (m : NodeMap) (node : ConsensusNode) : float :=
  let stakeWeight := lit_0_6 in
  let reputationWeight := lit_0_4 in
  let normalizedStake :=
    div (Number (stake node)) (Number (getTotalStake m)) in
  add (mul normalizedStake stakeWeight)
      (mul (reputation node) reputationWeight).

Definition sortedNodes (m : NodeMap) : list ConsensusNode :=
  JSArray.sort
    (fun a b => to_number (sub (calculatePriority m b) (calculatePriority m a)))
    (JSMap.values m).

Definition slotProposer (m : NodeMap) (now : Z) : option ConsensusNode :=
  JSArray.get (sortedNodes m) (slot_of now (JSMap.size m)).

Definition calculateNewWeight (node : ConsensusNode) (performance : float)
  : float :=
  let baseWeight := weight node in
  let performanceImpact := sub performance lit_0_5 in
  let maxAdjustment := lit_0_1 in
  Math_max lit_0
    (Math_min lit_1 (add baseWeight (mul performanceImpact maxAdjustment))).

Definition updateReputation (node : ConsensusNode) (alignment : float)
  : float :=
  let currentRep := reputation node in
  let maxChange := lit_0_1 in
  let change := mul (sub alignment lit_0_5) maxChange in
  Math_max lit_0 (Math_min lit_1 (add currentRep change)).

Definition sample_node (i : string) (s : Z) (w r : float) : ConsensusNode :=
  {| id := i; weight := w; stake := s; reputation := r;
     lastProposal := lit_0; neuralSignature := "" |}.

(** The double 0.9. *)
Definition lit_0_9 : float := S754_finite false 8106479329266893 (-53).

Definition node_w09 : ConsensusNode := sample_node "w09" 100 lit_0_9 lit_0_9.

(** Two participants whose priorities are both 0.4 in exact arithmetic:
    stake 2 of 3 with reputation 0, and stake 1 of 3 with reputation 0.5. *)
Definition node_two : ConsensusNode := sample_node "two" 2 lit_1 lit_0.
Definition node_one : ConsensusNode := sample_node "one" 1 lit_1 lit_0_5.
Definition registry_two_one : NodeMap :=
  [("two", node_two); ("one", node_one)].

(** Three participants with stakes 100, 200, 300 and reputation 1. *)
Definition node_p1 : ConsensusNode := sample_node "P1" 100 lit_1 lit_1.
Definition node_p2 : ConsensusNode := sample_node "P2" 200 lit_1 lit_1.
Definition node_p3 : ConsensusNode := sample_node "P3" 300 lit_1 lit_1.
Definition registry_123 : NodeMap :=
  [("P1", node_p1); ("P2", node_p2); ("P3", node_p3)].
Definition registry_321 : NodeMap :=
  [("P3", node_p3); ("P2", node_p2); ("P1", node_p1)].

(** Two participants with the same stake and the same reputation, in both
    insertion orders. *)
Definition node_a : ConsensusNode := sample_node "a" 100 lit_0_5 lit_0_5.
Definition node_b : ConsensusNode := sample_node "b" 100 lit_0_5 lit_0_5.
Definition registry_ab : NodeMap := [("a", node_a); ("b", node_b)].
Definition registry_ba : NodeMap := [("b", node_b); ("a", node_a)].

End Binary64.

(* ================================================================== *)
(** * Part II: properties                                               *)
(* ================================================================== *)

(** ** Facts about numbers *)

Module JSNumberFacts.
Import JSNumber.

Lemma le_Finite (x y : Q) : le (Finite x) (Finite y) <-> (x <= y)%Q.
Proof. unfold le; simpl. apply Qle_bool_iff. Qed.

Lemma ltb_Finite_true (x y : Q) :
  ltb (Finite x) (Finite y) = true <-> (x < y)%Q.
Proof.
  simpl. rewrite negb_true_iff. split; intro H.
  - apply Qnot_le_lt. intro Hle. apply Qle_bool_iff in Hle. congruence.
  - destruct (Qle_bool y x) eqn:E; [|reflexivity].
    apply Qle_bool_iff in E. exfalso. apply (Qlt_not_le _ _ H E).
Qed.

Lemma ltb_Finite_false (x y : Q) :
  ltb (Finite x) (Finite y) = false <-> (y <= x)%Q.
Proof.
  simpl. rewrite negb_false_iff. apply Qle_bool_iff.
Qed.

Lemma in_unit_interval_Finite (a : number) :
  in_unit_interval a <-> exists q, a = Finite q /\ (0 <= q <= 1)%Q.
Proof.
  unfold in_unit_interval. split.
  - intros [H0 H1]. destruct a; try discriminate H0; try discriminate H1.
    exists q. split; [reflexivity|]. split; apply le_Finite; assumption.
  - intros (q & -> & H0 & H1). split; apply le_Finite; assumption.
Qed.

Lemma not_in_unit_interval_NaN : ~ in_unit_interval NaN.
Proof. intros [H _]. discriminate H. Qed.

(** The clamp [Math.max(0, Math.min(1, x))] on a finite [x]. *)
Lemma clamp_Finite (x : Q) :
  exists y,
    Math_max (Finite 0) (Math_min (Finite 1) (Finite x)) = Finite y /\
    (((0 <= x <= 1)%Q /\ y = x) \/
     ((x <= 0)%Q /\ y = 0%Q) \/
     ((1 <= x)%Q /\ y = 1%Q)).
Proof.
  unfold Math_min.
  destruct (ltb (Finite x) (Finite 1)) eqn:E1.
  - apply ltb_Finite_true in E1. unfold Math_max.
    destruct (ltb (Finite 0) (Finite x)) eqn:E0.
    + apply ltb_Finite_true in E0. exists x. split; [reflexivity|].
      left. split; [split; apply Qlt_le_weak; assumption | reflexivity].
    + apply ltb_Finite_false in E0. exists 0%Q. split; [reflexivity|].
      right; left. split; [assumption | reflexivity].
  - apply ltb_Finite_false in E1. exists 1%Q. split; [reflexivity|].
    right; right. split; [assumption | reflexivity].
Qed.

(** The clamp never leaves [0,1] on an argument that is not NaN. *)
Lemma clamp_in_unit_interval (a : number) :
  isNaN a = false ->
  in_unit_interval (Math_max (Finite 0) (Math_min (Finite 1) a)).
Proof.
  intro Hn. destruct a as [| |x|]; try discriminate Hn.
  - split; reflexivity.
  - destruct (clamp_Finite x) as (y & -> & Hy).
    apply in_unit_interval_Finite. exists y. split; [reflexivity|].
    destruct Hy as [[Hx ->] | [[Hx ->] | [Hx ->]]]; lra.
  - split; reflexivity.
Qed.

(** The clamp propagates NaN. *)
Lemma clamp_NaN : Math_max (Finite 0) (Math_min (Finite 1) NaN) = NaN.
Proof. reflexivity. Qed.

(** [base + (score - 0.5) * 0.1] is NaN only if [score] is, for a finite
    [base]. *)
Lemma adjusted_not_NaN (base score : number) :
  isFinite base = true -> isNaN score = false ->
  isNaN (base + ((score - Finite 0.5) * Finite 0.1))%num = false.
Proof.
  intros Hb Hs.
  destruct base; try discriminate Hb.
  destruct score; try discriminate Hs; reflexivity.
Qed.

(** The drift of one clamped adjustment, for a base and a score in [0,1]. *)
Lemma clamped_adjustment_drift (base score : number) (bound : Q) :
  in_unit_interval base -> in_unit_interval score ->
  (0.05 <= bound)%Q ->
  le (Math_abs
        (Math_max (Finite 0)
           (Math_min (Finite 1)
              (base + ((score - Finite 0.5) * Finite 0.1))%num) - base)%num)
     (Finite bound).
Proof.
  intros Hb Hs Hbound.
  apply in_unit_interval_Finite in Hb. destruct Hb as (w & -> & Hw).
  apply in_unit_interval_Finite in Hs. destruct Hs as (p & -> & Hp).
  change (Finite w + ((Finite p - Finite 0.5) * Finite 0.1))%num
    with (Finite (w + (p + - 0.5) * 0.1)).
  destruct (clamp_Finite (w + (p + - 0.5) * 0.1)) as (y & -> & Hy).
  change (Math_abs (Finite y - Finite w)%num) with (Finite (Qabs (y + - w))).
  apply le_Finite. apply Qabs_Qle_condition.
  destruct Hy as [[Hx ->] | [[Hx ->] | [Hx ->]]]; lra.
Qed.

End JSNumberFacts.

(** ** The bounded update of weight and reputation *)

Import JSNumber JSNumberFacts.

(** C5.  Bounded drift: for a participant (weight and reputation in [0,1],
    as the data model requires) and a performance and an alignment score in
    [0,1], one epoch update moves the weight by at most 0.1 and the
    reputation by at most 0.1. *)
Theorem bounded_drift (node : ConsensusNode) (performance alignment : number) :
  Participant_inv node ->
  in_unit_interval performance ->
  in_unit_interval alignment ->
  le (Math_abs (calculateNewWeight node performance - weight node)%num)
     (Finite 0.1) /\
  le (Math_abs (updateReputation node alignment - reputation node)%num)
     (Finite 0.1).
Proof.
  intros (_ & Hw & Hr) Hp Ha. unfold calculateNewWeight, updateReputation.
  split; apply clamped_adjustment_drift; auto; lra.
Qed.

Lemma bounded_drift_witness :
  Participant_inv node_mid /\
  in_unit_interval (Finite 1) /\
  in_unit_interval (Finite 0) /\
  le (Math_abs (calculateNewWeight node_mid (Finite 1) - weight node_mid)%num)
     (Finite 0.1) /\
  le (Math_abs (updateReputation node_mid (Finite 0) - reputation node_mid)%num)
     (Finite 0.1).
Proof.
  assert (Hinv : Participant_inv node_mid).
  { repeat split; simpl; try lia; reflexivity. }
  assert (H1 : in_unit_interval (Finite 1)) by (split; reflexivity).
  assert (H0 : in_unit_interval (Finite 0)) by (split; reflexivity).
  split; [exact Hinv|]. split; [exact H1|]. split; [exact H0|].
  exact (bounded_drift node_mid (Finite 1) (Finite 0) Hinv H1 H0).
Defined.

(** Over the rationals the adjustment of a score of 1 is 0.05 exactly: a
    performance of 1 moves the weight 0.5 to 0.55.  (In binary64 the sum is
    rounded; see [drift_exceeds_half_of_max].) *)
Example drift_half_reached :
  same (calculateNewWeight node_mid (Finite 1) - weight node_mid)%num
       (Finite 0.05).
Proof. reflexivity. Qed.

(** C6, as stated, fails: a NaN score passes through the clamp, so weight
    and reputation leave [0,1] although both were inside before. *)
Lemma clamping_fails_on_NaN :
  in_unit_interval (weight node_mid) /\
  in_unit_interval (reputation node_mid) /\
  calculateNewWeight node_mid NaN = NaN /\
  updateReputation node_mid NaN = NaN /\
  ~ in_unit_interval (calculateNewWeight node_mid NaN) /\
  ~ in_unit_interval (updateReputation node_mid NaN).
Proof.
  repeat split; try reflexivity; intros [H _]; discriminate H.
Qed.

(** C6, amended.  For a participant whose weight and reputation are in
    [0,1] and for every performance and alignment score that is not NaN (in
    range, out of range or infinite), the updated weight and the updated
    reputation are in [0,1]. *)
Theorem clamping_invariant (node : ConsensusNode)
  (performance alignment : number) :
  in_unit_interval (weight node) ->
  in_unit_interval (reputation node) ->
  isNaN performance = false ->
  isNaN alignment = false ->
  in_unit_interval (calculateNewWeight node performance) /\
  in_unit_interval (updateReputation node alignment).
Proof.
  intros Hw Hr Hp Ha. unfold calculateNewWeight, updateReputation.
  apply in_unit_interval_Finite in Hw. destruct Hw as (w & Ew & _).
  apply in_unit_interval_Finite in Hr. destruct Hr as (r & Er & _).
  split; apply clamp_in_unit_interval; apply adjusted_not_NaN;
    solve [assumption | rewrite Ew; reflexivity | rewrite Er; reflexivity].
Qed.

Lemma clamping_invariant_witness :
  in_unit_interval (weight node_mid) /\
  in_unit_interval (reputation node_mid) /\
  isNaN PosInfinity = false /\
  isNaN (Finite (-7)) = false /\
  in_unit_interval (calculateNewWeight node_mid PosInfinity) /\
  in_unit_interval (updateReputation node_mid (Finite (-7))).
Proof.
  assert (Hw : in_unit_interval (weight node_mid)) by (split; reflexivity).
  assert (Hr : in_unit_interval (reputation node_mid)) by (split; reflexivity).
  split; [exact Hw|]. split; [exact Hr|].
  split; [reflexivity|]. split; [reflexivity|].
  exact (clamping_invariant node_mid PosInfinity (Finite (-7)) Hw Hr
           eq_refl eq_refl).
Defined.

(** ** Pruning *)

Module PruneFacts.

Lemma get_delete (V : Type) (k k' : string) (m : JSMap.t V) :
  JSMap.get k (JSMap.delete k' m) =
  if String.eqb k k' then None else JSMap.get k m.
Proof.
  induction m as [|[k0 v] m IH]; simpl.
  - destruct (String.eqb k k'); reflexivity.
  - destruct (String.eqb k' k0) eqn:E0; simpl.
    + apply String.eqb_eq in E0. subst k0. rewrite IH.
      destruct (String.eqb k k'); reflexivity.
    + rewrite IH. destruct (String.eqb k k0) eqn:E1; [|reflexivity].
      apply String.eqb_eq in E1. subst k0.
      rewrite String.eqb_sym, E0. reflexivity.
Qed.

(** The map after the loop over the entries [l], started with the map
    [acc]: a key is gone as soon as one visited entry with this key is
    inactive. *)
Lemma get_prune_loop (now : Z) (k : string) (l : list (string * ConsensusNode)) :
  forall (acc : NodeMap) (evs : list Event),
    JSMap.get k
      (fst (fold_left
              (fun (st : NodeMap * list Event) (entry : string * ConsensusNode) =>
                 let (k', node) := entry in
                 if inactive now node
                 then (JSMap.delete k' (fst st), (snd st ++ [nodePruned k'])%list)
                 else st)
              l (acc, evs))) =
    if existsb (fun e => String.eqb k (fst e) && inactive now (snd e)) l
    then None else JSMap.get k acc.
Proof.
  induction l as [|[k' node] l IH]; intros acc evs; simpl; [reflexivity|].
  destruct (inactive now node) eqn:E; simpl.
  - rewrite IH, get_delete. rewrite andb_true_r.
    destruct (String.eqb k k'); simpl; [|reflexivity].
    destruct (existsb _ l); reflexivity.
  - rewrite IH. rewrite andb_false_r. reflexivity.
Qed.

Lemma get_In_keys (V : Type) (k : string) (v : V) (m : JSMap.t V) :
  JSMap.get k m = Some v -> In k (JSMap.keys m).
Proof.
  induction m as [|[k0 v0] m IH]; simpl; [discriminate|].
  destruct (String.eqb k k0) eqn:E.
  - apply String.eqb_eq in E. auto.
  - auto.
Qed.

(** In a map, the only entry under a key is the one [get] returns. *)
Lemma existsb_key (V : Type) (f : V -> bool) (k : string) (v : V)
  (m : JSMap.t V) :
  JSMap.wf m -> JSMap.get k m = Some v ->
  existsb (fun e => String.eqb k (fst e) && f (snd e)) m = f v.
Proof.
  unfold JSMap.wf. induction m as [|[k0 v0] m IH]; simpl; [discriminate|].
  intros Hnd Hget. inversion Hnd as [|? ? Hnotin Hnd']; subst.
  destruct (String.eqb k k0) eqn:E; simpl.
  - apply String.eqb_eq in E. subst k0. injection Hget as ->.
    destruct (f v); [reflexivity|]. simpl.
    apply not_true_is_false. intro Hex. apply existsb_exists in Hex.
    destruct Hex as ([k1 v1] & Hin & Hk). simpl in Hk.
    apply andb_prop in Hk. destruct Hk as [Hk _].
    apply String.eqb_eq in Hk. subst k1.
    apply Hnotin. apply (in_map fst) in Hin. exact Hin.
  - apply IH; assumption.
Qed.

Lemma get_pruneInactiveNodes (m : NodeMap) (now : Z) (k : string)
  (node : ConsensusNode) :
  Map_wf m -> JSMap.get k m = Some node ->
  JSMap.get k (fst (pruneInactiveNodes m now)) =
  if inactive now node then None else Some node.
Proof.
  intros Hwf Hget. unfold pruneInactiveNodes, JSMap.entries.
  rewrite get_prune_loop.
  rewrite (existsb_key _ (inactive now) k node m Hwf Hget).
  rewrite Hget. reflexivity.
Qed.

Lemma le_not_gtb (a b : number) : JSNumber.le a b -> JSNumber.gtb a b = false.
Proof.
  unfold JSNumber.le, JSNumber.gtb.
  destruct a, b; simpl; try discriminate; try reflexivity.
  intro H. rewrite H. reflexivity.
Qed.

Lemma wf_registry_recent_stale : Map_wf registry_recent_stale.
Proof.
  unfold Map_wf, JSMap.wf. simpl.
  repeat constructor; simpl; intuition discriminate.
Defined.

End PruneFacts.

(** C7.  Pruning correctness: after the pruning step run at time [now], a
    participant of the registry with [now - lastProposal > maxInactivity]
    (3600000 ms) is absent, and one with
    [now - lastProposal <= maxInactivity] is present with the record it had. *)
Theorem pruning_correct (m : NodeMap) (now : Z) (k : string)
  (node : ConsensusNode) :
  Map_wf m ->
  JSMap.get k m = Some node ->
  (gt (Number now - lastProposal node)%num (Finite 3600000) ->
   JSMap.get k (fst (pruneInactiveNodes m now)) = None) /\
  (le (Number now - lastProposal node)%num (Finite 3600000) ->
   JSMap.get k (fst (pruneInactiveNodes m now)) = Some node).
Proof.
  intros Hwf Hget.
  rewrite (PruneFacts.get_pruneInactiveNodes m now k node Hwf Hget).
  unfold inactive, maxInactivity.
  change (inject_Z (1000 * 60 * 60)) with 3600000%Q.
  split; intro H.
  - unfold gt in H. rewrite H. reflexivity.
  - rewrite (PruneFacts.le_not_gtb _ _ H). reflexivity.
Qed.

Lemma pruning_correct_witness :
  Map_wf registry_recent_stale /\
  JSMap.get "stale" registry_recent_stale = Some node_stale /\
  gt (Number 4000000 - lastProposal node_stale)%num (Finite 3600000) /\
  JSMap.get "stale" (fst (pruneInactiveNodes registry_recent_stale 4000000))
  = None.
Proof.
  split; [exact PruneFacts.wf_registry_recent_stale|].
  split; [reflexivity|]. split; [reflexivity|].
  exact (proj1 (pruning_correct registry_recent_stale 4000000 "stale"
                  node_stale PruneFacts.wf_registry_recent_stale eq_refl)
           eq_refl).
Defined.

(** The retained participant of the same registry, and the notification. *)
Example pruning_sample :
  pruneInactiveNodes registry_recent_stale 4000000
  = ([("recent", node_recent)], [nodePruned "stale"]).
Proof. reflexivity. Qed.

(** ** Stake sums and the divisions by the total stake *)

Module StakeFacts.

Lemma fold_stake_shift (l : list ConsensusNode) (a : Z) :
  fold_left (fun total node => total + stake node) l a
  = a + fold_left (fun total node => total + stake node) l 0.
Proof.
  revert a. induction l as [|n l IH]; intro a; simpl; [lia|].
  rewrite IH. rewrite (IH (stake n)). lia.
Qed.

Lemma fold_stake_nonneg (l : list ConsensusNode) :
  Forall (fun n => 0 <= stake n) l ->
  0 <= fold_left (fun total node => total + stake node) l 0.
Proof.
  induction 1 as [|n l Hn Hl IH]; simpl; [lia|].
  rewrite fold_stake_shift. lia.
Qed.

(** Non-negative stakes that sum to zero are all zero. *)
Lemma zero_total_all_zero (l : list ConsensusNode) :
  Forall (fun n => 0 <= stake n) l ->
  fold_left (fun total node => total + stake node) l 0 = 0 ->
  Forall (fun n => stake n = 0) l.
Proof.
  induction 1 as [|n l Hn Hl IH]; simpl; intro Hsum; [constructor|].
  rewrite fold_stake_shift in Hsum.
  pose proof (fold_stake_nonneg l Hl) as Hge.
  constructor; [lia|]. apply IH. lia.
Qed.

Lemma fold_stake_all_zero (l : list ConsensusNode) :
  Forall (fun n => stake n = 0) l ->
  fold_left (fun total node => total + stake node) l 0 = 0.
Proof.
  induction 1 as [|n l Hn Hl IH]; simpl; [reflexivity|].
  rewrite Hn. exact IH.
Qed.

(** With a total stake of zero, the priority of a participant without stake
    is NaN whatever its reputation. *)
Lemma calculatePriority_zero_total (m : NodeMap) (node : ConsensusNode) :
  getTotalStake m = 0 -> stake node = 0 ->
  calculatePriority m node = NaN.
Proof.
  intros Ht Hs. unfold calculatePriority. rewrite Ht, Hs. simpl.
  destruct (reputation node * Finite 0.4)%num; reflexivity.
Qed.

(** With a total stake of zero (stakes being non-negative), the consensus
    health is NaN. *)
Lemma calculateConsensusHealth_zero_total (m : NodeMap) :
  Forall (fun n => 0 <= stake n) (JSMap.values m) ->
  getTotalStake m = 0 ->
  calculateConsensusHealth m = NaN.
Proof.
  intros Hnn Ht. unfold calculateConsensusHealth. rewrite Ht.
  pose proof (zero_total_all_zero _ Hnn Ht) as Hz.
  rewrite fold_stake_all_zero; [reflexivity|].
  apply Forall_forall. intros n Hin. apply filter_In in Hin.
  destruct Hin as [Hin _]. rewrite Forall_forall in Hz. auto.
Qed.


End StakeFacts.

(** C2.  With a total stake of zero the engine does not reduce the priority
    to [0.4 * reputation]: for the freshly registered participant without
    stake (reputation 1) it computes NaN, where the claim gives 0.4.  The
    division does not raise, and the participant is still selected. *)
Theorem zero_total_stake_priority_is_NaN :
  getTotalStake registry_fresh = 0 /\
  calculatePriority registry_fresh node_fresh = NaN /\
  ~ same (calculatePriority registry_fresh node_fresh)
         (Finite 0.4 * reputation node_fresh)%num /\
  slotProposer registry_fresh 0 = Some node_fresh.
Proof.
  repeat split; try reflexivity. intro H. exact H.
Qed.

(** C8.  On the registry a new engine starts with (total stake zero) the
    consensus health is NaN, not 0, while the average reputation next to it
    in [getMetrics] is 0 by its guard. *)
Theorem consensusHealth_of_empty_registry_is_NaN :
  getTotalStake (nodes initialEngine) = 0 /\
  m_consensusHealth (getMetrics initialEngine) = NaN /\
  m_averageReputation (getMetrics initialEngine) = Finite 0.
Proof. repeat split. Qed.

(** ** Block assembly *)

Lemma or_empty_Some (s : string) : or_empty (Some s) = s.
Proof.
  unfold or_empty. destruct (String.eqb s "") eqn:E; [|reflexivity].
  apply String.eqb_eq in E. congruence.
Qed.

(** What [proposeBlock] assembles when there is a last accepted block [b]:
    its height is one more than the counter [blockHeight], its signatures
    are empty, and its [previousHash] is the [previousHash] field of [b]. *)
Lemma proposeBlock_assembles (e : ConsensusEngine) (mesh : NeuralMesh)
  (now : Z) (b : ConsensusBlock) (root : string) :
  currentBlock e = Some b ->
  computeStateRoot mesh = Returns root ->
  exists blk,
    proposeBlock e mesh now = Returns blk /\
    height blk = (blockHeight e + Finite 1)%num /\
    previousHash blk = previousHash b /\
    signatures blk = [].
Proof.
  intros Hb Hroot. unfold proposeBlock. rewrite Hroot, Hb.
  eexists. split; [reflexivity|].
  cbn [height previousHash signatures option_map].
  rewrite or_empty_Some. repeat split.
Qed.

(** C3.  With the first block of a chain as last accepted block, the block
    assembled next has height 2 and no signatures, but its [previousHash] is
    the empty [previousHash] of that first block, the mark of a block without
    predecessor, not a reference to the first block: after a different first
    block the assembled [previousHash] is the same. *)
Theorem proposeBlock_copies_previousHash :
  exists blk blk',
    proposeBlock engine_after_block_one mesh_ok 2000 = Returns blk /\
    proposeBlock engine_after_block_one_other mesh_ok 2000 = Returns blk' /\
    height blk = Finite (1 + 1) /\
    signatures blk = [] /\
    previousHash blk = previousHash block_one /\
    previousHash blk = "" /\
    block_one <> block_one_other /\
    previousHash blk' = previousHash blk.
Proof.
  do 2 eexists. split; [reflexivity|]. split; [reflexivity|].
  repeat split. discriminate.
Qed.

(** ** The empty registry *)

(** C4, as stated, fails: on the empty registry of a new engine the check
    returns [false]; it raises no error. *)
Lemma empty_registry_raises_nothing :
  JSMap.size (nodes initialEngine) = 0%nat /\
  isProposer initialEngine mesh_ok 5000 = Returns false /\
  isProposer initialEngine mesh_ok 5000 <> Throws "NoEligibleProposers".
Proof. repeat split. discriminate. Qed.

(** C4, amended.  When the registry has no participant, for every time (and
    so every slot) the slot index is NaN, no participant is selected, and
    [isProposer] returns [false] without raising. *)
Theorem empty_registry_selects_nobody (e : ConsensusEngine)
  (mesh : NeuralMesh) (now : Z) :
  JSMap.size (nodes e) = 0%nat ->
  slot_of now (JSMap.size (nodes e)) = None /\
  slotProposer (nodes e) now = None /\
  isProposer e mesh now = Returns false.
Proof.
  intro Hsize. unfold isProposer, slotProposer. rewrite Hsize. simpl.
  repeat split.
Qed.

Lemma empty_registry_selects_nobody_witness :
  JSMap.size (nodes initialEngine) = 0%nat /\
  slot_of 5000 (JSMap.size (nodes initialEngine)) = None /\
  slotProposer (nodes initialEngine) 5000 = None /\
  isProposer initialEngine mesh_ok 5000 = Returns false.
Proof.
  split; [reflexivity|].
  exact (empty_registry_selects_nobody initialEngine mesh_ok 5000 eq_refl).
Defined.

(** ** Failures during the epoch transition *)

Module EpochFacts.
Section Loops.
Variable ev : Evaluators.


(** The weight loop completes when every evaluation returns. *)
Lemma updateNodeWeights_completes (m : NodeMap) :
  Forall (fun e => exists p, evaluateNodePerformance ev (snd e) = Returns p)
    m ->
  exists m',
    updateNodeWeights ev m = (m', Returns tt) /\
    Forall2 (weight_updated ev) m m'.
Proof.
  induction 1 as [|[k0 n0] m [p Hp] _ (m' & Hrun & Hall)].
  - exists []. split; [reflexivity | constructor].
  - exists ((k0, set_weight n0 (calculateNewWeight n0 p)) :: m').
    simpl. simpl in Hp. rewrite Hp, Hrun. split; [reflexivity|].
    constructor; [|exact Hall].
    split; [reflexivity|]. exists p. split; [exact Hp | reflexivity].
Qed.


End Loops.

(** With the placeholder bodies of the source no evaluation rejects, and
    the weight loop visits every participant. *)
Lemma source_weight_loop_completes (m : NodeMap) :
  exists m',
    updateNodeWeights sourceEvaluators m = (m', Returns tt) /\
    Forall2 (weight_updated sourceEvaluators) m m'.
Proof.
  apply updateNodeWeights_completes.
  apply Forall_forall. intros e _. exists (Finite 0). reflexivity.
Qed.

End EpochFacts.




(** ** The stable sort *)

Module JSArrayFacts.
Import JSArray.

Section Perm.
Context {A : Type}.
Variable comparefn : A -> A -> number.

Lemma insert_perm (x : A) (l : list A) :
  Permutation (insert comparefn x l) (x :: l).
Proof.
  induction l as [|y l IH]; simpl; [apply Permutation_refl|].
  destruct (sorts_after comparefn x y).
  - apply Permutation_trans with (y :: x :: l).
    + apply perm_skip. exact IH.
    + apply perm_swap.
  - apply Permutation_refl.
Qed.

Lemma sort_perm (l : list A) : Permutation (sort comparefn l) l.
Proof.
  induction l as [|x l IH]; simpl; [apply perm_nil|].
  apply Permutation_trans with (x :: sort comparefn l).
  - apply insert_perm.
  - apply perm_skip. exact IH.
Qed.

Lemma sort_length (l : list A) :
  List.length (sort comparefn l) = List.length l.
Proof. apply Permutation_length. apply sort_perm. Qed.

(** A compare function that gives no positive number on the elements of
    the array (as one whose results are all NaN) leaves the array as it
    is. *)
Lemma sort_no_positive (l : list A) :
  (forall x y, In x l -> In y l -> sorts_after comparefn x y = false) ->
  sort comparefn l = l.
Proof.
  induction l as [|x l IH]; intro Hno; simpl; [reflexivity|].
  rewrite IH by (intros a b Ha Hb; apply Hno; right; assumption).
  destruct l as [|y l]; simpl; [reflexivity|].
  rewrite Hno; [reflexivity | left; reflexivity | right; left; reflexivity].
Qed.
End Perm.

Lemma sort_ext (A : Type) (f g : A -> A -> number) (l : list A) :
  (forall a b, f a b = g a b) -> sort f l = sort g l.
Proof.
  intro Hfg. induction l as [|x l IH]; simpl; [reflexivity|].
  rewrite IH. generalize (sort g l) as s.
  induction s as [|y s IHs]; simpl; [reflexivity|].
  unfold sorts_after. rewrite Hfg, IHs. reflexivity.
Qed.

(** The sort under a compare function that orders the elements satisfying
    [P] by descending [rank]. *)
Section Ranked.
Context {A : Type}.
Variable comparefn : A -> A -> number.
Variable rank : A -> Q.
Variable P : A -> Prop.
Hypothesis comparefn_rank :
  forall x y, P x -> P y ->
    (sorts_after comparefn x y = true <-> (rank x < rank y)%Q).


Lemma insert_sorted (x : A) (l : list A) :
  P x -> Forall P l ->
  StronglySorted (fun a b => (rank b <= rank a)%Q) l ->
  StronglySorted (fun a b => (rank b <= rank a)%Q) (insert comparefn x l).
Proof.
  intros Hx HP Hs. induction Hs as [|y l Hs IH Hy]; simpl.
  - repeat constructor.
  - inversion HP as [|? ? HPy HPl]; subst.
    destruct (sorts_after comparefn x y) eqn:E.
    + apply comparefn_rank in E; [|assumption|assumption].
      constructor; [apply IH; assumption|].
      apply (Permutation_Forall (Permutation_sym (insert_perm comparefn x l))).
      constructor; [|exact Hy].
      apply Qlt_le_weak. exact E.
    + assert (Hyx : (rank y <= rank x)%Q).
      { apply Qnot_lt_le. intro Hlt.
        apply comparefn_rank in Hlt; [|assumption|assumption]. congruence. }
      constructor; [constructor; assumption|].
      constructor; [exact Hyx|].
      eapply Forall_impl; [|exact Hy].
      intros z Hz. cbv beta in *. eapply Qle_trans; eassumption.
Qed.

Lemma sort_sorted (l : list A) :
  Forall P l -> StronglySorted (fun a b => (rank b <= rank a)%Q) (sort comparefn l).
Proof.
  induction 1 as [|x l Hx Hl IH]; simpl; [constructor|].
  apply insert_sorted; [exact Hx| |exact IH].
  apply (Permutation_Forall (Permutation_sym (sort_perm comparefn l))).
  exact Hl.
Qed.

(** Stability: the elements of one rank keep their order. *)
Lemma insert_stable (q : Q) (x : A) (l : list A) :
  P x -> Forall P l ->
  filter (fun a => Qeq_bool (rank a) q) (insert comparefn x l)
  = filter (fun a => Qeq_bool (rank a) q) (x :: l).
Proof.
  intros Hx HP. induction HP as [|y l Hy Hl IH]; [reflexivity|].
  cbn [insert]. destruct (sorts_after comparefn x y) eqn:E; [|reflexivity].
  apply comparefn_rank in E; [|assumption|assumption].
  cbn [filter] in *. rewrite IH.
  destruct (Qeq_bool (rank x) q) eqn:Ex; [|reflexivity].
  destruct (Qeq_bool (rank y) q) eqn:Ey; [|reflexivity].
  apply Qeq_bool_eq in Ex, Ey. exfalso.
  rewrite Ex, Ey in E. exact (Qlt_irrefl _ E).
Qed.

Lemma sort_stable (q : Q) (l : list A) :
  Forall P l ->
  filter (fun a => Qeq_bool (rank a) q) (sort comparefn l)
  = filter (fun a => Qeq_bool (rank a) q) l.
Proof.
  induction 1 as [|x l Hx Hl IH]; [reflexivity|].
  cbn [sort]. rewrite insert_stable; [|exact Hx|].
  - cbn [filter]. rewrite IH. reflexivity.
  - apply (Permutation_Forall (Permutation_sym (sort_perm comparefn l))).
    exact Hl.
Qed.
End Ranked.

End JSArrayFacts.

(** ** Proposer selection *)

Module SelectionFacts.

Lemma getTotalStake_perm (l l' : list ConsensusNode) :
  Permutation l l' ->
  fold_left (fun total node => total + stake node) l 0
  = fold_left (fun total node => total + stake node) l' 0.
Proof.
  induction 1 as [|x l l' _ IH|x y l|l l' l'' _ IH1 _ IH2]; simpl.
  - reflexivity.
  - rewrite (StakeFacts.fold_stake_shift l), (StakeFacts.fold_stake_shift l').
    rewrite IH. reflexivity.
  - rewrite (StakeFacts.fold_stake_shift l (stake y + stake x)).
    rewrite (StakeFacts.fold_stake_shift l (stake x + stake y)). lia.
  - congruence.
Qed.

Lemma nonzero_injected (z : Z) : z <> 0 -> Qeq_bool (inject_Z z) 0 = false.
Proof.
  intro Hz. destruct (Qeq_bool (inject_Z z) 0) eqn:E; [|reflexivity].
  apply Qeq_bool_eq in E. unfold Qeq in E. simpl in E. lia.
Qed.




(** Two lists sorted by the same order that are permutations of each other
    are equal, when elements that the order does not separate are equal. *)
Lemma sorted_perm_unique (A : Type) (R : A -> A -> Prop) (l : list A) :
  forall l',
    StronglySorted R l -> StronglySorted R l' -> Permutation l l' ->
    (forall a b, In a l -> In b l -> R a b -> R b a -> a = b) ->
    l = l'.
Proof.
  induction l as [|a l IH]; intros l' Hs Hs' Hperm Hanti.
  - apply Permutation_nil in Hperm. congruence.
  - destruct l' as [|a' l'].
    + apply Permutation_sym, Permutation_nil in Hperm. discriminate.
    + inversion Hs as [|? ? Hsl Ha]; subst.
      inversion Hs' as [|? ? Hsl' Ha']; subst.
      assert (Heq : a = a').
      { assert (Hin : In a (a' :: l'))
          by (apply (Permutation_in _ Hperm); left; reflexivity).
        assert (Hin' : In a' (a :: l))
          by (apply (Permutation_in _ (Permutation_sym Hperm));
              left; reflexivity).
        destruct Hin as [Heq | Hin]; [congruence|].
        destruct Hin' as [Heq | Hin']; [congruence|].
        rewrite Forall_forall in Ha, Ha'.
        apply Hanti; [left; reflexivity | right; exact Hin' | auto | auto]. }
      subst a'. f_equal.
      apply IH; [assumption | assumption | |].
      * eapply Permutation_cons_inv. exact Hperm.
      * intros x y Hx Hy. apply Hanti; right; assumption.
Qed.

(** With a total stake of zero (stakes being non-negative) every compare
    result is NaN, and the participants stay in insertion order. *)
Lemma zero_total_keeps_insertion_order (m : NodeMap) :
  Forall (fun n => 0 <= stake n) (JSMap.values m) ->
  getTotalStake m = 0 ->
  sortedNodes m = JSMap.values m.
Proof.
  intros Hnn Ht. unfold sortedNodes.
  pose proof (StakeFacts.zero_total_all_zero _ Hnn Ht) as Hz.
  rewrite Forall_forall in Hz.
  apply JSArrayFacts.sort_no_positive. intros x y Hx Hy.
  unfold JSArray.sorts_after.
  rewrite (StakeFacts.calculatePriority_zero_total m y Ht (Hz y Hy)).
  reflexivity.
Qed.


Lemma slot_of_nonneg (now : Z) (size : nat) :
  size <> 0%nat -> 0 <= now ->
  slot_of now size = Some ((now / 1000) mod Z.of_nat size) /\
  0 <= (now / 1000) mod Z.of_nat size < Z.of_nat size.
Proof.
  intros Hsize Hnow. unfold slot_of.
  destruct size as [|n]; [congruence|].
  assert (Hq : 0 <= now / 1000) by (apply Z.div_pos; lia).
  assert (Hn : 0 < Z.of_nat (S n)) by lia.
  rewrite Z.rem_mod_nonneg by lia.
  split; [reflexivity|]. apply Z.mod_pos_bound. exact Hn.
Qed.

End SelectionFacts.

(** C1, as stated, fails: two participants of equal priority are not ordered
    by [id].  With "b" registered before "a", slot 0 selects "b", where the
    order of the specification selects "a"; with the same two participants
    registered in the other order, slot 0 selects "a". *)
Lemma ties_follow_insertion_order :
  Permutation registry_ab registry_ba /\
  same (calculatePriority registry_ba node_a)
       (calculatePriority registry_ba node_b) /\
  slotProposer registry_ba 0 = Some node_b /\
  spec_slotProposer registry_ba 0 = Some node_a /\
  slotProposer registry_ab 0 = Some node_a /\
  slotProposer registry_ba 0 <> spec_slotProposer registry_ba 0 /\
  slotProposer registry_ba 0 <> slotProposer registry_ab 0.
Proof.
  split; [apply perm_swap|].
  repeat split; try reflexivity; vm_compute; discriminate.
Qed.

(** The three participants in descending priority, and the proposers of
    slots 0 and 7. *)
Example selection_sample :
  sortedNodes registry_123 = [node_p3; node_p2; node_p1] /\
  slotProposer registry_123 0 = Some node_p3 /\
  slotProposer registry_123 7000 = Some node_p2.
Proof. repeat split. Qed.

(* ================================================================== *)
(** * Part III: further properties of the engine and its logger         *)
(* ================================================================== *)

(** ** The rotation of proposers *)

Module RotationFacts.

Lemma In_sortedNodes (m : NodeMap) (p : ConsensusNode) :
  In p (sortedNodes m) <-> In p (JSMap.values m).
Proof.
  unfold sortedNodes. split; apply Permutation_in.
  - apply JSArrayFacts.sort_perm.
  - apply Permutation_sym, JSArrayFacts.sort_perm.
Qed.

Lemma sortedNodes_length (m : NodeMap) :
  List.length (sortedNodes m) = JSMap.size m.
Proof.
  unfold sortedNodes, JSMap.size, JSMap.values.
  rewrite JSArrayFacts.sort_length. apply length_map.
Qed.

Lemma slot_shift (now j : Z) : (now + 1000 * j) / 1000 = now / 1000 + j.
Proof.
  replace (now + 1000 * j) with (now + j * 1000) by lia.
  apply Z.div_add. lia.
Qed.

(** The slot of a time [now >= 0] in a non-empty registry. *)
Lemma slotProposer_nth (m : NodeMap) (now : Z) :
  JSMap.size m <> 0%nat -> 0 <= now ->
  slotProposer m now
  = nth_error (sortedNodes m)
      (Z.to_nat ((now / 1000) mod Z.of_nat (JSMap.size m))).
Proof.
  intros Hsize Hnow.
  destruct (SelectionFacts.slot_of_nonneg now (JSMap.size m) Hsize Hnow)
    as [Hslot Hbound].
  unfold slotProposer, JSArray.get. rewrite Hslot.
  destruct (Z.ltb_spec ((now / 1000) mod Z.of_nat (JSMap.size m)) 0);
    [lia | reflexivity].
Qed.

End RotationFacts.

(** X1.  Whoever is selected for a slot is a participant of the registry:
    the selection never yields a record that is not registered. *)
Theorem selected_is_registered (m : NodeMap) (now : Z) (p : ConsensusNode) :
  slotProposer m now = Some p -> In p (JSMap.values m).
Proof.
  unfold slotProposer, JSArray.get. intro H.
  destruct (slot_of now (JSMap.size m)) as [z|]; [|discriminate].
  destruct (z <? 0)%Z; [discriminate|].
  apply RotationFacts.In_sortedNodes. eapply nth_error_In. exact H.
Qed.

Lemma selected_is_registered_witness :
  slotProposer registry_123 7000 = Some node_p2 /\
  In node_p2 (JSMap.values registry_123).
Proof.
  split; [reflexivity|].
  exact (selected_is_registered registry_123 7000 node_p2 eq_refl).
Defined.

(** X2.  Selection is a round robin: for a time [now >= 0] and a registry of
    [N] participants, the selection repeats after [N] seconds, and within
    the [N] seconds from [now] every participant is selected, whatever its
    stake and reputation. *)
Theorem proposer_round_robin (m : NodeMap) (now : Z) :
  0 <= now ->
  slotProposer m (now + 1000 * Z.of_nat (JSMap.size m)) = slotProposer m now /\
  (forall p, In p (JSMap.values m) ->
     exists j, 0 <= j < Z.of_nat (JSMap.size m) /\
               slotProposer m (now + 1000 * j) = Some p).
Proof.
  intro Hnow. destruct (Nat.eq_dec (JSMap.size m) 0) as [Hz|Hnz].
  - split.
    + unfold slotProposer. rewrite Hz. reflexivity.
    + intros p Hin. exfalso. unfold JSMap.size, JSMap.values in *.
      destruct m; [exact Hin | discriminate Hz].
  - assert (HN : 0 < Z.of_nat (JSMap.size m)) by lia.
    assert (Hs : 0 <= now / 1000) by (apply Z.div_pos; lia).
    split.
    + rewrite !RotationFacts.slotProposer_nth by lia.
      rewrite RotationFacts.slot_shift.
      replace (now / 1000 + Z.of_nat (JSMap.size m))
        with (now / 1000 + 1 * Z.of_nat (JSMap.size m)) by lia.
      rewrite Z.mod_add by lia. reflexivity.
    + intros p Hin. apply RotationFacts.In_sortedNodes in Hin.
      apply In_nth_error in Hin. destruct Hin as [i Hi].
      assert (Hlt : (i < JSMap.size m)%nat).
      { rewrite <- RotationFacts.sortedNodes_length.
        apply nth_error_Some. congruence. }
      exists ((Z.of_nat i - now / 1000) mod Z.of_nat (JSMap.size m)).
      assert (Hj : 0 <= (Z.of_nat i - now / 1000) mod Z.of_nat (JSMap.size m)
                   < Z.of_nat (JSMap.size m))
        by (apply Z.mod_pos_bound; exact HN).
      split; [exact Hj|].
      rewrite RotationFacts.slotProposer_nth by lia.
      rewrite RotationFacts.slot_shift.
      rewrite Z.add_mod_idemp_r by lia.
      replace (now / 1000 + (Z.of_nat i - now / 1000)) with (Z.of_nat i)
        by lia.
      rewrite Z.mod_small by lia.
      rewrite Nat2Z.id. exact Hi.
Qed.

Lemma proposer_round_robin_witness :
  0 <= 7000 /\
  slotProposer registry_123 (7000 + 1000 * Z.of_nat (JSMap.size registry_123))
  = slotProposer registry_123 7000 /\
  exists j, 0 <= j < Z.of_nat (JSMap.size registry_123) /\
            slotProposer registry_123 (7000 + 1000 * j) = Some node_p1.
Proof.
  assert (Hnow : 0 <= 7000) by discriminate.
  split; [exact Hnow|].
  split.
  - exact (proj1 (proposer_round_robin registry_123 7000 Hnow)).
  - apply (proj2 (proposer_round_robin registry_123 7000 Hnow)).
    left. reflexivity.
Defined.

(** X3.  With a total stake of zero (stakes being non-negative) every
    priority is NaN, the sort leaves the array as it is, and the slot index
    is applied to the participants in the insertion order of the map. *)
Theorem zero_total_rotates_in_insertion_order (m : NodeMap) (now : Z) :
  Forall (fun n => 0 <= stake n) (JSMap.values m) ->
  getTotalStake m = 0 ->
  (forall node, In node (JSMap.values m) ->
     calculatePriority m node = NaN) /\
  sortedNodes m = JSMap.values m /\
  slotProposer m now
  = JSArray.get (JSMap.values m) (slot_of now (JSMap.size m)).
Proof.
  intros Hnn Ht.
  pose proof (StakeFacts.zero_total_all_zero _ Hnn Ht) as Hz.
  rewrite Forall_forall in Hz.
  split; [|split].
  - intros node Hin.
    apply StakeFacts.calculatePriority_zero_total; [exact Ht|].
    apply Hz. exact Hin.
  - apply SelectionFacts.zero_total_keeps_insertion_order; assumption.
  - unfold slotProposer.
    rewrite (SelectionFacts.zero_total_keeps_insertion_order m Hnn Ht).
    reflexivity.
Qed.

Lemma zero_total_rotates_in_insertion_order_witness :
  Forall (fun n => 0 <= stake n) (JSMap.values registry_zero) /\
  getTotalStake registry_zero = 0 /\
  (forall node, In node (JSMap.values registry_zero) ->
     calculatePriority registry_zero node = NaN) /\
  sortedNodes registry_zero = JSMap.values registry_zero /\
  slotProposer registry_zero 4000
  = JSArray.get (JSMap.values registry_zero)
      (slot_of 4000 (JSMap.size registry_zero)).
Proof.
  assert (Hnn : Forall (fun n => 0 <= stake n) (JSMap.values registry_zero)).
  { repeat constructor; simpl; lia. }
  split; [exact Hnn|]. split; [reflexivity|].
  exact (zero_total_rotates_in_insertion_order registry_zero 4000 Hnn
           eq_refl).
Defined.

(** Three participants without stake: the one with the highest reputation
    was registered last and stays last; slot 4 of 3 is the second
    registered. *)
Example zero_total_sample :
  sortedNodes registry_zero = [node_z1; node_z2; node_z3] /\
  slotProposer registry_zero 0 = Some node_z1 /\
  slotProposer registry_zero 4000 = Some node_z2 /\
  slotProposer registry_zero 5000 = Some node_z3.
Proof. repeat split. Qed.

(** ** Priorities *)

Module PriorityFacts.







End PriorityFacts.





(** ** Metrics *)

Module MetricsFacts.

(** The sum of reputations in [0,1], started from a finite value. *)
Lemma reputation_sum (l : list ConsensusNode) :
  Forall (fun n => in_unit_interval (reputation n)) l ->
  forall a : Q,
  exists s : Q,
    fold_left (fun sum node => (sum + reputation node)%num) l (Finite a)
    = Finite s /\
    (a <= s <= a + inject_Z (Z.of_nat (List.length l)))%Q.
Proof.
  induction 1 as [|n l Hn Hl IH]; intro a.
  - exists a. split; [reflexivity|].
    change (inject_Z (Z.of_nat (List.length (@nil ConsensusNode)))) with 0%Q.
    lra.
  - apply in_unit_interval_Finite in Hn. destruct Hn as (r & Er & Hr).
    destruct (IH (a + r)%Q) as (s & Es & Hs).
    exists s. split.
    + simpl. rewrite Er. exact Es.
    + rewrite length_cons, Nat2Z.inj_succ.
      unfold Z.succ. rewrite inject_Z_plus. change (inject_Z 1) with 1%Q.
      set (L := inject_Z (Z.of_nat (List.length l))) in *. lra.
Qed.


Lemma filter_all (A : Type) (f : A -> bool) (l : list A) :
  (forall x, In x l -> f x = true) -> filter f l = l.
Proof.
  induction l as [|x l IH]; intro H; simpl; [reflexivity|].
  rewrite (H x (or_introl eq_refl)). f_equal. apply IH.
  intros y Hy. apply H. right. exact Hy.
Qed.

End MetricsFacts.

(** X6.  The average reputation of a registry whose reputations are in
    [0,1] is in [0,1]; this includes the empty registry, where the metric
    is 0 by its guard. *)
Theorem average_reputation_in_unit_interval (m : NodeMap) :
  Forall (fun n => in_unit_interval (reputation n)) (JSMap.values m) ->
  in_unit_interval (calculateAverageReputation m).
Proof.
  intro Hrep. unfold calculateAverageReputation.
  destruct (JSMap.values m) as [|n l] eqn:E; [split; reflexivity|].
  destruct (MetricsFacts.reputation_sum (n :: l) Hrep 0) as (s & Es & Hs).
  rewrite Es. unfold of_nat, div.
  set (N := Z.of_nat (List.length (n :: l))) in *.
  assert (HN : 0 < N) by (unfold N; rewrite length_cons; lia).
  assert (HNQ : (0 < inject_Z N)%Q)
    by (change 0%Q with (inject_Z 0); rewrite <- Zlt_Qlt; exact HN).
  rewrite SelectionFacts.nonzero_injected by lia.
  apply in_unit_interval_Finite. eexists. split; [reflexivity|].
  set (L := inject_Z N) in *.
  split.
  - apply Qle_shift_div_l; [exact HNQ|]. lra.
  - apply Qle_shift_div_r; [exact HNQ|]. lra.
Qed.

Lemma average_reputation_in_unit_interval_witness :
  Forall (fun n => in_unit_interval (reputation n)) (JSMap.values registry_ab)
  /\ in_unit_interval (calculateAverageReputation registry_ab).
Proof.
  assert (H : Forall (fun n => in_unit_interval (reputation n))
                (JSMap.values registry_ab))
    by (repeat constructor).
  split; [exact H|].
  exact (average_reputation_in_unit_interval registry_ab H).
Defined.



(** ** Pruning as a filter *)

Module PruneLoopFacts.

Lemma filter_filter (A : Type) (f g : A -> bool) (l : list A) :
  filter f (filter g l) = filter (fun x => g x && f x) l.
Proof.
  induction l as [|x l IH]; simpl; [reflexivity|].
  destruct (g x); simpl; [|exact IH].
  destruct (f x); rewrite IH; reflexivity.
Qed.

(** The loop of [pruneInactiveNodes] over the entries [l], started with the
    map [acc] and the notifications [evs]. *)
Lemma prune_loop (now : Z) (l : list (string * ConsensusNode)) :
  forall (acc : NodeMap) (evs : list Event),
    fold_left
      (fun (st : NodeMap * list Event) (entry : string * ConsensusNode) =>
         let (k, node) := entry in
         if inactive now node
         then (JSMap.delete k (fst st), (snd st ++ [nodePruned k])%list)
         else st)
      l (acc, evs)
    = (filter
         (fun e =>
            negb (existsb
                    (fun e' => String.eqb (fst e) (fst e')
                               && inactive now (snd e')) l))
         acc,
       evs ++ map (fun e => nodePruned (fst e))
                (filter (fun e => inactive now (snd e)) l)).
Proof.
  induction l as [|[k node] l IH]; intros acc evs.
  - simpl. rewrite app_nil_r. f_equal.
    symmetry. apply MetricsFacts.filter_all. reflexivity.
  - cbn [fold_left]. destruct (inactive now node) eqn:E.
    + cbn [fst snd]. rewrite IH. f_equal.
      * unfold JSMap.delete. rewrite filter_filter.
        apply filter_ext. intros [k' n']. cbn [existsb fst snd].
        rewrite E, andb_true_r, (String.eqb_sym k' k).
        destruct (String.eqb k k'); reflexivity.
      * cbn [filter snd]. rewrite E. cbn [map fst].
        rewrite <- app_assoc. reflexivity.
    + rewrite IH. f_equal.
      * apply filter_ext. intros [k' n']. cbn [existsb fst snd].
        rewrite E, andb_false_r. reflexivity.
      * cbn [filter snd]. rewrite E. reflexivity.
Qed.

Lemma In_get (V : Type) (k : string) (v : V) (m : JSMap.t V) :
  JSMap.wf m -> In (k, v) m -> JSMap.get k m = Some v.
Proof.
  unfold JSMap.wf. induction m as [|[k0 v0] m IH]; simpl; [contradiction|].
  intros Hnd Hin. inversion Hnd as [|? ? Hnotin Hnd']; subst.
  destruct Hin as [Heq | Hin].
  - injection Heq as -> ->. rewrite String.eqb_refl. reflexivity.
  - destruct (String.eqb k k0) eqn:E; [|apply IH; assumption].
    apply String.eqb_eq in E. subst k0. exfalso. apply Hnotin.
    apply (in_map fst) in Hin. exact Hin.
Qed.

Lemma get_In (V : Type) (k : string) (v : V) (m : JSMap.t V) :
  JSMap.get k m = Some v -> In (k, v) m.
Proof.
  induction m as [|[k0 v0] m IH]; simpl; [discriminate|].
  destruct (String.eqb k k0) eqn:E; intro H.
  - apply String.eqb_eq in E. injection H as ->. subst. left. reflexivity.
  - right. apply IH. exact H.
Qed.

Lemma wf_filter (V : Type) (f : string * V -> bool) (m : JSMap.t V) :
  JSMap.wf m -> JSMap.wf (filter f m).
Proof.
  unfold JSMap.wf, JSMap.keys. induction m as [|e m IH]; simpl; intro Hnd.
  - constructor.
  - inversion Hnd as [|? ? Hnotin Hnd']; subst.
    destruct (f e); simpl; [|apply IH; exact Hnd'].
    constructor; [|apply IH; exact Hnd'].
    intro Hin. apply Hnotin. apply in_map_iff in Hin.
    destruct Hin as (e' & He' & Hin). apply filter_In in Hin.
    rewrite <- He'. apply in_map. apply Hin.
Qed.

(** The registry and the notifications after pruning a map. *)
Lemma pruneInactiveNodes_filter (m : NodeMap) (now : Z) :
  Map_wf m ->
  pruneInactiveNodes m now
  = (filter (fun e => negb (inactive now (snd e))) m,
     map (fun e => nodePruned (fst e))
       (filter (fun e => inactive now (snd e)) m)).
Proof.
  intro Hwf. unfold pruneInactiveNodes, JSMap.entries.
  rewrite prune_loop. cbn [app]. f_equal.
  apply filter_ext_in. intros [k node] Hin. cbn [fst snd].
  rewrite (PruneFacts.existsb_key _ (inactive now) k node m Hwf
             (In_get _ k node m Hwf Hin)).
  reflexivity.
Qed.

(** Inactivity persists: a participant inactive at [now] is inactive at
    every later time. *)
Lemma inactive_later (now now' : Z) (node : ConsensusNode) :
  now <= now' -> inactive now node = true -> inactive now' node = true.
Proof.
  unfold inactive, maxInactivity, gtb, Number. intros Hle.
  destruct (lastProposal node) as [| |q|]; simpl; try (intro; assumption).
  rewrite !negb_true_iff. intro H.
  destruct (Qle_bool (inject_Z now' + - q) (inject_Z 3600000))
    eqn:E; [|reflexivity].
  apply Qle_bool_iff in E.
  assert (Hn : (inject_Z now <= inject_Z now')%Q)
    by (rewrite <- Zle_Qle; exact Hle).
  assert (Hc : Qle_bool (inject_Z now + - q) (inject_Z 3600000)
               = true).
  { apply Qle_bool_iff.
    set (a := inject_Z now) in *. set (b := inject_Z now') in *.
    set (c := inject_Z (1000 * 60 * 60)) in *. lra. }
  congruence.
Qed.

End PruneLoopFacts.

(** X8.  Pruning is a filter: the registry after [pruneInactiveNodes] holds
    the participants that are not inactive, in their order, and one
    [nodePruned] notification is emitted for each inactive participant, in
    iteration order. *)
Theorem pruning_is_a_filter (m : NodeMap) (now : Z) :
  Map_wf m ->
  pruneInactiveNodes m now
  = (filter (fun e => negb (inactive now (snd e))) m,
     map (fun e => nodePruned (fst e))
       (filter (fun e => inactive now (snd e)) m)) /\
  Map_wf (fst (pruneInactiveNodes m now)) /\
  (JSMap.size (fst (pruneInactiveNodes m now))
   + List.length (snd (pruneInactiveNodes m now)) = JSMap.size m)%nat.
Proof.
  intro Hwf.
  rewrite (PruneLoopFacts.pruneInactiveNodes_filter m now Hwf).
  cbn [fst snd]. split; [reflexivity|]. split.
  - apply PruneLoopFacts.wf_filter. exact Hwf.
  - unfold JSMap.size. rewrite length_map.
    clear Hwf. induction m as [|e m IH]; simpl; [reflexivity|].
    destruct (inactive now (snd e)); simpl; lia.
Qed.

Lemma pruning_is_a_filter_witness :
  Map_wf registry_recent_stale /\
  pruneInactiveNodes registry_recent_stale 4000000
  = (filter (fun e => negb (inactive 4000000 (snd e))) registry_recent_stale,
     map (fun e => nodePruned (fst e))
       (filter (fun e => inactive 4000000 (snd e)) registry_recent_stale)).
Proof.
  split; [exact PruneFacts.wf_registry_recent_stale|].
  exact (proj1 (pruning_is_a_filter registry_recent_stale 4000000
                  PruneFacts.wf_registry_recent_stale)).
Defined.

(** X9.  Pruning composes: pruning at a time and again at a later time
    leaves the registry that pruning once at the later time leaves; in
    particular a second pruning at the same time removes nobody. *)
Theorem pruning_composes (m : NodeMap) (now now' : Z) :
  Map_wf m ->
  now <= now' ->
  fst (pruneInactiveNodes (fst (pruneInactiveNodes m now)) now')
  = fst (pruneInactiveNodes m now').
Proof.
  intros Hwf Hle.
  rewrite (PruneLoopFacts.pruneInactiveNodes_filter m now Hwf).
  rewrite (PruneLoopFacts.pruneInactiveNodes_filter m now' Hwf).
  cbn [fst].
  rewrite PruneLoopFacts.pruneInactiveNodes_filter
    by (apply PruneLoopFacts.wf_filter; exact Hwf).
  cbn [fst]. rewrite PruneLoopFacts.filter_filter.
  apply filter_ext. intros [k node]. cbn [snd].
  destruct (inactive now node) eqn:E; [|reflexivity].
  rewrite (PruneLoopFacts.inactive_later now now' node Hle E). reflexivity.
Qed.

Lemma pruning_composes_witness :
  Map_wf registry_recent_stale /\
  4000000 <= 9000000 /\
  fst (pruneInactiveNodes
         (fst (pruneInactiveNodes registry_recent_stale 4000000)) 9000000)
  = fst (pruneInactiveNodes registry_recent_stale 9000000).
Proof.
  assert (Hle : 4000000 <= 9000000) by discriminate.
  split; [exact PruneFacts.wf_registry_recent_stale|].
  split; [exact Hle|].
  exact (pruning_composes registry_recent_stale 4000000 9000000
           PruneFacts.wf_registry_recent_stale Hle).
Defined.

(** X10.  Pruning is sound: a participant found in the registry after
    pruning was in it before with the same record, and it is not inactive.
    Pruning adds nobody and alters no record. *)
Theorem pruned_registry_is_sound (m : NodeMap) (now : Z) (k : string)
  (node : ConsensusNode) :
  JSMap.get k (fst (pruneInactiveNodes m now)) = Some node ->
  JSMap.get k m = Some node /\ inactive now node = false.
Proof.
  unfold pruneInactiveNodes, JSMap.entries.
  rewrite PruneFacts.get_prune_loop.
  destruct (existsb
              (fun e => String.eqb k (fst e) && inactive now (snd e)) m)
    eqn:E; [discriminate|].
  intro Hget. split; [exact Hget|].
  apply PruneLoopFacts.get_In in Hget.
  destruct (inactive now node) eqn:Ei; [|reflexivity].
  assert (Hex : existsb
                  (fun e => String.eqb k (fst e) && inactive now (snd e)) m
                = true).
  { apply existsb_exists. exists (k, node). split; [exact Hget|].
    cbn [fst snd]. rewrite String.eqb_refl, Ei. reflexivity. }
  congruence.
Qed.

Lemma pruned_registry_is_sound_witness :
  JSMap.get "recent" (fst (pruneInactiveNodes registry_recent_stale 4000000))
  = Some node_recent /\
  JSMap.get "recent" registry_recent_stale = Some node_recent /\
  inactive 4000000 node_recent = false.
Proof.
  split; [reflexivity|].
  exact (pruned_registry_is_sound registry_recent_stale 4000000 "recent"
           node_recent eq_refl).
Defined.

(** ** Whole epochs *)

Module EpochLoopFacts.
Section Loops.
Variable ev : Evaluators.

(** A property of nodes that each weight update keeps holds for every node
    after the weight loop, however the loop ends. *)
Lemma updateNodeWeights_Forall (P : ConsensusNode -> Prop) (m : NodeMap) :
  (forall node p, P node -> evaluateNodePerformance ev node = Returns p ->
                  P (set_weight node (calculateNewWeight node p))) ->
  Forall (fun e => P (snd e)) m ->
  Forall (fun e => P (snd e)) (fst (updateNodeWeights ev m)).
Proof.
  intros Hstep. induction 1 as [|[k node] m Hn Hm IH]; simpl; [constructor|].
  destruct (evaluateNodePerformance ev node) as [p|err] eqn:E.
  - destruct (updateNodeWeights ev m) as [rest r]. simpl in *.
    constructor; [apply Hstep; assumption | exact IH].
  - simpl. constructor; assumption.
Qed.

Lemma recalculateReputations_loop_Forall (P : ConsensusNode -> Prop)
  (c : string) (m : NodeMap) :
  (forall node a, P node -> calculateNeuralAlignment ev node c = Returns a ->
                  P (set_reputation node (updateReputation node a))) ->
  Forall (fun e => P (snd e)) m ->
  Forall (fun e => P (snd e)) (fst (recalculateReputations_loop ev c m)).
Proof.
  intros Hstep. induction 1 as [|[k node] m Hn Hm IH]; simpl; [constructor|].
  destruct (calculateNeuralAlignment ev node c) as [a|err] eqn:E.
  - destruct (recalculateReputations_loop ev c m) as [rest r]. simpl in *.
    constructor; [apply Hstep; assumption | exact IH].
  - simpl. constructor; assumption.
Qed.

(** The update loops keep the keys and, under each key, the participant. *)
Lemma get_updateNodeWeights (m : NodeMap) (k : string)
  (node' : ConsensusNode) :
  JSMap.get k (fst (updateNodeWeights ev m)) = Some node' ->
  exists node, JSMap.get k m = Some node /\ same_participant node node' /\
               reputation node' = reputation node.
Proof.
  induction m as [|[k0 n0] m IH]; simpl; [discriminate|].
  destruct (evaluateNodePerformance ev n0) as [p|err].
  - destruct (updateNodeWeights ev m) as [rest r]. simpl in *.
    destruct (String.eqb k k0).
    + intro H. injection H as <-. exists n0.
      split; [reflexivity|]. repeat split.
    + exact IH.
  - simpl. destruct (String.eqb k k0).
    + intro H. injection H as <-. exists n0.
      split; [reflexivity|]. repeat split.
    + intro H. exists node'. split; [exact H|]. repeat split.
Qed.

Lemma get_recalculateReputations_loop (c : string) (m : NodeMap)
  (k : string) (node' : ConsensusNode) :
  JSMap.get k (fst (recalculateReputations_loop ev c m)) = Some node' ->
  exists node, JSMap.get k m = Some node /\ same_participant node node' /\
               weight node' = weight node.
Proof.
  induction m as [|[k0 n0] m IH]; simpl; [discriminate|].
  destruct (calculateNeuralAlignment ev n0 c) as [a|err].
  - destruct (recalculateReputations_loop ev c m) as [rest r]. simpl in *.
    destruct (String.eqb k k0).
    + intro H. injection H as <-. exists n0.
      split; [reflexivity|]. repeat split.
    + exact IH.
  - simpl. destruct (String.eqb k k0).
    + intro H. injection H as <-. exists n0.
      split; [reflexivity|]. repeat split.
    + intro H. exists node'. split; [exact H|]. repeat split.
Qed.

(** The reputation loop completes when every evaluation returns. *)
Lemma recalculateReputations_loop_completes (c : string) (m : NodeMap) :
  Forall (fun e => exists a,
            calculateNeuralAlignment ev (snd e) c = Returns a) m ->
  exists m',
    recalculateReputations_loop ev c m = (m', Returns tt) /\
    Forall2 (reputation_updated ev c) m m'.
Proof.
  induction 1 as [|[k0 n0] m [a Ha] _ (m' & Hrun & Hall)].
  - exists []. split; [reflexivity | constructor].
  - exists ((k0, set_reputation n0 (updateReputation n0 a)) :: m').
    simpl. simpl in Ha. rewrite Ha, Hrun. split; [reflexivity|].
    constructor; [|exact Hall].
    split; [reflexivity|]. exists a. split; [exact Ha | reflexivity].
Qed.

End Loops.

Lemma pruneInactiveNodes_incl (m : NodeMap) (now : Z) :
  incl (fst (pruneInactiveNodes m now)) m.
Proof.
  unfold pruneInactiveNodes, JSMap.entries. rewrite PruneLoopFacts.prune_loop.
  cbn [fst]. intros e He. apply filter_In in He. apply He.
Qed.

(** The registry an epoch leaves is, in each of its outcomes, the result of
    the weight loop, of the reputation loop after it, or of pruning after
    both. *)
Lemma epoch_nodes_cases (ev : Evaluators) (mesh : NeuralMesh) (m : NodeMap)
  (now : Z) :
  let m1 := fst (updateNodeWeights ev m) in
  epoch_nodes (epochTransition ev mesh m now) = m1 \/
  (exists c,
     computeConsensus mesh = Returns c /\
     let m2 := fst (recalculateReputations_loop ev c m1) in
     epoch_nodes (epochTransition ev mesh m now) = m2 \/
     epoch_nodes (epochTransition ev mesh m now)
     = fst (pruneInactiveNodes m2 now)).
Proof.
  unfold epochTransition, recalculateReputations.
  destruct (updateNodeWeights ev m) as [m1 [[]|err]]; cbn [fst];
    [|left; reflexivity].
  destruct (computeConsensus mesh) as [c|err]; [|left; reflexivity].
  right. exists c. split; [reflexivity|].
  destruct (recalculateReputations_loop ev c m1) as [m2 [[]|err]]; cbn [fst];
    [|left; reflexivity].
  right. destruct (pruneInactiveNodes m2 now) as [m3 events]. reflexivity.
Qed.

End EpochLoopFacts.

Module EpochOutcomeFacts.

Lemma get_pruned (m : NodeMap) (now : Z) (k : string) (node : ConsensusNode) :
  JSMap.get k (fst (pruneInactiveNodes m now)) = Some node ->
  JSMap.get k m = Some node.
Proof.
  unfold pruneInactiveNodes, JSMap.entries.
  rewrite PruneFacts.get_prune_loop.
  destruct (existsb _ m); [discriminate | auto].
Qed.

Lemma same_participant_trans (a b c : ConsensusNode) :
  same_participant a b -> same_participant b c -> same_participant a c.
Proof.
  unfold same_participant. intros (H1 & H2 & H3 & H4) (G1 & G2 & G3 & G4).
  repeat split; congruence.
Qed.

Lemma Forall2_compose (A : Type) (R S T : A -> A -> Prop) (l1 : list A) :
  (forall x y z, R x y -> S y z -> T x z) ->
  forall l2 l3, Forall2 R l1 l2 -> Forall2 S l2 l3 -> Forall2 T l1 l3.
Proof.
  intro H. induction l1 as [|x l1 IH]; intros l2 l3 H12 H23.
  - inversion H12; subst. inversion H23; subst. constructor.
  - inversion H12; subst. inversion H23; subst.
    constructor; [eapply H; eassumption | eapply IH; eassumption].
Qed.

(** One update keeps weight and reputation in [0,1] when the score is not
    NaN. *)
Lemma set_weight_in_unit_interval (node : ConsensusNode) (p : number) :
  scores_in_unit_interval node -> isNaN p = false ->
  scores_in_unit_interval (set_weight node (calculateNewWeight node p)).
Proof.
  intros [Hw Hr] Hp. split; [|exact Hr]. cbn [weight set_weight].
  unfold calculateNewWeight.
  apply clamp_in_unit_interval, adjusted_not_NaN; [|exact Hp].
  apply in_unit_interval_Finite in Hw. destruct Hw as (w & -> & _).
  reflexivity.
Qed.

Lemma set_reputation_in_unit_interval (node : ConsensusNode) (a : number) :
  scores_in_unit_interval node -> isNaN a = false ->
  scores_in_unit_interval (set_reputation node (updateReputation node a)).
Proof.
  intros [Hw Hr] Ha. split; [exact Hw|]. cbn [reputation set_reputation].
  unfold updateReputation.
  apply clamp_in_unit_interval, adjusted_not_NaN; [|exact Ha].
  apply in_unit_interval_Finite in Hr. destruct Hr as (r & -> & _).
  reflexivity.
Qed.

End EpochOutcomeFacts.

(** X11.  An epoch creates no participant and relabels none: whoever is in
    the registry after an epoch, however the epoch ended, was in it before
    under the same key, with the same id, stake, last proposal time and
    neural signature. *)
Theorem epoch_never_creates_or_relabels (ev : Evaluators) (mesh : NeuralMesh)
  (m : NodeMap) (now : Z) (k : string) (node' : ConsensusNode) :
  JSMap.get k (epoch_nodes (epochTransition ev mesh m now)) = Some node' ->
  exists node, JSMap.get k m = Some node /\ same_participant node node'.
Proof.
  intro Hget.
  assert (Hloops : forall c n2,
            JSMap.get k
              (fst (recalculateReputations_loop ev c
                      (fst (updateNodeWeights ev m)))) = Some n2 ->
            exists node, JSMap.get k m = Some node /\ same_participant node n2).
  { intros c n2 H2.
    apply EpochLoopFacts.get_recalculateReputations_loop in H2.
    destruct H2 as (n1 & H1 & Hs12 & _).
    apply EpochLoopFacts.get_updateNodeWeights in H1.
    destruct H1 as (n0 & H0 & Hs01 & _).
    exists n0. split; [exact H0|].
    eapply EpochOutcomeFacts.same_participant_trans; eassumption. }
  destruct (EpochLoopFacts.epoch_nodes_cases ev mesh m now)
    as [E | (c & _ & [E | E])]; rewrite E in Hget.
  - apply EpochLoopFacts.get_updateNodeWeights in Hget.
    destruct Hget as (n0 & H0 & Hs & _). exists n0. split; assumption.
  - exact (Hloops c node' Hget).
  - apply EpochOutcomeFacts.get_pruned in Hget. exact (Hloops c node' Hget).
Qed.

Lemma epoch_never_creates_or_relabels_witness :
  JSMap.get "b"
    (epoch_nodes (epochTransition sourceEvaluators mesh_ok registry_ab 1000))
  = Some (placeholder_update node_b) /\
  exists node, JSMap.get "b" registry_ab = Some node /\
               same_participant node (placeholder_update node_b).
Proof.
  split; [reflexivity|].
  exact (epoch_never_creates_or_relabels sourceEvaluators mesh_ok registry_ab
           1000 "b" (placeholder_update node_b) eq_refl).
Defined.

(** X12.  The interval [0,1] is an invariant of whole epochs: if no
    evaluation returns NaN and every weight and reputation of the registry
    is in [0,1], then after any number of epochs, completed or ended by a
    rejection, every weight and reputation in the registry is in [0,1]. *)
Theorem epochs_keep_scores_in_unit_interval (ev : Evaluators)
  (mesh : NeuralMesh) (nows : list Z) (m : NodeMap) :
  (forall node p,
     evaluateNodePerformance ev node = Returns p -> isNaN p = false) ->
  (forall node c a,
     calculateNeuralAlignment ev node c = Returns a -> isNaN a = false) ->
  Forall (fun e => scores_in_unit_interval (snd e)) m ->
  Forall (fun e => scores_in_unit_interval (snd e))
    (run_epochs ev mesh nows m).
Proof.
  intros Hp Ha. revert m. unfold run_epochs.
  induction nows as [|now nows IH]; intros m Hm; [exact Hm|].
  cbn [fold_left]. apply IH.
  assert (H1 : Forall (fun e => scores_in_unit_interval (snd e))
                 (fst (updateNodeWeights ev m))).
  { apply EpochLoopFacts.updateNodeWeights_Forall; [|exact Hm].
    intros node p Hn E.
    apply EpochOutcomeFacts.set_weight_in_unit_interval;
      [exact Hn | exact (Hp node p E)]. }
  assert (H2 : forall c,
            Forall (fun e => scores_in_unit_interval (snd e))
              (fst (recalculateReputations_loop ev c
                      (fst (updateNodeWeights ev m))))).
  { intro c.
    apply EpochLoopFacts.recalculateReputations_loop_Forall; [|exact H1].
    intros node a Hn E.
    apply EpochOutcomeFacts.set_reputation_in_unit_interval;
      [exact Hn | exact (Ha node c a E)]. }
  destruct (EpochLoopFacts.epoch_nodes_cases ev mesh m now)
    as [E | (c & _ & [E | E])]; rewrite E.
  - exact H1.
  - exact (H2 c).
  - apply Forall_forall. intros e He.
    apply EpochLoopFacts.pruneInactiveNodes_incl in He.
    specialize (H2 c). rewrite Forall_forall in H2. auto.
Qed.

Lemma epochs_keep_scores_in_unit_interval_witness :
  (forall node p,
     evaluateNodePerformance (evaluators_failing_on "a" "") node = Returns p ->
     isNaN p = false) /\
  (forall node c a,
     calculateNeuralAlignment (evaluators_failing_on "a" "") node c
     = Returns a -> isNaN a = false) /\
  Forall (fun e => scores_in_unit_interval (snd e)) registry_ba /\
  Forall (fun e => scores_in_unit_interval (snd e))
    (run_epochs (evaluators_failing_on "a" "") mesh_ok [1000; 301000]
       registry_ba).
Proof.
  assert (Hp : forall node p,
             evaluateNodePerformance (evaluators_failing_on "a" "") node
             = Returns p -> isNaN p = false).
  { intros node p. simpl. destruct (String.eqb (id node) "a");
      [discriminate|]. intro H. injection H as <-. reflexivity. }
  assert (Ha : forall node c a,
             calculateNeuralAlignment (evaluators_failing_on "a" "") node c
             = Returns a -> isNaN a = false).
  { intros node c a. simpl. destruct (String.eqb (id node) "");
      [discriminate|]. intro H. injection H as <-. reflexivity. }
  assert (Hm : Forall (fun e => scores_in_unit_interval (snd e)) registry_ba).
  { repeat constructor. }
  split; [exact Hp|]. split; [exact Ha|]. split; [exact Hm|].
  exact (epochs_keep_scores_in_unit_interval (evaluators_failing_on "a" "")
           mesh_ok [1000; 301000] registry_ba Hp Ha Hm).
Defined.

(** X13.  A completed epoch: when every evaluation returns and the consensus
    view [c] is available, the epoch logs nothing, and its result is the
    pruning, at the time of the epoch, of the registry in which every
    participant has its new weight and its new reputation. *)
Theorem completed_epoch (ev : Evaluators) (mesh : NeuralMesh) (m : NodeMap)
  (now : Z) (c : string) :
  (forall node, exists p, evaluateNodePerformance ev node = Returns p) ->
  computeConsensus mesh = Returns c ->
  (forall node, exists a, calculateNeuralAlignment ev node c = Returns a) ->
  exists m2,
    Forall2 (epoch_updated ev c) m m2 /\
    epochTransition ev mesh m now
    = {| epoch_nodes := fst (pruneInactiveNodes m2 now);
         epoch_events := snd (pruneInactiveNodes m2 now);
         epoch_log := [] |}.
Proof.
  intros Hp Hc Ha.
  destruct (EpochFacts.updateNodeWeights_completes ev m)
    as (m1 & Hrun1 & Hall1).
  { apply Forall_forall. intros e _. apply Hp. }
  destruct (EpochLoopFacts.recalculateReputations_loop_completes ev c m1)
    as (m2 & Hrun2 & Hall2).
  { apply Forall_forall. intros e _. apply Ha. }
  exists m2. split.
  - apply (EpochOutcomeFacts.Forall2_compose _
             (weight_updated ev) (reputation_updated ev c)
             (epoch_updated ev c) m) with (l2 := m1);
      [|exact Hall1|exact Hall2].
    intros x y z (Hk1 & p & Ep & Hy) (Hk2 & a & Ea & Hz).
    split; [congruence|]. exists p, a.
    rewrite Hy in Ea, Hz. split; [exact Ep|]. split; [exact Ea|].
    exact Hz.
  - unfold epochTransition, recalculateReputations.
    rewrite Hrun1, Hc, Hrun2.
    destruct (pruneInactiveNodes m2 now). reflexivity.
Qed.

Lemma completed_epoch_witness :
  (forall node, exists p,
     evaluateNodePerformance sourceEvaluators node = Returns p) /\
  computeConsensus mesh_ok = Returns "consensus" /\
  (forall node, exists a,
     calculateNeuralAlignment sourceEvaluators node "consensus" = Returns a) /\
  exists m2,
    Forall2 (epoch_updated sourceEvaluators "consensus") registry_ab m2 /\
    epochTransition sourceEvaluators mesh_ok registry_ab 1000
    = {| epoch_nodes := fst (pruneInactiveNodes m2 1000);
         epoch_events := snd (pruneInactiveNodes m2 1000);
         epoch_log := [] |}.
Proof.
  assert (Hp : forall node, exists p,
             evaluateNodePerformance sourceEvaluators node = Returns p)
    by (intro node; exists (Finite 0); reflexivity).
  assert (Ha : forall node, exists a,
             calculateNeuralAlignment sourceEvaluators node "consensus"
             = Returns a)
    by (intro node; exists (Finite 0); reflexivity).
  split; [exact Hp|]. split; [reflexivity|]. split; [exact Ha|].
  exact (completed_epoch sourceEvaluators mesh_ok registry_ab 1000
           "consensus" Hp eq_refl Ha).
Defined.

(** X14.  When the consensus view is unavailable: if every performance
    evaluation returns and [computeConsensus] rejects, every participant has
    its new weight, no reputation is changed, nobody is pruned and no
    notification is emitted; the error is logged. *)
Theorem consensus_failure_keeps_new_weights (ev : Evaluators)
  (mesh : NeuralMesh) (m : NodeMap) (now : Z) (err : string) :
  Forall (fun e => exists p,
            evaluateNodePerformance ev (snd e) = Returns p) m ->
  computeConsensus mesh = Throws err ->
  exists m1,
    Forall2 (weight_updated ev) m m1 /\
    epochTransition ev mesh m now
    = {| epoch_nodes := m1;
         epoch_events := [];
         epoch_log := [log_error "Error in epoch transition" err] |}.
Proof.
  intros Hp Hc.
  destruct (EpochFacts.updateNodeWeights_completes ev m Hp)
    as (m1 & Hrun & Hall).
  exists m1. split; [exact Hall|].
  unfold epochTransition, recalculateReputations. rewrite Hrun, Hc.
  reflexivity.
Qed.

Lemma consensus_failure_keeps_new_weights_witness :
  Forall (fun e => exists p,
            evaluateNodePerformance sourceEvaluators (snd e) = Returns p)
    registry_recent_stale /\
  computeConsensus
    {| getNodeId := "self"; computeStateRoot := Returns "root";
       computeConsensus := Throws "ConsensusUnavailable" |}
  = Throws "ConsensusUnavailable" /\
  exists m1,
    Forall2 (weight_updated sourceEvaluators) registry_recent_stale m1 /\
    epochTransition sourceEvaluators
      {| getNodeId := "self"; computeStateRoot := Returns "root";
         computeConsensus := Throws "ConsensusUnavailable" |}
      registry_recent_stale 4000000
    = {| epoch_nodes := m1;
         epoch_events := [];
         epoch_log :=
           [log_error "Error in epoch transition" "ConsensusUnavailable"] |}.
Proof.
  assert (Hp : Forall (fun e => exists p,
                 evaluateNodePerformance sourceEvaluators (snd e) = Returns p)
                 registry_recent_stale).
  { repeat constructor; exists (Finite 0); reflexivity. }
  split; [exact Hp|]. split; [reflexivity|].
  exact (consensus_failure_keeps_new_weights sourceEvaluators
           {| getNodeId := "self"; computeStateRoot := Returns "root";
              computeConsensus := Throws "ConsensusUnavailable" |}
           registry_recent_stale 4000000 "ConsensusUnavailable" Hp eq_refl).
Defined.

(** ** The placeholder evaluation of the source *)

Module PlaceholderFacts.

Lemma updateNodeWeights_source (m : NodeMap) :
  updateNodeWeights sourceEvaluators m
  = (map (fun e => (fst e,
                    set_weight (snd e)
                      (calculateNewWeight (snd e) (Finite 0)))) m,
     Returns tt).
Proof.
  induction m as [|[k node] m IH]; [reflexivity|].
  cbn [updateNodeWeights evaluateNodePerformance sourceEvaluators].
  rewrite IH. reflexivity.
Qed.

Lemma recalculateReputations_loop_source (c : string) (m : NodeMap) :
  recalculateReputations_loop sourceEvaluators c m
  = (map (fun e => (fst e,
                    set_reputation (snd e)
                      (updateReputation (snd e) (Finite 0)))) m,
     Returns tt).
Proof.
  induction m as [|[k node] m IH]; [reflexivity|].
  cbn [recalculateReputations_loop calculateNeuralAlignment sourceEvaluators].
  rewrite IH. reflexivity.
Qed.

Lemma epoch_nodes_pruned (m : NodeMap) (now : Z) :
  epoch_nodes
    (let (m3, events) := pruneInactiveNodes m now in
     {| epoch_nodes := m3; epoch_events := events; epoch_log := [] |})
  = fst (pruneInactiveNodes m now).
Proof. destruct (pruneInactiveNodes m now). reflexivity. Qed.

(** One epoch of the source as it stands. *)
Lemma epoch_source (mesh : NeuralMesh) (c : string) (m : NodeMap) (now : Z) :
  computeConsensus mesh = Returns c ->
  epoch_nodes (epochTransition sourceEvaluators mesh m now)
  = fst (pruneInactiveNodes
           (map (fun e => (fst e, placeholder_update (snd e))) m) now).
Proof.
  intro Hc. unfold epochTransition, recalculateReputations.
  rewrite updateNodeWeights_source, Hc, recalculateReputations_loop_source.
  rewrite map_map, epoch_nodes_pruned. reflexivity.
Qed.

(** The clamped adjustment for the score 0 lowers a bound by 0.05. *)
Lemma clamp_score_zero (x bound bound' : Q) :
  (0 <= x <= bound)%Q -> (0 <= bound')%Q -> (bound - 0.05 <= bound')%Q ->
  exists y,
    Math_max (Finite 0)
      (Math_min (Finite 1) (Finite x + ((Finite 0 - Finite 0.5) * Finite 0.1)))
    = Finite y /\ (0 <= y <= bound')%Q.
Proof.
  intros Hx Hb' Hstep.
  change (Finite x + ((Finite 0 - Finite 0.5) * Finite 0.1))%num
    with (Finite (x + (0 + - 0.5) * 0.1)).
  destruct (clamp_Finite (x + (0 + - 0.5) * 0.1)) as (y & -> & Hy).
  exists y. split; [reflexivity|].
  destruct Hy as [[Hc ->] | [[Hc ->] | [Hc ->]]]; lra.
Qed.

Lemma placeholder_update_lowers (bound bound' : Q) (node : ConsensusNode) :
  (0 <= bound')%Q -> (bound - 0.05 <= bound')%Q ->
  scores_at_most bound node ->
  scores_at_most bound' (placeholder_update node).
Proof.
  intros Hb' Hstep (w & r & Ew & Er & Hw & Hr).
  destruct (clamp_score_zero w bound bound' Hw Hb' Hstep) as (w' & Ew' & Hw').
  destruct (clamp_score_zero r bound bound' Hr Hb' Hstep) as (r' & Er' & Hr').
  exists w', r'. unfold placeholder_update.
  cbn [weight reputation set_weight set_reputation].
  unfold calculateNewWeight, updateReputation. rewrite Ew, Er.
  repeat split; solve [assumption | apply Hw' | apply Hr'].
Qed.

(** After the epochs at the times [nows], a bound of [r] steps of 0.05 has
    come down by one step per epoch. *)
Lemma run_epochs_source (mesh : NeuralMesh) (c : string) (nows : list Z) :
  computeConsensus mesh = Returns c ->
  forall (r : nat) (m : NodeMap),
    Forall (fun e =>
              scores_at_most (inject_Z (Z.of_nat r) * 0.05) (snd e)) m ->
    Forall (fun e =>
              scores_at_most
                (inject_Z (Z.of_nat (r - List.length nows)) * 0.05) (snd e))
      (run_epochs sourceEvaluators mesh nows m).
Proof.
  intro Hc. unfold run_epochs.
  induction nows as [|now nows IH]; intros r m Hm.
  - cbn [fold_left List.length]. rewrite Nat.sub_0_r. exact Hm.
  - cbn [fold_left List.length].
    replace (r - S (List.length nows))%nat
      with ((r - 1) - List.length nows)%nat by lia.
    apply IH. rewrite (epoch_source mesh c m now Hc).
    apply Forall_forall. intros e He.
    apply EpochLoopFacts.pruneInactiveNodes_incl in He.
    apply in_map_iff in He. destruct He as (e0 & <- & He0).
    rewrite Forall_forall in Hm. cbn [snd].
    apply (placeholder_update_lowers (inject_Z (Z.of_nat r) * 0.05));
      [| |exact (Hm e0 He0)].
    + assert (H0 : (0 <= inject_Z (Z.of_nat (r - 1)))%Q)
        by (change 0%Q with (inject_Z 0); rewrite <- Zle_Qle; lia).
      set (x := inject_Z (Z.of_nat (r - 1))) in *. lra.
    + destruct r as [|r'].
      * cbn. lra.
      * replace (S r' - 1)%nat with r' by lia.
        rewrite Nat2Z.inj_succ. unfold Z.succ. rewrite inject_Z_plus.
        change (inject_Z 1) with 1%Q.
        set (x := inject_Z (Z.of_nat r')) in *. lra.
Qed.

End PlaceholderFacts.

(** X15.  With the evaluation methods as the source has them (both return
    [0.0]) and the consensus view available, every epoch lowers each weight
    and reputation by 0.05 down to 0: a registry whose weights and
    reputations are in [0,1] has, after 20 or more epochs, weight 0 and
    reputation 0 for every participant still registered. *)
Theorem placeholder_scores_drain (mesh : NeuralMesh) (c : string)
  (nows : list Z) (m : NodeMap) :
  computeConsensus mesh = Returns c ->
  Forall (fun e => scores_in_unit_interval (snd e)) m ->
  (20 <= List.length nows)%nat ->
  Forall (fun e => same (weight (snd e)) (Finite 0) /\
                   same (reputation (snd e)) (Finite 0))
    (run_epochs sourceEvaluators mesh nows m).
Proof.
  intros Hc Hm Hlen.
  assert (Hstart : Forall (fun e =>
                     scores_at_most (inject_Z (Z.of_nat 20) * 0.05) (snd e))
                     m).
  { eapply Forall_impl; [|exact Hm]. intros e [Hw Hr].
    apply in_unit_interval_Finite in Hw. destruct Hw as (w & Ew & Hw).
    apply in_unit_interval_Finite in Hr. destruct Hr as (r & Er & Hr).
    exists w, r. split; [exact Ew|]. split; [exact Er|].
    change (inject_Z (Z.of_nat 20) * 0.05)%Q with (20 * 0.05)%Q.
    split; lra. }
  pose proof (PlaceholderFacts.run_epochs_source mesh c nows Hc 20 m Hstart)
    as Hend.
  replace (20 - List.length nows)%nat with 0%nat in Hend by lia.
  eapply Forall_impl; [|exact Hend].
  intros e (w & r & Ew & Er & Hw & Hr). rewrite Ew, Er.
  change (inject_Z (Z.of_nat 0) * 0.05)%Q with (0 * 0.05)%Q in Hw, Hr.
  split; simpl; lra.
Qed.

Lemma placeholder_scores_drain_witness :
  computeConsensus mesh_ok = Returns "consensus" /\
  Forall (fun e => scores_in_unit_interval (snd e)) registry_ab /\
  (20 <= List.length (repeat 1000 20))%nat /\
  Forall (fun e => same (weight (snd e)) (Finite 0) /\
                   same (reputation (snd e)) (Finite 0))
    (run_epochs sourceEvaluators mesh_ok (repeat 1000 20) registry_ab).
Proof.
  assert (Hm : Forall (fun e => scores_in_unit_interval (snd e)) registry_ab)
    by (repeat constructor).
  assert (Hlen : (20 <= List.length (repeat 1000 20))%nat)
    by (rewrite repeat_length; apply Nat.le_refl).
  split; [reflexivity|]. split; [exact Hm|]. split; [exact Hlen|].
  exact (placeholder_scores_drain mesh_ok "consensus" (repeat 1000 20)
           registry_ab eq_refl Hm Hlen).
Defined.

(** ** The direction of an adjustment *)

Module DirectionFacts.

Lemma clamped_adjustment_up (base score : number) :
  in_unit_interval base -> le (Finite 0.5) score ->
  le base
     (Math_max (Finite 0)
        (Math_min (Finite 1)
           (base + ((score - Finite 0.5) * Finite 0.1))%num)).
Proof.
  intros Hb Hs.
  apply in_unit_interval_Finite in Hb. destruct Hb as (w & -> & Hw).
  destruct score as [| |p|]; try discriminate Hs.
  - apply le_Finite in Hs.
    change (Finite w + ((Finite p - Finite 0.5) * Finite 0.1))%num
      with (Finite (w + (p + - 0.5) * 0.1)).
    destruct (clamp_Finite (w + (p + - 0.5) * 0.1)) as (y & -> & Hy).
    apply le_Finite.
    destruct Hy as [[Hx ->] | [[Hx ->] | [Hx ->]]]; lra.
  - change (Math_max (Finite 0)
              (Math_min (Finite 1)
                 (Finite w + ((PosInfinity - Finite 0.5) * Finite 0.1))%num))
      with (Finite 1).
    apply le_Finite. lra.
Qed.

Lemma clamped_adjustment_down (base score : number) :
  in_unit_interval base -> le score (Finite 0.5) ->
  le (Math_max (Finite 0)
        (Math_min (Finite 1)
           (base + ((score - Finite 0.5) * Finite 0.1))%num))
     base.
Proof.
  intros Hb Hs.
  apply in_unit_interval_Finite in Hb. destruct Hb as (w & -> & Hw).
  destruct score as [| |p|]; try discriminate Hs.
  - change (Math_max (Finite 0)
              (Math_min (Finite 1)
                 (Finite w + ((NegInfinity - Finite 0.5) * Finite 0.1))%num))
      with (Finite 0).
    apply le_Finite. lra.
  - apply le_Finite in Hs.
    change (Finite w + ((Finite p - Finite 0.5) * Finite 0.1))%num
      with (Finite (w + (p + - 0.5) * 0.1)).
    destruct (clamp_Finite (w + (p + - 0.5) * 0.1)) as (y & -> & Hy).
    apply le_Finite.
    destruct Hy as [[Hx ->] | [[Hx ->] | [Hx ->]]]; lra.
Qed.

End DirectionFacts.

(** X16.  The adjustment follows the score: for a participant with weight
    and reputation in [0,1], a score of at least 0.5 (infinite included)
    never lowers the weight or the reputation, and a score of at most 0.5
    never raises them; a score of exactly 0.5 leaves both where they
    are. *)
Theorem adjustment_follows_the_score (node : ConsensusNode) (score : number) :
  scores_in_unit_interval node ->
  (le (Finite 0.5) score ->
   le (weight node) (calculateNewWeight node score) /\
   le (reputation node) (updateReputation node score)) /\
  (le score (Finite 0.5) ->
   le (calculateNewWeight node score) (weight node) /\
   le (updateReputation node score) (reputation node)).
Proof.
  intros [Hw Hr]. unfold calculateNewWeight, updateReputation.
  split; intro Hs; split;
    solve [apply DirectionFacts.clamped_adjustment_up; assumption
          |apply DirectionFacts.clamped_adjustment_down; assumption].
Qed.

Lemma adjustment_follows_the_score_witness :
  scores_in_unit_interval node_mid /\
  le (Finite 0.5) (Finite 2) /\
  le (weight node_mid) (calculateNewWeight node_mid (Finite 2)) /\
  le (reputation node_mid) (updateReputation node_mid (Finite 2)).
Proof.
  assert (Hn : scores_in_unit_interval node_mid) by (repeat split).
  split; [exact Hn|]. split; [reflexivity|].
  exact (proj1 (adjustment_follows_the_score node_mid (Finite 2) Hn)
           eq_refl).
Defined.

(** ** The constructor *)

(** X17.  The settings of an engine are never zero or NaN: whatever options
    the constructor is given, the consensus threshold and the epoch duration
    it keeps are truthy numbers, a given 0 or NaN being replaced by the
    default. *)
Theorem settings_are_never_zero (options : EngineOptions) :
  truthy (minConsensusThreshold (snd (constructor options))) = true /\
  truthy (epochDuration (snd (constructor options))) = true.
Proof.
  destruct options as [[a|] [b|]]; cbn [constructor snd
    minConsensusThreshold epochDuration opt_minConsensusThreshold
    opt_epochDuration or_default];
    split;
    try (destruct (truthy a) eqn:Ea; [exact Ea | reflexivity]);
    try (destruct (truthy b) eqn:Eb; [exact Eb | reflexivity]);
    reflexivity.
Qed.


(** ** The logger *)

Module LoggerFacts.
Import Logger.

Section WithMeta.
Variable Meta : Type.
Variable truthy_meta : Meta -> bool.
Variable JSON_stringify : Meta -> outcome string.
Variable spread_error : option Meta -> ErrorObject -> outcome Meta.

(** One log call that returns under a level [l1], under a higher level
    [l2]. *)
Lemma log_filter (lg : t) (l1 l2 l : LogLevel) (timestamp message : string)
  (meta : option Meta) :
  LOG_LEVELS l1 <= LOG_LEVELS l2 ->
  snd (log Meta truthy_meta JSON_stringify spread_error
         (setLevel lg l1) l timestamp message meta) = Returns tt ->
  log Meta truthy_meta JSON_stringify spread_error
    (setLevel lg l2) l timestamp message meta
  = (filter (passes l2)
       (fst (log Meta truthy_meta JSON_stringify spread_error
               (setLevel lg l1) l timestamp message meta)),
     Returns tt).
Proof.
  destruct l1, l2, l; cbn; intros H Hr; try (exfalso; lia);
    try reflexivity;
    unfold formatMessage_of in *;
    destruct (serialise Meta truthy_meta JSON_stringify meta) as [json|e];
    cbn in *; solve [reflexivity | discriminate Hr].
Qed.

(** A log method prints nothing when it throws. *)
Lemma log_throws (lg : t) (l : LogLevel) (timestamp message : string)
  (meta : option Meta) (e : string) :
  snd (log Meta truthy_meta JSON_stringify spread_error
         lg l timestamp message meta) = Throws e ->
  fst (log Meta truthy_meta JSON_stringify spread_error
         lg l timestamp message meta) = [].
Proof.
  destruct lg as [lv ctx].
  destruct lv, l; cbn; unfold formatMessage_of;
    destruct (serialise Meta truthy_meta JSON_stringify meta) as [json|x];
    cbn; intro H; solve [reflexivity | discriminate H].
Qed.

End WithMeta.
End LoggerFacts.

(** X18.  Raising the level of a logger only removes output, as long as no
    call throws: for levels [l1 <= l2] and a sequence of [debug], [info],
    [warn] and [error] calls that runs to its end under [l1], the sequence
    runs to its end under [l2] too, and the console calls it makes there
    are exactly those it makes under [l1] whose level is at least [l2], in
    the same order and with the same text.  (A call whose meta cannot be
    serialised throws only at a level that lets it through: see
    [a_skipped_call_cannot_throw].) *)
Theorem raising_the_level_filters_the_output
  (Meta : Type) (truthy_meta : Meta -> bool)
  (JSON_stringify : Meta -> outcome string)
  (spread_error : option Meta -> Logger.ErrorObject -> outcome Meta)
  (lg : Logger.t) (l1 l2 : Logger.LogLevel)
  (calls : list (Logger.LogLevel * string * string * option Meta)) :
  Logger.LOG_LEVELS l1 <= Logger.LOG_LEVELS l2 ->
  snd (Logger.log_all Meta truthy_meta JSON_stringify spread_error
         (Logger.setLevel lg l1) calls) = Returns tt ->
  Logger.log_all Meta truthy_meta JSON_stringify spread_error
    (Logger.setLevel lg l2) calls
  = (filter (Logger.passes l2)
       (fst (Logger.log_all Meta truthy_meta JSON_stringify spread_error
               (Logger.setLevel lg l1) calls)),
     Returns tt).
Proof.
  intro Hle.
  induction calls as [|[[[l timestamp] message] meta] calls IH];
    intro Hret; [reflexivity|].
  cbn [Logger.log_all] in *.
  pose proof (LoggerFacts.log_filter Meta truthy_meta JSON_stringify
                spread_error lg l1 l2 l timestamp message meta Hle) as Hone.
  destruct (Logger.log Meta truthy_meta JSON_stringify spread_error
              (Logger.setLevel lg l1) l timestamp message meta)
    as [out1 [[]|e]]; [|discriminate Hret].
  rewrite (Hone eq_refl). cbn [fst snd] in *.
  destruct (Logger.log_all Meta truthy_meta JSON_stringify spread_error
              (Logger.setLevel lg l1) calls) as [rest1 r1].
  cbn [fst snd] in *. subst r1. rewrite (IH eq_refl).
  rewrite filter_app. reflexivity.
Qed.

Lemma raising_the_level_filters_the_output_witness :
  Logger.LOG_LEVELS Logger.L_debug <= Logger.LOG_LEVELS Logger.L_warn /\
  snd (Logger.log_all Logger.SampleMeta Logger.sample_truthy
         Logger.sample_stringify Logger.sample_spread
         (Logger.setLevel (Logger.forModule "ConsensusEngine" None)
            Logger.L_debug)
         [(Logger.L_info, "t1", "Initializing Consensus Engine...", None);
          (Logger.L_debug, "t2", "slot", Some (Logger.meta_object "{}"));
          (Logger.L_error, "t3", "Error in epoch transition", None)])
  = Returns tt /\
  Logger.log_all Logger.SampleMeta Logger.sample_truthy
    Logger.sample_stringify Logger.sample_spread
    (Logger.setLevel (Logger.forModule "ConsensusEngine" None) Logger.L_warn)
    [(Logger.L_info, "t1", "Initializing Consensus Engine...", None);
     (Logger.L_debug, "t2", "slot", Some (Logger.meta_object "{}"));
     (Logger.L_error, "t3", "Error in epoch transition", None)]
  = (filter (Logger.passes Logger.L_warn)
       (fst (Logger.log_all Logger.SampleMeta Logger.sample_truthy
               Logger.sample_stringify Logger.sample_spread
               (Logger.setLevel (Logger.forModule "ConsensusEngine" None)
                  Logger.L_debug)
               [(Logger.L_info, "t1", "Initializing Consensus Engine...",
                 None);
                (Logger.L_debug, "t2", "slot",
                 Some (Logger.meta_object "{}"));
                (Logger.L_error, "t3", "Error in epoch transition", None)])),
     Returns tt).
Proof.
  assert (Hle : Logger.LOG_LEVELS Logger.L_debug
                <= Logger.LOG_LEVELS Logger.L_warn) by discriminate.
  assert (Hret :
            snd (Logger.log_all Logger.SampleMeta Logger.sample_truthy
                   Logger.sample_stringify Logger.sample_spread
                   (Logger.setLevel (Logger.forModule "ConsensusEngine" None)
                      Logger.L_debug)
                   [(Logger.L_info, "t1", "Initializing Consensus Engine...",
                     None);
                    (Logger.L_debug, "t2", "slot",
                     Some (Logger.meta_object "{}"));
                    (Logger.L_error, "t3", "Error in epoch transition",
                     None)])
            = Returns tt) by reflexivity.
  split; [exact Hle|]. split; [exact Hret|].
  exact (raising_the_level_filters_the_output
           Logger.SampleMeta Logger.sample_truthy Logger.sample_stringify
           Logger.sample_spread
           (Logger.forModule "ConsensusEngine" None)
           Logger.L_debug Logger.L_warn
           [(Logger.L_info, "t1", "Initializing Consensus Engine...", None);
            (Logger.L_debug, "t2", "slot", Some (Logger.meta_object "{}"));
            (Logger.L_error, "t3", "Error in epoch transition", None)]
           Hle Hret).
Defined.

(** A call that the level skips does not serialise its meta, so it cannot
    throw: a [debug] call with a bigint as meta throws at level debug, before
    anything is printed, and the [warn] call after it is not reached; at
    level info the [debug] call does nothing and the [warn] call prints.
    With the falsy bigint [0n] nothing is serialised and nothing throws. *)
Example a_skipped_call_cannot_throw :
  Logger.log_all Logger.SampleMeta Logger.sample_truthy
    Logger.sample_stringify Logger.sample_spread
    (Logger.forModule "ConsensusEngine" (Some Logger.L_debug))
    [(Logger.L_debug, "t1", "stake", Some (Logger.meta_bigint 5));
     (Logger.L_warn, "t2", "late", None)]
  = ([], Throws "TypeError: Do not know how to serialize a BigInt") /\
  Logger.log_all Logger.SampleMeta Logger.sample_truthy
    Logger.sample_stringify Logger.sample_spread
    (Logger.forModule "ConsensusEngine" (Some Logger.L_info))
    [(Logger.L_debug, "t1", "stake", Some (Logger.meta_bigint 5));
     (Logger.L_warn, "t2", "late", None)]
  = ([Logger.console_warn
        (Logger.formatMessage
           (Logger.forModule "ConsensusEngine" (Some Logger.L_info))
           "t2" Logger.L_warn "late" None)],
     Returns tt) /\
  snd (Logger.debug Logger.SampleMeta Logger.sample_truthy
         Logger.sample_stringify
         (Logger.forModule "ConsensusEngine" (Some Logger.L_debug))
         "t1" "stake" (Some (Logger.meta_bigint 0)))
  = Returns tt.
Proof. repeat split. Qed.

(** X19.  The level cannot silence errors: at every level of the logger a
    call of [error] makes exactly one [console.error] call and returns,
    unless building or serialising its meta throws (as [JSON.stringify]
    does on a bigint or a cyclic structure); then the call throws the same
    and prints nothing. *)
Theorem errors_are_always_logged
  (Meta : Type) (truthy_meta : Meta -> bool)
  (JSON_stringify : Meta -> outcome string)
  (spread_error : option Meta -> Logger.ErrorObject -> outcome Meta)
  (lg : Logger.t) (timestamp message : string)
  (err : option Logger.ErrorObject) (meta : option Meta) :
  Logger.error Meta truthy_meta JSON_stringify spread_error
    lg timestamp message err meta
  = match Logger.errorMeta_of Meta spread_error err meta with
    | Returns errorMeta =>
        match Logger.serialise Meta truthy_meta JSON_stringify errorMeta with
        | Returns json =>
            ([Logger.console_error
                (Logger.formatMessage lg timestamp Logger.L_error message
                   json)],
             Returns tt)
        | Throws e => ([], Throws e)
        end
    | Throws e => ([], Throws e)
    end.
Proof.
  unfold Logger.error, Logger.shouldLog, Logger.formatMessage_of.
  destruct lg as [[] ctx]; cbn [Logger.level Logger.LOG_LEVELS Z.geb Z.compare];
    destruct (Logger.errorMeta_of Meta spread_error err meta) as [v|e];
    try reflexivity;
    destruct (Logger.serialise Meta truthy_meta JSON_stringify v);
    reflexivity.
Qed.

(** An error logged at level error with a bigint as meta and no error
    object throws; with an error object the spread drops the bigint and the
    call prints. *)
Example error_with_unserialisable_meta :
  Logger.error Logger.SampleMeta Logger.sample_truthy
    Logger.sample_stringify Logger.sample_spread
    (Logger.forModule "ConsensusEngine" (Some Logger.L_error))
    "t1" "Error in consensus loop" None (Some (Logger.meta_bigint 7))
  = ([], Throws "TypeError: Do not know how to serialize a BigInt") /\
  exists text,
    Logger.error Logger.SampleMeta Logger.sample_truthy
      Logger.sample_stringify Logger.sample_spread
      (Logger.forModule "ConsensusEngine" (Some Logger.L_error))
      "t1" "Error in consensus loop"
      (Some {| Logger.err_name := "Error";
               Logger.err_message := "failed";
               Logger.err_stack := "" |})
      (Some (Logger.meta_bigint 7))
    = ([Logger.console_error text], Returns tt).
Proof. split; [reflexivity|]. eexists. reflexivity. Qed.

(** X20.  [group] runs its callback only at level debug: at any other level
    the callback is not run and nothing is printed; at level debug the
    callback runs once, and when it throws the console group that was
    opened is not closed and the error propagates. *)
Theorem group_runs_callback_only_at_debug (W : Type) (lg : Logger.t)
  (timestamp label : string) (fn : W -> W * outcome unit) (w : W) :
  (Logger.level lg <> Logger.L_debug ->
   Logger.group lg timestamp label fn w = (w, [], Returns tt)) /\
  (Logger.level lg = Logger.L_debug ->
   fst (fst (Logger.group lg timestamp label fn w)) = fst (fn w) /\
   (forall e, snd (fn w) = Throws e ->
      snd (Logger.group lg timestamp label fn w) = Throws e /\
      ~ In Logger.console_groupEnd
          (snd (fst (Logger.group lg timestamp label fn w)))) /\
   (forall u, snd (fn w) = Returns u ->
      exists text,
        snd (fst (Logger.group lg timestamp label fn w))
        = [Logger.console_group text; Logger.console_groupEnd])).
Proof.
  unfold Logger.group, Logger.shouldLog. split.
  - intro Hl. destruct lg as [[] ctx]; cbn in *;
      solve [congruence | reflexivity].
  - intro Hl. rewrite Hl. cbn [Logger.LOG_LEVELS Z.geb Z.compare].
    destruct (fn w) as [w' [u|e]]; cbn [fst snd]; split; try reflexivity;
      split.
    + intros e He. discriminate He.
    + intros u' _. eexists. reflexivity.
    + intros e' He. injection He as <-. split; [reflexivity|].
      intros [H|[]]. discriminate H.
    + intros u He. discriminate He.
Qed.

Lemma group_runs_callback_only_at_debug_witness :
  (Logger.level (Logger.forModule "ConsensusEngine" None) <> Logger.L_debug /\
   Logger.group (Logger.forModule "ConsensusEngine" None) "t" "epoch"
     (fun n : nat => (S n, Returns tt)) 0%nat
   = (0%nat, [], Returns tt)) /\
  (Logger.level (Logger.forModule "ConsensusEngine" (Some Logger.L_debug))
   = Logger.L_debug /\
   fst (fst (Logger.group
               (Logger.forModule "ConsensusEngine" (Some Logger.L_debug))
               "t" "epoch" (fun n : nat => (S n, Throws "failed")) 0%nat))
   = 1%nat /\
   snd (Logger.group
          (Logger.forModule "ConsensusEngine" (Some Logger.L_debug))
          "t" "epoch" (fun n : nat => (S n, Throws "failed")) 0%nat)
   = Throws "failed").
Proof.
  assert (Hl : Logger.level (Logger.forModule "ConsensusEngine" None)
               <> Logger.L_debug) by discriminate.
  split.
  - split; [exact Hl|].
    exact (proj1 (group_runs_callback_only_at_debug nat
                    (Logger.forModule "ConsensusEngine" None) "t" "epoch"
                    (fun n : nat => (S n, Returns tt)) 0%nat) Hl).
  - split; [reflexivity|].
    pose proof (proj2 (group_runs_callback_only_at_debug nat
                         (Logger.forModule "ConsensusEngine"
                            (Some Logger.L_debug)) "t" "epoch"
                         (fun n : nat => (S n, Throws "failed")) 0%nat)
                  eq_refl) as (Hw & Hthrow & _).
    split; [exact Hw|].
    exact (proj1 (Hthrow "failed" eq_refl)).
Defined.

(** X21.  [time] runs its callback at every level: the state and the result
    or error of the callback are passed through unchanged, and the console
    calls it makes are none (below debug) or a [console.time] followed by
    its [console.timeEnd] (at debug), also when the callback throws. *)
Theorem time_always_runs_callback (W T : Type) (lg : Logger.t)
  (label : string) (fn : W -> W * outcome T) (w : W) :
  (fst (fst (Logger.time lg label fn w)), snd (Logger.time lg label fn w))
  = fn w /\
  snd (fst (Logger.time lg label fn w))
  = (if Logger.shouldLog lg Logger.L_debug
     then [Logger.console_time label; Logger.console_timeEnd label]
     else []).
Proof.
  unfold Logger.time.
  destruct (Logger.shouldLog lg Logger.L_debug); cbn [negb];
    destruct (fn w) as [w' [x|e]]; split; reflexivity.
Qed.

(** ** One proposer per slot *)

Module TickFacts.

Lemma Permutation_filter_ (A : Type) (f : A -> bool) (l l' : list A) :
  Permutation l l' -> Permutation (filter f l) (filter f l').
Proof.
  induction 1 as [|x l l' _ IH|x y l|l l' l'' _ IH1 _ IH2]; simpl.
  - constructor.
  - destruct (f x); [apply perm_skip|]; exact IH.
  - destruct (f x), (f y);
      solve [apply perm_swap | apply Permutation_refl].
  - eapply Permutation_trans; eassumption.
Qed.

End TickFacts.

(** X22.  For a registry that is not empty and a time [now >= 0] there is
    exactly one proposer id per slot: a registered participant [p] such
    that a process is the proposer if and only if its node id is the id of
    [p].  Two processes with different node ids and the same registry never
    both consider themselves proposer of a slot. *)
Theorem one_proposer_id_per_slot (e : ConsensusEngine) (now : Z) :
  JSMap.size (nodes e) <> 0%nat ->
  0 <= now ->
  exists p,
    In p (JSMap.values (nodes e)) /\
    forall mesh,
      isProposer e mesh now = Returns true <-> getNodeId mesh = id p.
Proof.
  intros Hsize Hnow.
  pose proof (RotationFacts.slotProposer_nth (nodes e) now Hsize Hnow) as Hnth.
  destruct (SelectionFacts.slot_of_nonneg now (JSMap.size (nodes e)) Hsize
              Hnow) as [_ Hbound].
  destruct (nth_error (sortedNodes (nodes e))
              (Z.to_nat ((now / 1000) mod Z.of_nat (JSMap.size (nodes e)))))
    as [p|] eqn:E.
  - exists p. split.
    + apply RotationFacts.In_sortedNodes. eapply nth_error_In. exact E.
    + intro mesh. unfold isProposer. rewrite Hnth. split.
      * intro H. injection H as H. apply String.eqb_eq in H. congruence.
      * intro H. rewrite H, String.eqb_refl. reflexivity.
  - exfalso. apply nth_error_None in E.
    rewrite RotationFacts.sortedNodes_length in E. lia.
Qed.

Lemma one_proposer_id_per_slot_witness :
  JSMap.size
    (nodes {| nodes := registry_123; currentBlock := None;
              blockHeight := Finite 0 |}) <> 0%nat /\
  0 <= 7000 /\
  exists p,
    In p (JSMap.values registry_123) /\
    forall mesh,
      isProposer {| nodes := registry_123; currentBlock := None;
                    blockHeight := Finite 0 |} mesh 7000 = Returns true
      <-> getNodeId mesh = id p.
Proof.
  assert (Hsize : JSMap.size
                    (nodes {| nodes := registry_123; currentBlock := None;
                              blockHeight := Finite 0 |}) <> 0%nat)
    by discriminate.
  assert (Hnow : 0 <= 7000) by discriminate.
  split; [exact Hsize|]. split; [exact Hnow|].
  exact (one_proposer_id_per_slot
           {| nodes := registry_123; currentBlock := None;
              blockHeight := Finite 0 |} 7000 Hsize Hnow).
Defined.

(** X23.  A tick proposes only for the selected participant: every block a
    consensus tick hands to [broadcastBlock] names as proposer the local
    node id, which is the id of the participant selected for the slot, and
    has the height [blockHeight + 1]; a tick hands over at most one block,
    and none on an empty registry. *)
Theorem tick_proposes_only_for_selected (e : ConsensusEngine)
  (mesh : NeuralMesh) (broadcastBlock : ConsensusBlock -> outcome unit)
  (now : Z) :
  (List.length (tick_broadcast (consensusTick e mesh broadcastBlock now))
   <= 1)%nat /\
  forall block,
    In block (tick_broadcast (consensusTick e mesh broadcastBlock now)) ->
    exists p,
      slotProposer (nodes e) now = Some p /\
      In p (JSMap.values (nodes e)) /\
      proposer block = id p /\
      getNodeId mesh = id p /\
      height block = (blockHeight e + Finite 1)%num.
Proof.
  unfold consensusTick, isProposer.
  destruct (slotProposer (nodes e) now) as [p|] eqn:Ep;
    [|split; [cbn; lia | intros block []]].
  destruct (String.eqb (id p) (getNodeId mesh)) eqn:Eid;
    [|split; [cbn; lia | intros block []]].
  apply String.eqb_eq in Eid.
  assert (Hin : In p (JSMap.values (nodes e))).
  { unfold slotProposer, JSArray.get in Ep.
    destruct (slot_of now (JSMap.size (nodes e))) as [z|]; [|discriminate].
    destruct (z <? 0)%Z; [discriminate|].
    apply RotationFacts.In_sortedNodes. eapply nth_error_In. exact Ep. }
  unfold proposeBlock.
  destruct (computeStateRoot mesh) as [root|err];
    [|split; [cbn; lia | intros block []]].
  match goal with
  | |- context [broadcastBlock ?b] => destruct (broadcastBlock b)
  end;
    (split; [cbn; lia|]);
    intros block [<-|[]]; exists p; cbn [proposer height];
    repeat split; solve [assumption | congruence | reflexivity].
Qed.

Lemma tick_proposes_only_for_selected_witness :
  let e := {| nodes := registry_123; currentBlock := None;
              blockHeight := Finite 0 |} in
  let mesh := {| getNodeId := "P2"; computeStateRoot := Returns "root";
                 computeConsensus := Returns "consensus" |} in
  exists block,
    tick_broadcast (consensusTick e mesh (fun _ => Returns tt) 7000)
    = [block] /\
    exists p,
      slotProposer (nodes e) 7000 = Some p /\
      In p (JSMap.values (nodes e)) /\
      proposer block = id p /\
      getNodeId mesh = id p /\
      height block = (blockHeight e + Finite 1)%num.
Proof.
  eexists. split; [reflexivity|].
  apply (proj2 (tick_proposes_only_for_selected
                  {| nodes := registry_123; currentBlock := None;
                     blockHeight := Finite 0 |}
                  {| getNodeId := "P2"; computeStateRoot := Returns "root";
                     computeConsensus := Returns "consensus" |}
                  (fun _ => Returns tt) 7000)).
  left. reflexivity.
Defined.

(** X24.  Total stake, priorities and consensus health do not depend on the
    insertion order of the participant map. *)
Theorem stake_figures_ignore_insertion_order (m m' : NodeMap) :
  Permutation m m' ->
  getTotalStake m' = getTotalStake m /\
  (forall node, calculatePriority m' node = calculatePriority m node) /\
  calculateConsensusHealth m' = calculateConsensusHealth m.
Proof.
  intro Hperm.
  assert (Hvals : Permutation (JSMap.values m) (JSMap.values m'))
    by (apply Permutation_map; exact Hperm).
  assert (Ht : getTotalStake m' = getTotalStake m).
  { unfold getTotalStake. symmetry.
    apply SelectionFacts.getTotalStake_perm. exact Hvals. }
  split; [exact Ht|]. split.
  - intro node. unfold calculatePriority. rewrite Ht. reflexivity.
  - unfold calculateConsensusHealth. rewrite Ht. f_equal. f_equal.
    symmetry. apply SelectionFacts.getTotalStake_perm.
    apply TickFacts.Permutation_filter_. exact Hvals.
Qed.

Lemma stake_figures_ignore_insertion_order_witness :
  Permutation registry_ab registry_ba /\
  getTotalStake registry_ba = getTotalStake registry_ab /\
  (forall node,
     calculatePriority registry_ba node = calculatePriority registry_ab node)
  /\ calculateConsensusHealth registry_ba
     = calculateConsensusHealth registry_ab.
Proof.
  assert (Hperm : Permutation registry_ab registry_ba) by apply perm_swap.
  split; [exact Hperm|].
  exact (stake_figures_ignore_insertion_order registry_ab registry_ba Hperm).
Defined.

(* ================================================================== *)
(** * Part IV: the engine's arithmetic in binary64                      *)
(* ================================================================== *)

(** ** Rounding never loses the sign *)

Module RoundingFacts.
Import SpecFloat Binary64.

Lemma fexp_eq (z : Z) : fexp prec emax z = Z.max (z - 53) (-1074).
Proof. reflexivity. Qed.

Lemma digits2_pos_lower (p : positive) :
  2 ^ (Zpos (digits2_pos p) - 1) <= Zpos p.
Proof.
  induction p as [p IH|p IH|]; cbn [digits2_pos].
  - pose proof (Pos2Z.inj_xI p) as Hp. rewrite Pos2Z.inj_succ.
    replace (Z.succ (Zpos (digits2_pos p)) - 1)
      with ((Zpos (digits2_pos p) - 1) + 1) by lia.
    rewrite Z.pow_add_r by lia. lia.
  - pose proof (Pos2Z.inj_xO p) as Hp. rewrite Pos2Z.inj_succ.
    replace (Z.succ (Zpos (digits2_pos p)) - 1)
      with ((Zpos (digits2_pos p) - 1) + 1) by lia.
    rewrite Z.pow_add_r by lia. lia.
  - reflexivity.
Qed.

Lemma shr_m_shr_1 (mrs : shr_record) :
  0 <= shr_m mrs -> shr_m (shr_1 mrs) = shr_m mrs / 2.
Proof.
  destruct mrs as [m r s]. cbn [shr_m]. intro Hm.
  destruct m as [|[p|p|]|p]; cbn [shr_1 shr_m]; try lia.
  - reflexivity.
  - pose proof (Pos2Z.inj_xI p) as Hp.
    apply (Z.div_unique _ _ _ 1); lia.
  - pose proof (Pos2Z.inj_xO p) as Hp.
    apply (Z.div_unique _ _ _ 0); lia.
  - reflexivity.
Qed.

Lemma shr_m_iter (n : positive) :
  forall mrs,
    0 <= shr_m mrs ->
    shr_m (iter_pos shr_1 n mrs) = shr_m mrs / 2 ^ Zpos n.
Proof.
  induction n as [n IH|n IH|]; intros mrs Hm; cbn [iter_pos].
  - assert (H1 : 0 <= shr_m (shr_1 mrs))
      by (rewrite shr_m_shr_1 by exact Hm; apply Z.div_pos; lia).
    assert (H2 : 0 <= shr_m (iter_pos shr_1 n (shr_1 mrs)))
      by (rewrite IH by exact H1; apply Z.div_pos; lia).
    rewrite IH by exact H2. rewrite IH by exact H1.
    rewrite shr_m_shr_1 by exact Hm.
    rewrite !Z.div_div by lia. f_equal.
    replace (Zpos n~1) with (1 + Zpos n + Zpos n) by lia.
    rewrite !Z.pow_add_r by lia. lia.
  - assert (H1 : 0 <= shr_m (iter_pos shr_1 n mrs))
      by (rewrite IH by exact Hm; apply Z.div_pos; lia).
    rewrite IH by exact H1. rewrite IH by exact Hm.
    rewrite Z.div_div by lia. f_equal.
    replace (Zpos n~0) with (Zpos n + Zpos n) by lia.
    rewrite Z.pow_add_r by lia. reflexivity.
  - rewrite shr_m_shr_1 by exact Hm. reflexivity.
Qed.

Lemma shr_m_of_loc (m : Z) (l : location) :
  shr_m (shr_record_of_loc m l) = m.
Proof. destruct l as [|[]]; reflexivity. Qed.

(** After the shift to the exponent of the format, the exponent is in
    range; and a positive mantissa stays positive when the exponent was in
    range before. *)
Lemma shr_fexp_exponent (m e : Z) (l : location) :
  -1074 <= snd (shr_fexp prec emax m e l).
Proof.
  unfold shr_fexp, shr. rewrite fexp_eq.
  destruct (Z.max (Zdigits2 m + e - 53) (-1074) - e) as [|q|q] eqn:E;
    cbn [snd]; lia.
Qed.

Lemma shr_fexp_positive (p : positive) (e : Z) (l : location) :
  -1074 <= e ->
  1 <= shr_m (fst (shr_fexp prec emax (Zpos p) e l)).
Proof.
  intro He. unfold shr_fexp, shr. rewrite fexp_eq. cbn [Zdigits2].
  destruct (Z.max (Zpos (digits2_pos p) + e - 53) (-1074) - e)
    as [|q|q] eqn:E; cbn [fst].
  - rewrite shr_m_of_loc. lia.
  - rewrite shr_m_iter by (rewrite shr_m_of_loc; lia).
    rewrite shr_m_of_loc.
    pose proof (digits2_pos_lower p) as Hd.
    apply Z.div_le_lower_bound; [apply Z.pow_pos_nonneg; lia|].
    rewrite Z.mul_1_r.
    apply Z.le_trans with (2 ^ (Zpos (digits2_pos p) - 1)); [|exact Hd].
    apply Z.pow_le_mono_r; lia.
  - rewrite shr_m_of_loc. lia.
Qed.

Lemma round_nearest_even_ge (m : Z) (l : location) :
  m <= round_nearest_even m l.
Proof.
  destruct l as [|[]]; cbn [round_nearest_even]; try lia.
  destruct (Z.even m); lia.
Qed.

(** The result of a rounding is zero, an infinity or in range. *)
Lemma binary_round_aux_exponent (s : bool) (m e : Z) (l : location) :
  exponent_ok (binary_round_aux prec emax s m e l).
Proof.
  unfold binary_round_aux.
  destruct (shr_fexp prec emax m e l) as [mrs1 e1].
  pose proof (shr_fexp_exponent
                (round_nearest_even (shr_m mrs1) (loc_of_shr_record mrs1))
                e1 loc_Exact) as H2.
  destruct (shr_fexp prec emax
              (round_nearest_even (shr_m mrs1) (loc_of_shr_record mrs1))
              e1 loc_Exact) as [mrs2 e2].
  cbn [snd] in H2.
  destruct (shr_m mrs2); cbn [exponent_ok]; [exact I| |exact I].
  destruct (e2 <=? emax - prec)%Z; cbn [exponent_ok]; [exact H2 | exact I].
Qed.

(** The rounding of a positive mantissa with an exponent in range is a
    finite number or an infinity of the sign given: never zero, never
    NaN. *)
Lemma binary_round_aux_sign (s : bool) (p : positive) (e : Z) (l : location) :
  -1074 <= e ->
  match binary_round_aux prec emax s (Zpos p) e l with
  | S754_finite s' _ _ | S754_infinity s' => s' = s
  | _ => False
  end.
Proof.
  intro He. unfold binary_round_aux.
  pose proof (shr_fexp_positive p e l He) as H1.
  pose proof (shr_fexp_exponent (Zpos p) e l) as He1.
  destruct (shr_fexp prec emax (Zpos p) e l) as [mrs1 e1].
  cbn [fst snd] in H1, He1.
  pose proof (round_nearest_even_ge (shr_m mrs1) (loc_of_shr_record mrs1))
    as Hr.
  destruct (round_nearest_even (shr_m mrs1) (loc_of_shr_record mrs1))
    as [|p2|p2] eqn:E2; try lia.
  pose proof (shr_fexp_positive p2 e1 loc_Exact He1) as H2.
  destruct (shr_fexp prec emax (Zpos p2) e1 loc_Exact) as [mrs2 e2].
  cbn [fst] in H2.
  destruct (shr_m mrs2) as [|p3|p3]; try lia.
  destruct (e2 <=? emax - prec)%Z; reflexivity.
Qed.

Lemma shl_align_exponent (m : positive) (e e' : Z) :
  -1074 <= e -> -1074 <= e' -> -1074 <= snd (shl_align m e e').
Proof.
  intros He He'. unfold shl_align. destruct (e' - e); cbn [snd]; lia.
Qed.

Lemma binary_round_sign (s : bool) (p : positive) (e : Z) :
  -1074 <= e ->
  match binary_round prec emax s p e with
  | S754_finite s' _ _ | S754_infinity s' => s' = s
  | _ => False
  end.
Proof.
  intro He. unfold binary_round.
  pose proof (shl_align_exponent p e
                (fexp prec emax (Zpos (digits2_pos p) + e)) He) as Hs.
  destruct (shl_align p e (fexp prec emax (Zpos (digits2_pos p) + e)))
    as [mz ez].
  cbn [snd] in Hs. apply binary_round_aux_sign. apply Hs.
  rewrite fexp_eq. lia.
Qed.

Lemma binary_round_exponent (s : bool) (p : positive) (e : Z) :
  exponent_ok (binary_round prec emax s p e).
Proof.
  unfold binary_round.
  destruct (shl_align p e (fexp prec emax (Zpos (digits2_pos p) + e))).
  apply binary_round_aux_exponent.
Qed.

Lemma binary_normalize_exponent (m e : Z) (szero : bool) :
  exponent_ok (binary_normalize prec emax m e szero).
Proof.
  destruct m; cbn [binary_normalize]; try apply binary_round_exponent.
  exact I.
Qed.

End RoundingFacts.

(** ** The sign of a difference of doubles *)

Module Binary64Facts.
Import SpecFloat Binary64 RoundingFacts.

Lemma two_power_positive (e : Z) : (0 < 2 ^ e)%Q.
Proof. apply Qpower_0_lt. reflexivity. Qed.

Lemma value_signed (s : bool) (m : positive) (e : Z) :
  (Binary64.value (S754_finite s m e)
   == inject_Z (cond_Zopp s (Zpos m)) * 2 ^ e)%Q.
Proof.
  unfold Binary64.value, cond_Zopp. destruct s; [|reflexivity].
  rewrite inject_Z_opp. reflexivity.
Qed.

Lemma value_positive (m : positive) (e : Z) :
  (0 < Binary64.value (S754_finite false m e))%Q.
Proof.
  unfold Binary64.value.
  apply Qmult_lt_0_compat; [reflexivity | apply two_power_positive].
Qed.

Lemma value_negative (m : positive) (e : Z) :
  (Binary64.value (S754_finite true m e) < 0)%Q.
Proof.
  pose proof (value_positive m e) as H. unfold Binary64.value in *.
  set (v := inject_Z (Zpos m)) in *. set (p := (2 ^ e)%Q) in *. lra.
Qed.

Lemma iter_xO (d m : positive) :
  Zpos (Pos.iter xO m d) = Zpos m * 2 ^ Zpos d.
Proof.
  induction d as [|d IH] using Pos.peano_ind.
  - cbn [Pos.iter]. change (2 ^ 1) with 2. lia.
  - rewrite Pos.iter_succ, Pos2Z.inj_succ, Z.pow_succ_r by lia.
    pose proof (Pos2Z.inj_xO (Pos.iter xO m d)) as H. lia.
Qed.

Lemma shl_align_mantissa (m : positive) (e ez : Z) :
  ez <= e -> Zpos (fst (shl_align m e ez)) = Zpos m * 2 ^ (e - ez).
Proof.
  intro H. unfold shl_align. destruct (ez - e) as [|d|d] eqn:E; cbn [fst].
  - replace (e - ez) with 0 by lia. rewrite Z.pow_0_r. lia.
  - lia.
  - rewrite iter_xO. replace (e - ez) with (Zpos d) by lia. reflexivity.
Qed.

(** A finite double on a smaller exponent. *)
Lemma value_aligned (s : bool) (m : positive) (e ez : Z) :
  ez <= e ->
  (Binary64.value (S754_finite s m e)
   == inject_Z (cond_Zopp s (Zpos (fst (shl_align m e ez)))) * 2 ^ ez)%Q.
Proof.
  intro H. rewrite value_signed, (shl_align_mantissa m e ez H).
  replace (cond_Zopp s (Zpos m * 2 ^ (e - ez)))
    with (cond_Zopp s (Zpos m) * 2 ^ (e - ez))
    by (destruct s; unfold cond_Zopp; ring).
  rewrite inject_Z_mult, Zpower_Qpower by lia.
  change (inject_Z 2) with 2%Q.
  replace e with ((e - ez) + ez) at 1 by lia.
  rewrite Qpower_plus by discriminate.
  ring.
Qed.

(** The difference of two finite doubles, before it is rounded. *)
Lemma difference_aligned (sx sy : bool) (mx my : positive) (ex ey : Z) :
  (Binary64.value (S754_finite sy my ey)
   - Binary64.value (S754_finite sx mx ex)
   == inject_Z
        (cond_Zopp sy (Zpos (fst (shl_align my ey (Z.min ey ex))))
         - cond_Zopp sx (Zpos (fst (shl_align mx ex (Z.min ey ex)))))
      * 2 ^ Z.min ey ex)%Q.
Proof.
  rewrite (value_aligned sy my ey (Z.min ey ex)) by lia.
  rewrite (value_aligned sx mx ex (Z.min ey ex)) by lia.
  unfold Z.sub. rewrite inject_Z_plus, inject_Z_opp. ring.
Qed.

Lemma gtb_zero_of_normalize (d e : Z) :
  -1074 <= e ->
  JSNumber.gtb (to_number (binary_normalize prec emax d e false)) (Finite 0)
  = (0 <? d)%Z.
Proof.
  intro He. destruct d as [|p|p]; cbn [binary_normalize].
  - reflexivity.
  - pose proof (binary_round_sign false p e He) as H.
    destruct (binary_round prec emax false p e) as [s|s| |s m' e'];
      try contradiction; subst s.
    + reflexivity.
    + cbn [to_number]. unfold JSNumber.gtb.
      apply JSNumberFacts.ltb_Finite_true. apply value_positive.
  - pose proof (binary_round_sign true p e He) as H.
    destruct (binary_round prec emax true p e) as [s|s| |s m' e'];
      try contradiction; subst s.
    + reflexivity.
    + cbn [to_number]. unfold JSNumber.gtb.
      apply JSNumberFacts.ltb_Finite_false.
      apply Qlt_le_weak. apply value_negative.
Qed.

(** The subtraction of finite doubles never loses the sign of the exact
    difference: [y - x > 0] exactly when [x < y].  (A difference too small
    for a normal double is a subnormal one, not zero.) *)
Lemma sub_sign (x y : float) :
  is_finite x = true -> is_finite y = true ->
  exponent_ok x -> exponent_ok y ->
  (JSNumber.gtb (to_number (sub y x)) (Finite 0) = true
   <-> (Binary64.value x < Binary64.value y)%Q).
Proof.
  intros Hx Hy Hex Hey.
  destruct x as [sx|sx| |sx mx ex]; try discriminate Hx;
    destruct y as [sy|sy| |sy my ey]; try discriminate Hy.
  - assert (E : to_number (sub (S754_zero sy) (S754_zero sx)) = Finite 0)
      by (destruct sx, sy; reflexivity).
    rewrite E. cbn. split; [discriminate | intro H; lra].
  - change (sub (S754_finite sy my ey) (S754_zero sx))
      with (S754_finite sy my ey).
    cbn [to_number]. unfold JSNumber.gtb.
    rewrite JSNumberFacts.ltb_Finite_true. reflexivity.
  - change (sub (S754_zero sy) (S754_finite sx mx ex))
      with (S754_finite (negb sx) mx ex).
    cbn [to_number]. unfold JSNumber.gtb.
    rewrite JSNumberFacts.ltb_Finite_true.
    change (Binary64.value (S754_zero sy)) with 0%Q.
    destruct sx; cbn [negb].
    + pose proof (value_positive mx ex). pose proof (value_negative mx ex).
      split; intro; assumption.
    + pose proof (value_positive mx ex). pose proof (value_negative mx ex).
      split; intro; lra.
  - cbn [exponent_ok] in Hex, Hey.
    change (sub (S754_finite sy my ey) (S754_finite sx mx ex))
      with (binary_normalize prec emax
              (cond_Zopp sy (Zpos (fst (shl_align my ey (Z.min ey ex))))
               - cond_Zopp sx (Zpos (fst (shl_align mx ex (Z.min ey ex)))))
              (Z.min ey ex) false).
    rewrite gtb_zero_of_normalize by lia.
    pose proof (difference_aligned sx sy mx my ex ey) as Hd.
    set (d := cond_Zopp sy (Zpos (fst (shl_align my ey (Z.min ey ex))))
              - cond_Zopp sx (Zpos (fst (shl_align mx ex (Z.min ey ex)))))
      in *.
    pose proof (two_power_positive (Z.min ey ex)) as Hp.
    set (p := (2 ^ Z.min ey ex)%Q) in *.
    set (vx := Binary64.value (S754_finite sx mx ex)) in *.
    set (vy := Binary64.value (S754_finite sy my ey)) in *.
    rewrite Z.ltb_lt. split; intro H.
    + assert (Hpos : (0 < inject_Z d * p)%Q).
      { apply Qmult_lt_0_compat; [|exact Hp].
        unfold Qlt. cbn [inject_Z Qnum Qden]. lia. }
      lra.
    + destruct (Z_lt_le_dec 0 d) as [Hlt|Hle]; [exact Hlt|exfalso].
      assert (Hnp : (inject_Z d * p <= 0)%Q).
      { assert (Hd0 : (inject_Z d <= 0)%Q)
          by (unfold Qle; cbn [inject_Z Qnum Qden]; lia).
        nra. }
      lra.
Qed.

(** Results of the operations have exponents in range. *)
Lemma mul_exponent (x y : float) : exponent_ok (mul x y).
Proof.
  destruct x, y; try exact I. apply binary_round_aux_exponent.
Qed.

Lemma add_exponent (x y : float) :
  exponent_ok x -> exponent_ok y -> exponent_ok (add x y).
Proof.
  intros Hx Hy.
  destruct x as [sx|sx| |sx mx ex], y as [sy|sy| |sy my ey];
    try exact I; try assumption.
  - destruct sx, sy; exact I.
  - destruct sx, sy; exact I.
  - apply binary_normalize_exponent.
Qed.

Lemma calculatePriority_exponent (m : NodeMap) (node : ConsensusNode) :
  exponent_ok (calculatePriority m node).
Proof.
  unfold calculatePriority. apply add_exponent; apply mul_exponent.
Qed.

(** The compare function of [isProposer] orders participants with finite
    priorities by descending priority. *)
Lemma comparefn_sign (m : NodeMap) (x y : ConsensusNode) :
  is_finite (calculatePriority m x) = true ->
  is_finite (calculatePriority m y) = true ->
  (JSArray.sorts_after
     (fun a b =>
        to_number (sub (calculatePriority m b) (calculatePriority m a))) x y
   = true
   <-> (Binary64.value (calculatePriority m x)
        < Binary64.value (calculatePriority m y))%Q).
Proof.
  intros Hx Hy. unfold JSArray.sorts_after.
  apply sub_sign; try assumption; apply calculatePriority_exponent.
Qed.

Lemma fold_stake_from (l : list ConsensusNode) :
  forall z,
    fold_left (fun total node => total + stake node) l z
    = z + fold_left (fun total node => total + stake node) l 0.
Proof.
  induction l as [|x l IH]; intro z; cbn [fold_left]; [lia|].
  rewrite (IH (z + stake x)), (IH (0 + stake x)). lia.
Qed.

(** The total stake does not depend on the insertion order. *)
Lemma total_stake_perm (l l' : list ConsensusNode) :
  Permutation l l' ->
  fold_left (fun total node => total + stake node) l 0
  = fold_left (fun total node => total + stake node) l' 0.
Proof.
  induction 1 as [|x l l' _ IH|x y l|l l' l'' _ IH1 _ IH2]; cbn [fold_left].
  - reflexivity.
  - rewrite (fold_stake_from l), (fold_stake_from l'), IH. reflexivity.
  - rewrite (fold_stake_from l (0 + stake y + stake x)).
    rewrite (fold_stake_from l (0 + stake x + stake y)). lia.
  - congruence.
Qed.

End Binary64Facts.


(** ** The selection of the proposer *)

(** C1, amended.  For a registry that is not empty and in which every
    priority [0.6 * (stake / totalStake) + 0.4 * reputation], computed in
    binary64 as the code computes it, is a finite number (neither NaN nor
    an infinity), and for every time [now >= 0] (slot
    [s = floor(now / 1000)]): a participant is selected, and it is the one
    at index [s mod N] of [sortedNodes], which is a permutation of the
    participants, sorted by descending computed priority, in which
    participants of equal computed priority keep the insertion order of the
    map (there is no tie-break by [id]).  The selection is a function of
    the snapshot; it does not depend on the insertion order as soon as no
    two participants have the same computed priority. *)
Theorem proposer_selection (m : Binary64.NodeMap) (now : Z) :
  JSMap.size m <> 0%nat ->
  Forall (fun node =>
            Binary64.is_finite (Binary64.calculatePriority m node) = true)
    (JSMap.values m) ->
  0 <= now ->
  (exists p,
     Binary64.slotProposer m now = Some p /\
     nth_error (Binary64.sortedNodes m)
       (Z.to_nat ((now / 1000) mod Z.of_nat (JSMap.size m))) = Some p) /\
  Permutation (Binary64.sortedNodes m) (JSMap.values m) /\
  StronglySorted
    (fun a b =>
       (Binary64.value (Binary64.calculatePriority m b)
        <= Binary64.value (Binary64.calculatePriority m a))%Q)
    (Binary64.sortedNodes m) /\
  (forall node,
     Binary64.calculatePriority m node
     = Binary64.add
         (Binary64.mul
            (Binary64.div (Binary64.Number (Binary64.stake node))
               (Binary64.Number (Binary64.getTotalStake m)))
            Binary64.lit_0_6)
         (Binary64.mul (Binary64.reputation node) Binary64.lit_0_4)) /\
  (forall q : Q,
     filter (fun node =>
               Qeq_bool (Binary64.value (Binary64.calculatePriority m node)) q)
       (Binary64.sortedNodes m)
     = filter (fun node =>
                 Qeq_bool (Binary64.value (Binary64.calculatePriority m node))
                   q)
         (JSMap.values m)) /\
  (forall m' : Binary64.NodeMap,
     Permutation m m' ->
     (forall a b, In a (JSMap.values m) -> In b (JSMap.values m) ->
        (Binary64.value (Binary64.calculatePriority m a)
         == Binary64.value (Binary64.calculatePriority m b))%Q -> a = b) ->
     Binary64.slotProposer m' now = Binary64.slotProposer m now).
Proof.
  intros Hsize Hfin Hnow.
  set (cmp := fun a b : Binary64.ConsensusNode =>
                Binary64.to_number
                  (Binary64.sub (Binary64.calculatePriority m b)
                     (Binary64.calculatePriority m a))).
  set (rank := fun node =>
                 Binary64.value (Binary64.calculatePriority m node)).
  set (P := fun node =>
              Binary64.is_finite (Binary64.calculatePriority m node) = true).
  assert (Hcmp : forall x y, P x -> P y ->
            (JSArray.sorts_after cmp x y = true <-> (rank x < rank y)%Q)).
  { intros x y Hx Hy. apply Binary64Facts.comparefn_sign; assumption. }
  assert (Hperm : Permutation (Binary64.sortedNodes m) (JSMap.values m))
    by apply JSArrayFacts.sort_perm.
  assert (Hsorted : StronglySorted (fun a b => (rank b <= rank a)%Q)
                      (Binary64.sortedNodes m)).
  { apply (JSArrayFacts.sort_sorted cmp rank P Hcmp). exact Hfin. }
  split; [|split; [exact Hperm|split; [exact Hsorted|split; [|split]]]].
  - destruct (SelectionFacts.slot_of_nonneg now (JSMap.size m) Hsize Hnow)
      as [Hslot Hbound].
    unfold Binary64.slotProposer. rewrite Hslot. unfold JSArray.get.
    destruct (Z.ltb_spec ((now / 1000) mod Z.of_nat (JSMap.size m)) 0)
      as [Hneg|_]; [lia|].
    destruct (nth_error (Binary64.sortedNodes m)
                (Z.to_nat ((now / 1000) mod Z.of_nat (JSMap.size m))))
      as [p|] eqn:E.
    + exists p. split; reflexivity.
    + apply nth_error_None in E.
      unfold Binary64.sortedNodes in E.
      rewrite JSArrayFacts.sort_length in E.
      unfold JSMap.values in E. rewrite length_map in E.
      unfold JSMap.size in *. lia.
  - intro node. reflexivity.
  - intro q. apply (JSArrayFacts.sort_stable cmp rank P Hcmp). exact Hfin.
  - intros m' Hmm' Hdistinct.
    assert (Hvals : Permutation (JSMap.values m) (JSMap.values m'))
      by (apply Permutation_map; exact Hmm').
    assert (Ht' : Binary64.getTotalStake m' = Binary64.getTotalStake m).
    { unfold Binary64.getTotalStake. symmetry.
      apply Binary64Facts.total_stake_perm. exact Hvals. }
    assert (Hprio : forall node,
              Binary64.calculatePriority m' node
              = Binary64.calculatePriority m node).
    { intro node. unfold Binary64.calculatePriority. rewrite Ht'.
      reflexivity. }
    assert (Hsize' : JSMap.size m' = JSMap.size m).
    { unfold JSMap.size. symmetry. apply Permutation_length. exact Hmm'. }
    assert (Hsort' : Binary64.sortedNodes m'
                     = JSArray.sort cmp (JSMap.values m')).
    { unfold Binary64.sortedNodes, cmp. apply JSArrayFacts.sort_ext.
      intros a b. rewrite !Hprio. reflexivity. }
    unfold Binary64.slotProposer. rewrite Hsize'. f_equal.
    rewrite Hsort'. symmetry.
    apply (SelectionFacts.sorted_perm_unique _
             (fun a b => (rank b <= rank a)%Q)).
    + exact Hsorted.
    + apply (JSArrayFacts.sort_sorted cmp rank P Hcmp).
      apply (Permutation_Forall Hvals). exact Hfin.
    + apply Permutation_trans with (JSMap.values m); [exact Hperm|].
      apply Permutation_trans with (JSMap.values m'); [exact Hvals|].
      apply Permutation_sym. apply JSArrayFacts.sort_perm.
    + intros a b Ha Hb Hab Hba.
      apply Hdistinct.
      * apply (Permutation_in _ Hperm). exact Ha.
      * apply (Permutation_in _ Hperm). exact Hb.
      * apply Qle_antisym; assumption.
Qed.

Lemma proposer_selection_witness :
  JSMap.size Binary64.registry_123 <> 0%nat /\
  Forall (fun node =>
            Binary64.is_finite
              (Binary64.calculatePriority Binary64.registry_123 node) = true)
    (JSMap.values Binary64.registry_123) /\
  0 <= 7000 /\
  exists p,
    Binary64.slotProposer Binary64.registry_123 7000 = Some p /\
    nth_error (Binary64.sortedNodes Binary64.registry_123)
      (Z.to_nat ((7000 / 1000)
                 mod Z.of_nat (JSMap.size Binary64.registry_123)))
    = Some p.
Proof.
  assert (Hsize : JSMap.size Binary64.registry_123 <> 0%nat) by discriminate.
  assert (Hfin : Forall (fun node =>
                   Binary64.is_finite
                     (Binary64.calculatePriority Binary64.registry_123 node)
                   = true)
                   (JSMap.values Binary64.registry_123))
    by (repeat constructor).
  assert (Hnow : 0 <= 7000) by discriminate.
  split; [exact Hsize|]. split; [exact Hfin|]. split; [exact Hnow|].
  exact (proj1 (proposer_selection Binary64.registry_123 7000
                  Hsize Hfin Hnow)).
Defined.

(** The three participants in descending priority whatever the insertion
    order, and the proposers of slots 0 and 7. *)
Example selection_in_binary64 :
  Binary64.sortedNodes Binary64.registry_123
  = [Binary64.node_p3; Binary64.node_p2; Binary64.node_p1] /\
  Binary64.sortedNodes Binary64.registry_321
  = [Binary64.node_p3; Binary64.node_p2; Binary64.node_p1] /\
  Binary64.slotProposer Binary64.registry_123 0 = Some Binary64.node_p3 /\
  Binary64.slotProposer Binary64.registry_123 7000 = Some Binary64.node_p2.
Proof. vm_compute. repeat split. Qed.

(** Equal computed priorities: the participant registered first is sorted
    first, whatever its [id]. *)
Example ties_in_binary64 :
  Binary64.calculatePriority Binary64.registry_ba Binary64.node_a
  = Binary64.calculatePriority Binary64.registry_ba Binary64.node_b /\
  Binary64.slotProposer Binary64.registry_ba 0 = Some Binary64.node_b /\
  Binary64.slotProposer Binary64.registry_ab 0 = Some Binary64.node_a.
Proof. vm_compute. repeat split. Qed.

(** Rounding decides between priorities that are equal as rationals: stake
    2 of 3 with reputation 0 and stake 1 of 3 with reputation 0.5 are both
    0.4 exactly, but the doubles are 0.39999999999999997 and 0.4, and the
    participant registered second is sorted first. *)
Example rounding_separates_an_exact_tie :
  Binary64.calculatePriority Binary64.registry_two_one Binary64.node_two
  = SpecFloat.S754_finite false 7205759403792793 (-54) /\
  Binary64.calculatePriority Binary64.registry_two_one Binary64.node_one
  = SpecFloat.S754_finite false 7205759403792794 (-54) /\
  Binary64.sortedNodes Binary64.registry_two_one
  = [Binary64.node_one; Binary64.node_two] /\
  Binary64.slotProposer Binary64.registry_two_one 0
  = Some Binary64.node_one.
Proof. vm_compute. repeat split. Qed.

(** ** The error of one rounding *)

Module RoundingErrorFacts.
Import SpecFloat Binary64 RoundingFacts Binary64Facts.

Lemma round_nearest_even_le (m : Z) (l : location) :
  round_nearest_even m l <= m + 1.
Proof.
  destruct l as [|[]]; cbn [round_nearest_even]; try lia.
  destruct (Z.even m); lia.
Qed.

Lemma digits2_pos_upper (p : positive) :
  Zpos p < 2 ^ Zpos (digits2_pos p).
Proof.
  induction p as [p IH|p IH|]; cbn [digits2_pos].
  - pose proof (Pos2Z.inj_xI p) as Hp.
    rewrite Pos2Z.inj_succ, Z.pow_succ_r by lia. lia.
  - pose proof (Pos2Z.inj_xO p) as Hp.
    rewrite Pos2Z.inj_succ, Z.pow_succ_r by lia. lia.
  - reflexivity.
Qed.

Lemma digits_le (p : positive) (k : Z) :
  0 <= k -> Zpos p < 2 ^ k -> Zpos (digits2_pos p) <= k.
Proof.
  intros Hk Hp. pose proof (digits2_pos_lower p) as Hl.
  assert (H : 2 ^ (Zpos (digits2_pos p) - 1) < 2 ^ k) by lia.
  apply Z.pow_lt_mono_r_iff in H; lia.
Qed.

Lemma digits_gt (p : positive) (k : Z) :
  0 <= k -> 2 ^ k <= Zpos p -> k < Zpos (digits2_pos p).
Proof.
  intros Hk Hp. pose proof (digits2_pos_upper p) as Hu.
  assert (H : 2 ^ k < 2 ^ Zpos (digits2_pos p)) by lia.
  apply Z.pow_lt_mono_r_iff in H; lia.
Qed.

Lemma digits_iter_xO (j m : positive) :
  Zpos (digits2_pos (Pos.iter xO m j)) = Zpos (digits2_pos m) + Zpos j.
Proof.
  induction j as [|j IH] using Pos.peano_ind.
  - cbn [Pos.iter digits2_pos]. lia.
  - rewrite Pos.iter_succ. cbn [digits2_pos].
    rewrite !Pos2Z.inj_succ, IH. lia.
Qed.

(** What [binary_round_aux] returns on an exact value [p * 2^e] that does
    not overflow: the value itself when its exponent is the one of the
    format, and otherwise the truncated mantissa or its successor on the
    exponent of the format. *)
Lemma round_exact_shape (s : bool) (p : positive) (e : Z) :
  Zpos (digits2_pos p) + e <= 1023 ->
  (Z.max (Zpos (digits2_pos p) + e - 53) (-1074) <= e -> e <= 971 ->
   binary_round_aux prec emax s (Zpos p) e loc_Exact = S754_finite s p e) /\
  (e < Z.max (Zpos (digits2_pos p) + e - 53) (-1074) ->
   exists m2,
     Zpos p / 2 ^ (Z.max (Zpos (digits2_pos p) + e - 53) (-1074) - e) <= m2
     /\ m2 <= Zpos p / 2 ^ (Z.max (Zpos (digits2_pos p) + e - 53) (-1074) - e)
              + 1
     /\ m2 <= 2 ^ 53
     /\ binary_round_aux prec emax s (Zpos p) e loc_Exact
        = match m2 with
          | Zpos q =>
              if (m2 <? 2 ^ 53)%Z
              then S754_finite s q
                     (Z.max (Zpos (digits2_pos p) + e - 53) (-1074))
              else S754_finite s 4503599627370496
                     (Z.max (Zpos (digits2_pos p) + e - 53) (-1074) + 1)
          | _ => S754_zero s
          end).
Proof.
  intro Hk. set (d := Zpos (digits2_pos p)) in *.
  set (e1 := Z.max (d + e - 53) (-1074)) in *.
  split.
  - intros Hn He. unfold binary_round_aux, shr_fexp, shr.
    rewrite fexp_eq. cbn [Zdigits2]. fold d. fold e1.
    destruct (e1 - e) as [|n|n] eqn:En; try lia;
      cbn [shr_record_of_loc loc_of_shr_record shr_m round_nearest_even
           Zdigits2];
      rewrite fexp_eq; fold d; fold e1; rewrite En;
      cbn [shr_m];
      (destruct (Z.leb_spec e (emax - prec)) as [_|Hbad];
       [reflexivity | exfalso; unfold emax, prec in Hbad; lia]).
  - intro Hn. unfold binary_round_aux, shr_fexp, shr.
    rewrite fexp_eq. cbn [Zdigits2]. fold d. fold e1.
    destruct (e1 - e) as [|n|n] eqn:En; try lia.
    set (mrs1 := iter_pos shr_1 n (shr_record_of_loc (Zpos p) loc_Exact)).
    assert (Hm1 : shr_m mrs1 = Zpos p / 2 ^ Zpos n).
    { unfold mrs1. rewrite shr_m_iter by (rewrite shr_m_of_loc; lia).
      rewrite shr_m_of_loc. reflexivity. }
    assert (Hm1nn : 0 <= shr_m mrs1)
      by (rewrite Hm1; apply Z.div_pos; lia).
    assert (Hm1lt : shr_m mrs1 < 2 ^ 53).
    { rewrite Hm1. apply Z.div_lt_upper_bound; [lia|].
      rewrite <- Z.pow_add_r by lia.
      pose proof (digits2_pos_upper p) as Hu. fold d in Hu.
      apply Z.lt_le_trans with (2 ^ d); [exact Hu|].
      apply Z.pow_le_mono_r; lia. }
    pose proof (round_nearest_even_ge (shr_m mrs1) (loc_of_shr_record mrs1))
      as Hge.
    pose proof (round_nearest_even_le (shr_m mrs1) (loc_of_shr_record mrs1))
      as Hle.
    set (m2 := round_nearest_even (shr_m mrs1) (loc_of_shr_record mrs1))
      in *.
    exists m2. rewrite <- Hm1.
    split; [exact Hge|]. split; [exact Hle|]. split; [lia|].
    replace (e + Zpos n) with e1 by lia.
    rewrite fexp_eq.
    destruct m2 as [|q|q] eqn:Em2; try lia.
    + cbn [Zdigits2].
      destruct (Z.max (0 + e1 - 53) (-1074) - e1) as [|n2|n2] eqn:En2;
        try (exfalso; lia); reflexivity.
    + cbn [Zdigits2].
      destruct (Z.ltb_spec (Zpos q) (2 ^ 53)) as [Hq|Hq].
      * pose proof (digits_le q 53 ltac:(lia) Hq) as Hdq.
        destruct (Z.max (Zpos (digits2_pos q) + e1 - 53) (-1074) - e1)
          as [|n2|n2] eqn:En2; try (exfalso; lia);
          cbn [shr_record_of_loc shr_m];
          (destruct (Z.leb_spec e1 (emax - prec)) as [_|Hbad];
           [reflexivity | exfalso; unfold emax, prec in Hbad; lia]).
      * assert (Eq : q = 9007199254740992%positive) by lia.
        subst q. cbn [digits2_pos Pos.succ].
        replace (Z.max (54 + e1 - 53) (-1074) - e1) with 1 by lia.
        cbn [iter_pos shr_record_of_loc shr_1 shr_m].
        destruct (Z.leb_spec (e1 + 1) (emax - prec)) as [_|Hbad];
          [reflexivity | exfalso; unfold emax, prec in Hbad; lia].
Qed.

(** Powers of two as rationals. *)
Lemma two_power_split (a b : Z) : (2 ^ (a + b) == 2 ^ a * 2 ^ b)%Q.
Proof. apply Qpower_plus. discriminate. Qed.

Lemma two_power_mono (a b : Z) : a <= b -> (2 ^ a <= 2 ^ b)%Q.
Proof.
  intro H. apply Qpower_le_compat_l; [exact H|]. discriminate.
Qed.

Lemma two_power_Z (n : Z) : 0 <= n -> (inject_Z (2 ^ n) == 2 ^ n)%Q.
Proof. intro H. rewrite Zpower_Qpower by exact H. reflexivity. Qed.

Lemma Qabs_inject_Z (z : Z) : Qabs (inject_Z z) = inject_Z (Z.abs z).
Proof. reflexivity. Qed.

Lemma Qabs_scaled (z n e : Z) :
  0 <= n -> Z.abs z <= 2 ^ n ->
  (Qabs (inject_Z z * 2 ^ e) <= 2 ^ (n + e))%Q.
Proof.
  intros Hn Hz. rewrite Qabs_Qmult, Qabs_inject_Z.
  rewrite (Qabs_pos (2 ^ e)) by (apply Qlt_le_weak, two_power_positive).
  rewrite two_power_split, <- (two_power_Z n Hn).
  apply Qmult_le_compat_r; [|apply Qlt_le_weak, two_power_positive].
  rewrite <- Zle_Qle. exact Hz.
Qed.

(** A value below [2^k] has its leading bit below position [k]. *)
Lemma magnitude_digits (p : positive) (e k : Z) :
  (inject_Z (Zpos p) * 2 ^ e < 2 ^ k)%Q ->
  Zpos (digits2_pos p) + e <= k.
Proof.
  intro H. pose proof (digits2_pos_lower p) as Hl.
  set (d := Zpos (digits2_pos p)) in *.
  assert (Hd : 1 <= d) by (unfold d; lia).
  assert (Hlow : (2 ^ (d - 1 + e) <= inject_Z (Zpos p) * 2 ^ e)%Q).
  { rewrite two_power_split, <- (two_power_Z (d - 1)) by lia.
    apply Qmult_le_compat_r; [|apply Qlt_le_weak, two_power_positive].
    rewrite <- Zle_Qle. exact Hl. }
  assert (Hlt : (2 ^ (d - 1 + e) < 2 ^ k)%Q)
    by (eapply Qle_lt_trans; [exact Hlow | exact H]).
  apply Qpower_lt_compat_l_inv in Hlt; [lia | reflexivity].
Qed.

Lemma truncation_error (p m2 n : Z) :
  0 < n -> 0 <= p ->
  p / 2 ^ n <= m2 <= p / 2 ^ n + 1 ->
  Z.abs (m2 * 2 ^ n - p) <= 2 ^ n.
Proof.
  intros Hn Hp Hm.
  assert (Hpow : 0 < 2 ^ n) by (apply Z.pow_pos_nonneg; lia).
  pose proof (Z.mul_div_le p (2 ^ n) Hpow) as H1.
  pose proof (Z.mul_succ_div_gt p (2 ^ n) Hpow) as H2.
  set (q := p / 2 ^ n) in *. set (b := 2 ^ n) in *.
  assert (Hcase : m2 = q \/ m2 = q + 1) by lia.
  destruct Hcase as [->| ->]; nia.
Qed.

(** One rounding of an exact value whose exponent is not above the one of
    the format: the result is finite and canonical, and within
    [2^(k-53)] of the value when the value is below [2^k]. *)
Lemma round_exact_error (s : bool) (p : positive) (e k : Z) :
  Zpos (digits2_pos p) + e <= k -> -1021 <= k <= 1023 ->
  e <= Z.max (Zpos (digits2_pos p) + e - 53) (-1074) ->
  is_finite (binary_round_aux prec emax s (Zpos p) e loc_Exact) = true /\
  canonical (binary_round_aux prec emax s (Zpos p) e loc_Exact) /\
  (Qabs (Binary64.value (binary_round_aux prec emax s (Zpos p) e loc_Exact)
         - inject_Z (cond_Zopp s (Zpos p)) * 2 ^ e)
   <= 2 ^ (k - 53))%Q.
Proof.
  intros Hd Hk Hn.
  destruct (round_exact_shape s p e ltac:(lia)) as [Hsame Hshift].
  pose proof (digits2_pos_lower p) as Hlow.
  pose proof (digits2_pos_upper p) as Hupp.
  set (d := Zpos (digits2_pos p)) in *.
  set (e1 := Z.max (d + e - 53) (-1074)) in *.
  destruct (Z.le_gt_cases e1 e) as [Hle|Hlt].
  - rewrite (Hsame Hle ltac:(lia)).
    split; [reflexivity|]. split.
    + cbn [canonical]. split.
      * apply Z.lt_le_trans with (2 ^ d); [exact Hupp|].
        apply Z.pow_le_mono_r; lia.
      * intro He. apply Z.le_trans with (2 ^ (d - 1)); [|exact Hlow].
        apply Z.pow_le_mono_r; lia.
    + rewrite value_signed.
      setoid_replace (inject_Z (cond_Zopp s (Zpos p)) * 2 ^ e
                      - inject_Z (cond_Zopp s (Zpos p)) * 2 ^ e)%Q
        with 0%Q by ring.
      apply Qlt_le_weak, two_power_positive.
  - destruct (Hshift Hlt) as (m2 & Hq1 & Hq2 & Hm2 & Hr).
    set (n := e1 - e) in *.
    assert (Hn0 : 0 < n) by (unfold n; lia).
    assert (Hq0 : 0 <= Zpos p / 2 ^ n) by (apply Z.div_pos; lia).
    pose proof (truncation_error (Zpos p) m2 n Hn0 ltac:(lia)
                  (conj Hq1 Hq2)) as Herr.
    assert (Hval :
              (Binary64.value
                 (binary_round_aux prec emax s (Zpos p) e loc_Exact)
               == inject_Z (cond_Zopp s m2) * 2 ^ e1)%Q).
    { rewrite Hr. destruct m2 as [|q|q]; try lia.
      - destruct s; cbn [Binary64.value cond_Zopp Z.opp]; ring.
      - destruct (Z.ltb_spec (Zpos q) (2 ^ 53)) as [Hq|Hq].
        + apply value_signed.
        + assert (Eq : q = 9007199254740992%positive) by lia. subst q.
          rewrite value_signed, (two_power_split e1 1).
          destruct s; cbn [cond_Zopp Z.opp];
            change (2 ^ 1)%Q with 2%Q;
            [change (inject_Z (Zneg 4503599627370496))
               with (- inject_Z 4503599627370496)%Q;
             change (inject_Z (Zneg 9007199254740992))
               with (- (2 * inject_Z 4503599627370496))%Q
            |change (inject_Z (Zpos 9007199254740992))
               with (2 * inject_Z 4503599627370496)%Q];
            ring. }
    split; [|split].
    + rewrite Hr. destruct m2 as [|q|q]; try reflexivity.
      destruct (Zpos q <? 2 ^ 53)%Z; reflexivity.
    + rewrite Hr. destruct m2 as [|q|q]; try exact I.
      destruct (Z.ltb_spec (Zpos q) (2 ^ 53)) as [Hq|Hq]; cbn [canonical].
      * split; [exact Hq|]. intro He1.
        apply Z.le_trans with (Zpos p / 2 ^ n); [|exact Hq1].
        apply Z.div_le_lower_bound; [apply Z.pow_pos_nonneg; lia|].
        rewrite <- Z.pow_add_r by lia.
        apply Z.le_trans with (2 ^ (d - 1)); [|exact Hlow].
        apply Z.pow_le_mono_r; lia.
      * split; [reflexivity|]. intros _. reflexivity.
    + rewrite Hval.
      assert (Hsplit : (2 ^ e1 == 2 ^ n * 2 ^ e)%Q).
      { rewrite <- two_power_split. replace (n + e) with e1 by (unfold n; lia).
        reflexivity. }
      setoid_replace (inject_Z (cond_Zopp s m2) * 2 ^ e1
                      - inject_Z (cond_Zopp s (Zpos p)) * 2 ^ e)%Q
        with (inject_Z (cond_Zopp s (m2 * 2 ^ n - Zpos p)) * 2 ^ e)%Q.
      * apply Qle_trans with (2 ^ (n + e))%Q.
        -- apply Qabs_scaled; [lia|].
           destruct s; cbn [cond_Zopp]; [rewrite Z.abs_opp|]; exact Herr.
        -- apply two_power_mono. unfold n, e1. lia.
      * rewrite Hsplit, <- (two_power_Z n) by lia.
        destruct s; cbn [cond_Zopp];
          unfold Z.sub;
          rewrite ?Z.opp_add_distr, ?Z.opp_involutive,
            ?inject_Z_plus, ?inject_Z_opp, ?inject_Z_mult;
          ring.
Qed.

(** [binary_round] first brings the exponent down to the one of the
    format, where it can. *)
Lemma binary_round_error (s : bool) (p : positive) (e k : Z) :
  Zpos (digits2_pos p) + e <= k -> -1021 <= k <= 1023 ->
  is_finite (binary_round prec emax s p e) = true /\
  canonical (binary_round prec emax s p e) /\
  (Qabs (Binary64.value (binary_round prec emax s p e)
         - inject_Z (cond_Zopp s (Zpos p)) * 2 ^ e)
   <= 2 ^ (k - 53))%Q.
Proof.
  intros Hd Hk. unfold binary_round. rewrite fexp_eq.
  set (d := Zpos (digits2_pos p)) in *.
  set (e1 := Z.max (d + e - 53) (-1074)).
  pose proof (value_aligned s p e e1) as Hal.
  unfold shl_align in *.
  destruct (e1 - e) as [|j|j] eqn:Ej.
  - apply round_exact_error; fold d; fold e1; lia.
  - apply round_exact_error; fold d; fold e1; lia.
  - cbn [fst] in Hal.
    assert (Htarget :
              (inject_Z (cond_Zopp s (Zpos p)) * 2 ^ e
               == inject_Z (cond_Zopp s (Zpos (Pos.iter xO p j))) * 2 ^ e1)%Q)
      by (rewrite <- value_signed; apply Hal; lia).
    assert (Hdig : Zpos (digits2_pos (Pos.iter xO p j)) + e1 = d + e)
      by (rewrite digits_iter_xO; fold d; lia).
    rewrite Htarget.
    apply round_exact_error; try rewrite Hdig; unfold e1; lia.
Qed.

Lemma binary_normalize_error (D e k : Z) :
  (Qabs (inject_Z D * 2 ^ e) < 2 ^ k)%Q -> -1021 <= k <= 1023 ->
  is_finite (binary_normalize prec emax D e false) = true /\
  canonical (binary_normalize prec emax D e false) /\
  (Qabs (Binary64.value (binary_normalize prec emax D e false)
         - inject_Z D * 2 ^ e)
   <= 2 ^ (k - 53))%Q.
Proof.
  intros Hmag Hk.
  rewrite Qabs_Qmult, Qabs_inject_Z in Hmag.
  rewrite (Qabs_pos (2 ^ e)) in Hmag
    by (apply Qlt_le_weak, two_power_positive).
  destruct D as [|p|p]; cbn [binary_normalize].
  - split; [reflexivity|]. split; [exact I|].
    cbn [Binary64.value].
    setoid_replace (0 - inject_Z 0 * 2 ^ e)%Q with 0%Q by ring.
    apply Qlt_le_weak, two_power_positive.
  - apply (binary_round_error false p e k); [|exact Hk].
    apply magnitude_digits. exact Hmag.
  - apply (binary_round_error true p e k); [|exact Hk].
    apply magnitude_digits. exact Hmag.
Qed.

(** The sum of two finite doubles, before it is rounded. *)
Lemma sum_aligned (sx sy : bool) (mx my : positive) (ex ey : Z) :
  (Binary64.value (S754_finite sx mx ex)
   + Binary64.value (S754_finite sy my ey)
   == inject_Z
        (cond_Zopp sx (Zpos (fst (shl_align mx ex (Z.min ex ey))))
         + cond_Zopp sy (Zpos (fst (shl_align my ey (Z.min ex ey)))))
      * 2 ^ Z.min ex ey)%Q.
Proof.
  rewrite (value_aligned sx mx ex (Z.min ex ey)) by lia.
  rewrite (value_aligned sy my ey (Z.min ex ey)) by lia.
  rewrite inject_Z_plus. ring.
Qed.

Lemma value_negb (s : bool) (m : positive) (e : Z) :
  (Binary64.value (S754_finite (negb s) m e)
   == - Binary64.value (S754_finite s m e))%Q.
Proof. destruct s; cbn [Binary64.value negb]; ring. Qed.

Lemma Qabs_zero_le_power (k : Z) (x : Q) :
  (x == 0)%Q -> (Qabs x <= 2 ^ k)%Q.
Proof.
  intro H. rewrite H. apply Qlt_le_weak, two_power_positive.
Qed.

(** Addition of finite canonical doubles whose sum is below [2^k]. *)
Lemma add_error (x y : float) (k : Z) :
  is_finite x = true -> is_finite y = true ->
  canonical x -> canonical y ->
  (Qabs (Binary64.value x + Binary64.value y) < 2 ^ k)%Q ->
  -1021 <= k <= 1023 ->
  is_finite (add x y) = true /\
  canonical (add x y) /\
  (Qabs (Binary64.value (add x y) - (Binary64.value x + Binary64.value y))
   <= 2 ^ (k - 53))%Q.
Proof.
  intros Hx Hy Hcx Hcy Hmag Hk.
  destruct x as [sx|sx| |sx mx ex]; try discriminate Hx;
    destruct y as [sy|sy| |sy my ey]; try discriminate Hy.
  - split; [destruct sx, sy; reflexivity|].
    split; [destruct sx, sy; exact I|].
    apply Qabs_zero_le_power. destruct sx, sy; cbn; ring.
  - change (add (S754_zero sx) (S754_finite sy my ey))
      with (S754_finite sy my ey).
    split; [reflexivity|]. split; [exact Hcy|].
    apply Qabs_zero_le_power.
    change (Binary64.value (S754_zero sx)) with 0%Q. ring.
  - change (add (S754_finite sx mx ex) (S754_zero sy))
      with (S754_finite sx mx ex).
    split; [reflexivity|]. split; [exact Hcx|].
    apply Qabs_zero_le_power.
    change (Binary64.value (S754_zero sy)) with 0%Q. ring.
  - change (add (S754_finite sx mx ex) (S754_finite sy my ey))
      with (binary_normalize prec emax
              (cond_Zopp sx (Zpos (fst (shl_align mx ex (Z.min ex ey))))
               + cond_Zopp sy (Zpos (fst (shl_align my ey (Z.min ex ey)))))
              (Z.min ex ey) false).
    rewrite (sum_aligned sx sy mx my ex ey) in *.
    apply binary_normalize_error; assumption.
Qed.

(** Subtraction of a finite canonical double from another. *)
Lemma sub_error (x y : float) (k : Z) :
  is_finite x = true -> is_finite y = true ->
  canonical x -> canonical y ->
  (Qabs (Binary64.value x - Binary64.value y) < 2 ^ k)%Q ->
  -1021 <= k <= 1023 ->
  is_finite (sub x y) = true /\
  canonical (sub x y) /\
  (Qabs (Binary64.value (sub x y) - (Binary64.value x - Binary64.value y))
   <= 2 ^ (k - 53))%Q.
Proof.
  intros Hx Hy Hcx Hcy Hmag Hk.
  destruct x as [sx|sx| |sx mx ex]; try discriminate Hx;
    destruct y as [sy|sy| |sy my ey]; try discriminate Hy.
  - split; [destruct sx, sy; reflexivity|].
    split; [destruct sx, sy; exact I|].
    apply Qabs_zero_le_power. destruct sx, sy; cbn; ring.
  - change (sub (S754_zero sx) (S754_finite sy my ey))
      with (S754_finite (negb sy) my ey).
    split; [reflexivity|]. split; [exact Hcy|].
    apply Qabs_zero_le_power. rewrite value_negb.
    change (Binary64.value (S754_zero sx)) with 0%Q. ring.
  - change (sub (S754_finite sx mx ex) (S754_zero sy))
      with (S754_finite sx mx ex).
    split; [reflexivity|]. split; [exact Hcx|].
    apply Qabs_zero_le_power.
    change (Binary64.value (S754_zero sy)) with 0%Q. ring.
  - change (sub (S754_finite sx mx ex) (S754_finite sy my ey))
      with (binary_normalize prec emax
              (cond_Zopp sx (Zpos (fst (shl_align mx ex (Z.min ex ey))))
               - cond_Zopp sy (Zpos (fst (shl_align my ey (Z.min ex ey)))))
              (Z.min ex ey) false).
    assert (Hd : (Binary64.value (S754_finite sx mx ex)
                  - Binary64.value (S754_finite sy my ey)
                  == inject_Z
                       (cond_Zopp sx
                          (Zpos (fst (shl_align mx ex (Z.min ex ey))))
                        - cond_Zopp sy
                            (Zpos (fst (shl_align my ey (Z.min ex ey)))))
                     * 2 ^ Z.min ex ey)%Q).
    { rewrite (value_aligned sx mx ex (Z.min ex ey)) by lia.
      rewrite (value_aligned sy my ey (Z.min ex ey)) by lia.
      unfold Z.sub. rewrite inject_Z_plus, inject_Z_opp. ring. }
    rewrite Hd in *.
    apply binary_normalize_error; assumption.
Qed.

(** Multiplication of a finite double by a normal one (53 bits in the
    mantissa). *)
Lemma mul_error (x y : float) (k : Z) :
  is_finite x = true -> is_finite y = true ->
  match y with
  | S754_finite _ my _ => 2 ^ 52 <= Zpos my
  | _ => True
  end ->
  (Qabs (Binary64.value x * Binary64.value y) < 2 ^ k)%Q ->
  -1021 <= k <= 1023 ->
  is_finite (mul x y) = true /\
  canonical (mul x y) /\
  (Qabs (Binary64.value (mul x y) - Binary64.value x * Binary64.value y)
   <= 2 ^ (k - 53))%Q.
Proof.
  intros Hx Hy Hny Hmag Hk.
  destruct x as [sx|sx| |sx mx ex]; try discriminate Hx;
    destruct y as [sy|sy| |sy my ey]; try discriminate Hy.
  - split; [reflexivity|]. split; [exact I|].
    apply Qabs_zero_le_power. cbn. ring.
  - split; [reflexivity|]. split; [exact I|].
    apply Qabs_zero_le_power.
    change (mul (S754_zero sx) (S754_finite sy my ey))
      with (S754_zero (xorb sx sy)).
    change (Binary64.value (S754_zero (xorb sx sy))) with 0%Q.
    change (Binary64.value (S754_zero sx)) with 0%Q. ring.
  - split; [reflexivity|]. split; [exact I|].
    apply Qabs_zero_le_power.
    change (mul (S754_finite sx mx ex) (S754_zero sy))
      with (S754_zero (xorb sx sy)).
    change (Binary64.value (S754_zero (xorb sx sy))) with 0%Q.
    change (Binary64.value (S754_zero sy)) with 0%Q. ring.
  - change (mul (S754_finite sx mx ex) (S754_finite sy my ey))
      with (binary_round_aux prec emax (xorb sx sy) (Zpos (mx * my))
              (ex + ey) loc_Exact).
    assert (Hprod : (Binary64.value (S754_finite sx mx ex)
                     * Binary64.value (S754_finite sy my ey)
                     == inject_Z (cond_Zopp (xorb sx sy) (Zpos (mx * my)))
                        * 2 ^ (ex + ey))%Q).
    { rewrite !value_signed, two_power_split.
      replace (cond_Zopp (xorb sx sy) (Zpos (mx * my)))
        with (cond_Zopp sx (Zpos mx) * cond_Zopp sy (Zpos my))
        by (destruct sx, sy; cbn [cond_Zopp xorb]; lia).
      rewrite inject_Z_mult. ring. }
    rewrite Hprod in *.
    assert (Hmag' : (inject_Z (Zpos (mx * my)) * 2 ^ (ex + ey) < 2 ^ k)%Q).
    { rewrite Qabs_Qmult, Qabs_inject_Z in Hmag.
      rewrite (Qabs_pos (2 ^ (ex + ey))) in Hmag
        by (apply Qlt_le_weak, two_power_positive).
      replace (Z.abs (cond_Zopp (xorb sx sy) (Zpos (mx * my))))
        with (Zpos (mx * my)) in Hmag
        by (destruct (xorb sx sy); cbn [cond_Zopp]; lia).
      exact Hmag. }
    apply round_exact_error.
    + apply magnitude_digits. exact Hmag'.
    + exact Hk.
    + assert (H52 : 2 ^ 52 <= Zpos (mx * my)).
      { rewrite Pos2Z.inj_mul. nia. }
      pose proof (digits_gt (mx * my) 52 ltac:(lia) H52). lia.
Qed.

(** What [valid] asks of a mantissa. *)
Lemma valid_canonical (x : float) : valid x = true -> canonical x.
Proof.
  destruct x as [s|s| |s m e]; try (intros _; exact I).
  unfold valid. cbn [valid_binary]. unfold bounded, canonical_mantissa.
  rewrite fexp_eq. intro H. apply andb_true_iff in H. destruct H as [H _].
  apply Z.eqb_eq in H.
  pose proof (digits2_pos_lower m) as Hlow.
  pose proof (digits2_pos_upper m) as Hupp.
  cbn [canonical]. split.
  - apply Z.lt_le_trans with (2 ^ Zpos (digits2_pos m)); [exact Hupp|].
    apply Z.pow_le_mono_r; lia.
  - intro He. apply Z.le_trans with (2 ^ (Zpos (digits2_pos m) - 1));
      [|exact Hlow].
    apply Z.pow_le_mono_r; lia.
Qed.

(** A positive double against a power of two. *)
Lemma value_lt_power (m : positive) (e k : Z) :
  0 <= k ->
  ((Binary64.value (S754_finite false m e) < 2 ^ (k + e))%Q
   <-> Zpos m < 2 ^ k).
Proof.
  intro Hk. cbn [Binary64.value].
  rewrite two_power_split, <- (two_power_Z k Hk).
  rewrite Qmult_lt_r by apply two_power_positive.
  rewrite <- Zlt_Qlt. reflexivity.
Qed.

Lemma value_ge_power (m : positive) (e k : Z) :
  0 <= k -> 2 ^ k <= Zpos m ->
  (2 ^ (k + e) <= Binary64.value (S754_finite false m e))%Q.
Proof.
  intros Hk Hm. cbn [Binary64.value].
  rewrite two_power_split, <- (two_power_Z k Hk).
  apply Qmult_le_compat_r; [|apply Qlt_le_weak, two_power_positive].
  rewrite <- Zle_Qle. exact Hm.
Qed.

(** [t < 1] on a finite canonical double. *)
Lemma ltb_one (t : float) :
  is_finite t = true -> canonical t ->
  (ltb t lit_1 = true <-> (Binary64.value t < 1)%Q).
Proof.
  intros Hf Hc. destruct t as [s|s| |s m e]; try discriminate Hf.
  - cbn. split; [intros _; reflexivity | reflexivity].
  - destruct s.
    + pose proof (value_negative m e) as Hneg.
      split; [intros _; lra | intros _; reflexivity].
    + cbn [canonical] in Hc. destruct Hc as [Hm Hn].
      unfold ltb, SFltb, lit_1. cbn [SFcompare].
      destruct (Z.compare_spec e (-52)) as [He|He|He].
      * subst e.
        rewrite Pos.compare_cont_spec. cbn [Pos.switch_Eq].
        pose proof (value_lt_power m (-52) 52 ltac:(lia)) as Hv.
        change (2 ^ (52 + -52))%Q with 1%Q in Hv.
        rewrite Hv.
        destruct (Pos.compare_spec m 4503599627370496%positive) as [E|E|E].
        -- subst m. split; [discriminate | intro H; exfalso; lia].
        -- split; [intros _|reflexivity]. exact E.
        -- split; [discriminate|]. intro H. exfalso.
           exact (Z.lt_asymm _ _ H E).
      * split; [intros _|reflexivity].
        apply Qlt_le_trans with (2 ^ (53 + e))%Q.
        -- apply value_lt_power; [lia | exact Hm].
        -- change 1%Q with (2 ^ 0)%Q. apply two_power_mono. lia.
      * split; [discriminate|]. intro H. exfalso.
        pose proof (value_ge_power m e 52 ltac:(lia) (Hn ltac:(lia))) as Hge.
        pose proof (two_power_mono 0 (52 + e) ltac:(lia)) as Hp.
        change (2 ^ 0)%Q with 1%Q in Hp.
        set (v := Binary64.value (S754_finite false m e)) in *.
        set (w := (2 ^ (52 + e))%Q) in *. lra.
Qed.

(** [0 < u] on a finite double. *)
Lemma ltb_zero (u : float) :
  is_finite u = true ->
  (ltb lit_0 u = true <-> (0 < Binary64.value u)%Q).
Proof.
  intro Hf. destruct u as [s|s| |s m e]; try discriminate Hf.
  - cbn. split; [discriminate | intro H; exfalso; lra].
  - destruct s.
    + pose proof (value_negative m e) as Hneg.
      split; [discriminate | intro H; exfalso; lra].
    + pose proof (value_positive m e) as Hpos.
      split; [intros _; exact Hpos | intros _; reflexivity].
Qed.

Lemma Math_min_one (t : float) :
  is_finite t = true ->
  Math_min lit_1 t = if ltb t lit_1 then t else lit_1.
Proof. destruct t; try discriminate; reflexivity. Qed.

Lemma Math_max_zero (u : float) :
  is_finite u = true ->
  Math_max lit_0 u = if ltb lit_0 u then u else lit_0.
Proof. destruct u; try discriminate; reflexivity. Qed.

Lemma value_lit_1 : (Binary64.value lit_1 == 1)%Q.
Proof. reflexivity. Qed.

Lemma value_lit_0_5 : (Binary64.value lit_0_5 == 1 # 2)%Q.
Proof. reflexivity. Qed.

Lemma value_lit_0_1 :
  (Binary64.value lit_0_1 == 3602879701896397 # 36028797018963968)%Q.
Proof. reflexivity. Qed.

(** The clamp [Math.max(0, Math.min(1, t))] on a finite canonical
    double. *)
Lemma clamp_value (t : float) :
  is_finite t = true -> canonical t ->
  is_finite (Math_max lit_0 (Math_min lit_1 t)) = true /\
  (((Binary64.value t <= 0)%Q /\
    (Binary64.value (Math_max lit_0 (Math_min lit_1 t)) == 0)%Q) \/
   ((0 <= Binary64.value t <= 1)%Q /\
    (Binary64.value (Math_max lit_0 (Math_min lit_1 t))
     == Binary64.value t)%Q) \/
   ((1 <= Binary64.value t)%Q /\
    (Binary64.value (Math_max lit_0 (Math_min lit_1 t)) == 1)%Q)).
Proof.
  intros Hf Hc. rewrite (Math_min_one t Hf).
  pose proof (ltb_one t Hf Hc) as H1.
  destruct (ltb t lit_1) eqn:E1.
  - assert (Ht1 : (Binary64.value t < 1)%Q) by (apply H1; reflexivity).
    rewrite (Math_max_zero t Hf).
    pose proof (ltb_zero t Hf) as H0.
    destruct (ltb lit_0 t) eqn:E0.
    + assert (Ht0 : (0 < Binary64.value t)%Q) by (apply H0; reflexivity).
      split; [exact Hf|]. right; left.
      split; [split; lra | reflexivity].
    + split; [reflexivity|]. left. split; [|reflexivity].
      apply Qnot_lt_le. intro Hpos. apply H0 in Hpos. discriminate Hpos.
  - assert (Ht1 : (1 <= Binary64.value t)%Q).
    { apply Qnot_lt_le. intro Hlt. apply H1 in Hlt. discriminate Hlt. }
    split; [reflexivity|]. right; right.
    split; [exact Ht1 | reflexivity].
Qed.

(** One clamped adjustment [max(0, min(1, base + (score - 0.5) * 0.1))] in
    binary64, for a base and a score in [0,1]: the result is in [0,1] and
    within [0.05 + 2^-51] of the base. *)
Lemma adjusted_drift (base score : float) :
  valid base = true -> is_finite base = true ->
  (0 <= Binary64.value base <= 1)%Q ->
  valid score = true -> is_finite score = true ->
  (0 <= Binary64.value score <= 1)%Q ->
  is_finite
    (Math_max lit_0
       (Math_min lit_1 (add base (mul (sub score lit_0_5) lit_0_1))))
  = true /\
  (0 <= Binary64.value
          (Math_max lit_0
             (Math_min lit_1 (add base (mul (sub score lit_0_5) lit_0_1))))
   <= 1)%Q /\
  (Qabs (Binary64.value
           (Math_max lit_0
              (Math_min lit_1 (add base (mul (sub score lit_0_5) lit_0_1))))
         - Binary64.value base)
   <= 0.05 + 2 ^ (-51))%Q.
Proof.
  intros Hvb Hfb Hb Hvs Hfs Hs.
  pose proof (valid_canonical base Hvb) as Hcb.
  pose proof (valid_canonical score Hvs) as Hcs.
  pose proof value_lit_0_5 as Hhalf. pose proof value_lit_0_1 as Htenth.
  (* score - 0.5 *)
  destruct (sub_error score lit_0_5 0 Hfs eq_refl Hcs
              (valid_canonical lit_0_5 eq_refl)) as (Hf1 & Hc1 & He1);
    [ apply Qabs_Qlt_condition; change (2 ^ 0)%Q with 1%Q;
      set (vs := Binary64.value score) in *;
      set (vh := Binary64.value lit_0_5) in *; split; lra
    | lia | ].
  change (2 ^ (0 - 53))%Q with (1 # 9007199254740992)%Q in He1.
  apply Qabs_Qle_condition in He1.
  set (t1 := sub score lit_0_5) in *.
  (* (score - 0.5) * 0.1 *)
  destruct (mul_error t1 lit_0_1 (-4) Hf1 eq_refl) as (Hf2 & Hc2 & He2);
    [ cbn [lit_0_1]; lia
    | apply Qabs_Qlt_condition;
      change (2 ^ (-4))%Q with (1 # 16)%Q;
      set (vs := Binary64.value score) in *;
      set (vh := Binary64.value lit_0_5) in *;
      set (v1 := Binary64.value t1) in *;
      rewrite Htenth; split; lra
    | lia | ].
  change (2 ^ (-4 - 53))%Q with (1 # 144115188075855872)%Q in He2.
  rewrite Htenth in He2.
  apply Qabs_Qle_condition in He2.
  set (t2 := mul t1 lit_0_1) in *.
  (* base + (score - 0.5) * 0.1 *)
  destruct (add_error base t2 1 Hfb Hf2 Hcb Hc2) as (Hf3 & Hc3 & He3);
    [ apply Qabs_Qlt_condition;
      change (2 ^ 1)%Q with 2%Q;
      set (vs := Binary64.value score) in *;
      set (vh := Binary64.value lit_0_5) in *;
      set (v1 := Binary64.value t1) in *;
      set (v2 := Binary64.value t2) in *;
      set (vb := Binary64.value base) in *; split; lra
    | lia | ].
  change (2 ^ (1 - 53))%Q with (1 # 4503599627370496)%Q in He3.
  apply Qabs_Qle_condition in He3.
  set (t3 := add base t2) in *.
  destruct (clamp_value t3 Hf3 Hc3) as (Hfr & Hr).
  split; [exact Hfr|].
  change (2 ^ (-51))%Q with (1 # 2251799813685248)%Q.
  set (r := Math_max lit_0 (Math_min lit_1 t3)) in *.
  set (vs := Binary64.value score) in *.
  set (vh := Binary64.value lit_0_5) in *.
  set (v1 := Binary64.value t1) in *.
  set (v2 := Binary64.value t2) in *.
  set (v3 := Binary64.value t3) in *.
  set (vb := Binary64.value base) in *.
  set (vr := Binary64.value r) in *.
  split.
  - destruct Hr as [[H3 Hr] | [[H3 Hr] | [H3 Hr]]]; rewrite Hr; lra.
  - apply Qabs_Qle_condition.
    destruct Hr as [[H3 Hr] | [[H3 Hr] | [H3 Hr]]]; rewrite Hr;
      split; lra.
Qed.

End RoundingErrorFacts.

(** ** The drift of one epoch in binary64 *)

(** C10, as stated, fails in the arithmetic of the code: a weight of 0.9
    with a performance score of 1 becomes 0.9500000000000001, which is more
    than 0.05 above the double 0.9; the same holds of the reputation. *)
Lemma drift_exceeds_half_of_max :
  Binary64.valid (Binary64.weight Binary64.node_w09) = true /\
  (0 <= Binary64.value (Binary64.weight Binary64.node_w09) <= 1)%Q /\
  Binary64.valid Binary64.lit_1 = true /\
  (0 <= Binary64.value Binary64.lit_1 <= 1)%Q /\
  Binary64.calculateNewWeight Binary64.node_w09 Binary64.lit_1
  = SpecFloat.S754_finite false 8556839292003943 (-53) /\
  (0.05 < Binary64.value
            (Binary64.calculateNewWeight Binary64.node_w09 Binary64.lit_1)
          - Binary64.value (Binary64.weight Binary64.node_w09))%Q /\
  (0.05 < Binary64.value
            (Binary64.updateReputation Binary64.node_w09 Binary64.lit_1)
          - Binary64.value (Binary64.reputation Binary64.node_w09))%Q.
Proof. vm_compute. repeat split; intro H; discriminate H. Qed.

(** C10, amended.  For a participant whose weight and reputation are
    doubles in [0,1] and a performance (respectively alignment) score that
    is a double in [0,1], the weight (respectively reputation) after one
    epoch, computed in binary64 as the code computes it, is a double in
    [0,1] that differs from the previous one by at most [0.05 + 2^-51]:
    half of the 0.1 that the specification allows, up to the rounding of
    the three operations. *)
Theorem drift_at_most_half_of_max_and_rounding
  (node : Binary64.ConsensusNode) (performance alignment : Binary64.float) :
  Binary64.valid (Binary64.weight node) = true ->
  Binary64.is_finite (Binary64.weight node) = true ->
  (0 <= Binary64.value (Binary64.weight node) <= 1)%Q ->
  Binary64.valid (Binary64.reputation node) = true ->
  Binary64.is_finite (Binary64.reputation node) = true ->
  (0 <= Binary64.value (Binary64.reputation node) <= 1)%Q ->
  Binary64.valid performance = true ->
  Binary64.is_finite performance = true ->
  (0 <= Binary64.value performance <= 1)%Q ->
  Binary64.valid alignment = true ->
  Binary64.is_finite alignment = true ->
  (0 <= Binary64.value alignment <= 1)%Q ->
  (Binary64.is_finite (Binary64.calculateNewWeight node performance) = true /\
   (0 <= Binary64.value (Binary64.calculateNewWeight node performance)
    <= 1)%Q /\
   (Qabs (Binary64.value (Binary64.calculateNewWeight node performance)
          - Binary64.value (Binary64.weight node))
    <= 0.05 + 2 ^ (-51))%Q) /\
  (Binary64.is_finite (Binary64.updateReputation node alignment) = true /\
   (0 <= Binary64.value (Binary64.updateReputation node alignment)
    <= 1)%Q /\
   (Qabs (Binary64.value (Binary64.updateReputation node alignment)
          - Binary64.value (Binary64.reputation node))
    <= 0.05 + 2 ^ (-51))%Q).
Proof.
  intros Hvw Hfw Hw Hvr Hfr Hr Hvp Hfp Hp Hva Hfa Ha. split.
  - exact (RoundingErrorFacts.adjusted_drift (Binary64.weight node)
             performance Hvw Hfw Hw Hvp Hfp Hp).
  - exact (RoundingErrorFacts.adjusted_drift (Binary64.reputation node)
             alignment Hvr Hfr Hr Hva Hfa Ha).
Qed.

Lemma drift_at_most_half_of_max_and_rounding_witness :
  Binary64.valid (Binary64.weight Binary64.node_w09) = true /\
  Binary64.is_finite (Binary64.weight Binary64.node_w09) = true /\
  (0 <= Binary64.value (Binary64.weight Binary64.node_w09) <= 1)%Q /\
  Binary64.valid (Binary64.reputation Binary64.node_w09) = true /\
  Binary64.is_finite (Binary64.reputation Binary64.node_w09) = true /\
  (0 <= Binary64.value (Binary64.reputation Binary64.node_w09) <= 1)%Q /\
  Binary64.valid Binary64.lit_1 = true /\
  Binary64.is_finite Binary64.lit_1 = true /\
  (0 <= Binary64.value Binary64.lit_1 <= 1)%Q /\
  (Qabs (Binary64.value
           (Binary64.calculateNewWeight Binary64.node_w09 Binary64.lit_1)
         - Binary64.value (Binary64.weight Binary64.node_w09))
   <= 0.05 + 2 ^ (-51))%Q /\
  (Qabs (Binary64.value
           (Binary64.updateReputation Binary64.node_w09 Binary64.lit_1)
         - Binary64.value (Binary64.reputation Binary64.node_w09))
   <= 0.05 + 2 ^ (-51))%Q.
Proof.
  assert (Hv9 : Binary64.valid Binary64.lit_0_9 = true) by reflexivity.
  assert (Hf9 : Binary64.is_finite Binary64.lit_0_9 = true) by reflexivity.
  assert (H9 : (0 <= Binary64.value Binary64.lit_0_9 <= 1)%Q)
    by (split; discriminate).
  assert (Hv1 : Binary64.valid Binary64.lit_1 = true) by reflexivity.
  assert (Hf1 : Binary64.is_finite Binary64.lit_1 = true) by reflexivity.
  assert (H1 : (0 <= Binary64.value Binary64.lit_1 <= 1)%Q)
    by (split; discriminate).
  pose proof (drift_at_most_half_of_max_and_rounding Binary64.node_w09
                Binary64.lit_1 Binary64.lit_1
                Hv9 Hf9 H9 Hv9 Hf9 H9 Hv1 Hf1 H1 Hv1 Hf1 H1)
    as [(_ & _ & Hweight) (_ & _ & Hrep)].
  repeat (split; [assumption|]). exact Hrep.
Defined.
